(** * meritop (TaskGraph): the per-node task runtime over etcd

    A shallow embedding of the framework of go-distributed/meritop and of
    its etcdutil helpers, followed by the properties of the runtime that
    the specification states.

    The repository keeps several snapshots of the framework.  The
    definitions below follow the snapshot whose API carries the names
    [FlagMetaToParent], [FlagMetaToChild] and [ShutdownJob]
    (package meritop / package framework, with [JobEpochPath],
    [TaskMasterPath], ... of etcd_layout.go), together with
    pkg/etcdutil/healthy.go.  Module [Earlier] records where the older
    snapshot (framework.go) differs.

    Conventions.  A [uint64] is a [Z] in [0, 2^64) with the wrap-around
    written out ([wrap64]); a [time.Duration] is a [Z] number of
    nanoseconds; Go strings are [string]; [[]byte] is [list ascii] behind
    the name [bytes].  Calls into the user's task that return nothing are
    recorded as events of a trace; goroutines are explicit thread
    identifiers. *)

From Stdlib Require Import ZArith Lia Bool Ascii String List.
From stdpp Require Import base gmap strings list.

Local Open Scope Z_scope.

(** ** Go values *)

Definition maxUint64 : Z := 2 ^ 64 - 1.

Definition wrap64 (n : Z) : Z := n mod 2 ^ 64.

Definition bytes := list ascii.

(** A Go result [(v, err)] whose value is only read when [err == nil]. *)
Inductive result (E A : Type) : Type :=
  | Ok (a : A)
  | Err (e : E).
Arguments Ok {E A} a.
Arguments Err {E A} e.

Definition is_ok {E A} (r : result E A) : bool :=
  match r with Ok _ => true | Err _ => false end.

(** ** strconv *)

Module strconv.

Inductive NumError := ErrSyntax | ErrRange | ErrBase.

Definition byteZ (c : ascii) : Z := Z.of_N (N_of_ascii c).

(** The digit switch of the parsing loop: '0'..'9', 'a'..'z', 'A'..'Z'. *)
Definition digitVal (d : ascii) : option Z :=
  let c := byteZ d in
  if (48 <=? c) && (c <=? 57) then Some (c - 48)
  else if (97 <=? c) && (c <=? 122) then Some (c - 97 + 10)
  else if (65 <=? c) && (c <=? 90) then Some (c - 65 + 10)
  else None.

(** [cutoff64 base]: the smallest number such that
    [cutoff * base > maxUint64]. *)
Definition cutoff64 (base : Z) : Z :=
  if base <? 2 then 0 else maxUint64 / base + 1.

(** The loop over the digits of [s]; [n] is the value read so far. *)
Fixpoint parseDigits (base maxVal cutoff : Z) (s : string) (n : Z)
  : result NumError Z :=
  match s with
  | EmptyString => Ok n
  | String d s' =>
      match digitVal d with
      | None => Err ErrSyntax
      | Some v =>
          if base <=? v then Err ErrSyntax
          else if cutoff <=? n then Err ErrRange
          else
            let n' := wrap64 (n * base) in
            let n1 := wrap64 (n' + v) in
            if (n1 <? n') || (maxVal <? n1) then Err ErrRange
            else parseDigits base maxVal cutoff s' n1
      end
  end.

Definition isX (c : ascii) : bool :=
  Ascii.eqb c "x" || Ascii.eqb c "X".

(** [strconv.ParseUint(s, base, bitSize)] for [1 <= bitSize <= 64], as
    in the Go releases of the repository's time: base 0 selects the base
    from the prefix of [s] ("0x" is 16, a leading "0" is 8, anything
    else 10).  Later releases accept more in base 0 (the prefixes "0b"
    and "0o", underscores) and the same in base 10. *)
Definition ParseUint (s : string) (base bitSize : Z) : result NumError Z :=
  let maxVal := 2 ^ bitSize - 1 in
  match s with
  | EmptyString => Err ErrSyntax
  | String c0 rest =>
      if (2 <=? base) && (base <=? 36) then
        parseDigits base maxVal (cutoff64 base) s 0
      else if base =? 0 then
        match rest with
        | String c1 rest' =>
            if Ascii.eqb c0 "0" && isX c1 then
              match rest' with
              | EmptyString => Err ErrSyntax
              | _ => parseDigits 16 maxVal (cutoff64 16) rest' 0
              end
            else if Ascii.eqb c0 "0" then
              parseDigits 8 maxVal (cutoff64 8) s 0
            else parseDigits 10 maxVal (cutoff64 10) s 0
        | EmptyString =>
            if Ascii.eqb c0 "0" then parseDigits 8 maxVal (cutoff64 8) s 0
            else parseDigits 10 maxVal (cutoff64 10) s 0
        end
      else Err ErrBase
  end.

Definition digitChar (d : Z) : ascii := ascii_of_N (Z.to_N (48 + d)).

(** The decimal loop of [FormatUint]: digits are produced from the least
    significant one, in front of what is already written.  Twenty
    digits are enough for a [uint64]. *)
Fixpoint formatBits (fuel : nat) (x : Z) (a : string) : string :=
  match fuel with
  | O => a
  | S fuel' =>
      let a' := String (digitChar (x mod 10)) a in
      if x <? 10 then a' else formatBits fuel' (x / 10) a'
  end.

(** [strconv.FormatUint(x, 10)]. *)
Definition FormatUint (x : Z) : string := formatBits 20 x EmptyString.

End strconv.

(** ** path *)

Module path.

Definition slash : ascii := "/"%char.

(** The elements of a path between its slashes. *)
Fixpoint split (p : string) : list string :=
  match p with
  | EmptyString => [EmptyString]
  | String c r =>
      if Ascii.eqb c slash then EmptyString :: split r
      else match split r with
           | [] => [String c EmptyString]
           | h :: t => String c h :: t
           end
  end.

Fixpoint join (elems : list string) : string :=
  match elems with
  | [] => EmptyString
  | [e] => e
  | e :: es => e +:+ String slash (join es)
  end.

(** One element read by [Clean]; [out] holds the elements written so
    far, last one first. *)
Definition cleanStep (rooted : bool) (out : list string) (e : string)
  : list string :=
  if String.eqb e "" then out
  else if String.eqb e "." then out
  else if String.eqb e ".." then
    match out with
    | top :: out' =>
        if String.eqb top ".." then e :: out else out'
    | [] => if rooted then out else [e]
    end
  else e :: out.

(** [path.Clean]. *)
Definition Clean (p : string) : string :=
  match p with
  | EmptyString => "."
  | String c _ =>
      let rooted := Ascii.eqb c slash in
      let out := rev (fold_left (cleanStep rooted) (split p) []) in
      if rooted then String slash (join out)
      else match out with
           | [] => "."
           | _ => join out
           end
  end.

Fixpoint dropEmpty (elem : list string) : list string :=
  match elem with
  | [] => []
  | e :: es => if String.eqb e "" then dropEmpty es else elem
  end.

(** [path.Join]: the elements from the first non-empty one on, joined
    by slashes and cleaned. *)
Definition Join (elem : list string) : string :=
  match dropEmpty elem with
  | [] => EmptyString
  | es => Clean (join es)
  end.

Fixpoint stripSlashes (rev_p : list string) : list string :=
  match rev_p with
  | e :: es => if String.eqb e "" then stripSlashes es else rev_p
  | [] => []
  end.

(** [path.Base]: the last element of the path, trailing slashes
    removed; "." for the empty path and "/" for a path of slashes. *)
Definition Base (p : string) : string :=
  match p with
  | EmptyString => "."
  | _ =>
      match stripSlashes (rev (split p)) with
      | [] => "/"
      | e :: _ => e
      end
  end.

End path.

(** ** The etcd layout (etcd_layout.go) *)

Definition TasksDir : string := "tasks".
Definition Epoch : string := "epoch".
Definition TaskMaster : string := "0".
Definition TaskParentMeta : string := "ParentMeta".
Definition TaskChildMeta : string := "ChildMeta".

Definition JobEpochPath (appName : string) : string :=
  path.Join ["/"; appName; Epoch].

Definition TaskDirPath (appName : string) : string :=
  path.Join ["/"; appName; TasksDir].

Definition TaskMasterPath (appName : string) (taskID : Z) : string :=
  path.Join ["/"; appName; TasksDir; strconv.FormatUint taskID; TaskMaster].

Definition ParentMetaPath (appName : string) (taskID : Z) : string :=
  path.Join ["/"; appName; TasksDir; strconv.FormatUint taskID; TaskParentMeta].

Definition ChildMetaPath (appName : string) (taskID : Z) : string :=
  path.Join ["/"; appName; TasksDir; strconv.FormatUint taskID; TaskChildMeta].

(** Modelled from the spec: the directory names of pkg/etcdutil are not
    among the sources; the layout section names the directories
    [healthy] and [freetasks] under the job. *)
Definition HealthyDir : string := "healthy".
Definition FreeTasksDir : string := "freetasks".

(** Modelled from the spec: [TaskHealthyPath] of pkg/etcdutil, which
    healthy.go calls, is not among the sources; the layout section gives
    [/{job}/healthy/{id}] for the liveness key. *)
Definition TaskHealthyPath (name : string) (taskID : Z) : string :=
  path.Join ["/"; name; HealthyDir; strconv.FormatUint taskID].

(** Modelled from the spec: [FreeTaskDir] of pkg/etcdutil, which
    healthy.go calls, is not among the sources; the layout section gives
    [/{job}/freetasks/{id}] for the failure marker of task [id]. *)
Definition FreeTaskDir (name : string) : string :=
  path.Join ["/"; name; FreeTasksDir].

(** ** The etcd client *)

(** [etcd.Node]: a key, its value and, for a directory, its children. *)
#[warnings="-register-all"]
Inductive Node : Type :=
  | mkNode (key value : string) (nodes : list Node).

Definition Key (n : Node) : string := let 'mkNode k _ _ := n in k.
Definition Value (n : Node) : string := let 'mkNode _ v _ := n in v.
Definition Nodes (n : Node) : list Node := let 'mkNode _ _ ns := n in ns.

(** [etcd.Response]. *)
Record Response : Type := mkResponse {
  Action : string;
  RNode : Node;
  EtcdIndex : Z
}.

(** The error of a client call: an answer of the cluster with its error
    code, a call that the client refuses to send, or no answer. *)
Inductive EtcdError :=
  | EcodeKeyNotFound
  | EcodeTestFailed
  | EcodeNodeExist
  | ErrNoCondition
  | ErrUnreachable.

(** The calls of [*etcd.Client] that the framework makes, as transitions
    of the cluster [C] seen through the client.  [Watch] is the blocking
    form (nil receiver): it returns the next event at or after
    [waitIndex]. *)
Class EtcdClient (C : Type) := {
  Get : C -> string -> bool -> bool -> C * result EtcdError Response;
  Create : C -> string -> string -> Z -> C * result EtcdError Response;
  Set_ : C -> string -> string -> Z -> C * result EtcdError Response;
  CompareAndSwap :
    C -> string -> string -> Z -> string -> Z -> C * result EtcdError Response;
  Watch : C -> string -> Z -> bool -> C * result EtcdError Response
}.

(** *** A reference cluster

    One etcd (v2) store that always answers: a key holds a value and the
    index of its last change; every change takes the next index and is
    appended to the history that watchers read, which is kept whole;
    directories that were created empty are remembered in [dirs]. *)
Record store : Type := mkStore {
  kv : gmap string (string * Z);
  dirs : gset string;
  index : Z;
  history : list Response
}.

Definition emptyStore : store := mkStore ∅ ∅ 0 [].

Definition record (s : store) (action key value : string) : store * Response :=
  let i := index s + 1 in
  let ev := mkResponse action (mkNode key value []) i in
  (mkStore (<[key := (value, i)]> (kv s)) (dirs s) i (history s ++ [ev]), ev).

Definition storeSet (s : store) (key value : string) (ttl : Z)
  : store * result EtcdError Response :=
  let '(s', ev) := record s "set" key value in (s', Ok ev).

Definition storeCreate (s : store) (key value : string) (ttl : Z)
  : store * result EtcdError Response :=
  match kv s !! key with
  | Some _ => (s, Err EcodeNodeExist)
  | None => let '(s', ev) := record s "create" key value in (s', Ok ev)
  end.

(** The client refuses a swap without a condition; the swap happens
    when the key exists, holds [prevValue] (compared unless empty) and
    was last changed at [prevIndex] (compared unless 0). *)
Definition storeCompareAndSwap (s : store) (key value : string) (ttl : Z)
    (prevValue : string) (prevIndex : Z) : store * result EtcdError Response :=
  if String.eqb prevValue "" && (prevIndex =? 0) then (s, Err ErrNoCondition)
  else
    match kv s !! key with
    | None => (s, Err EcodeKeyNotFound)
    | Some (v, i) =>
        if (String.eqb prevValue "" || String.eqb v prevValue)
           && ((prevIndex =? 0) || (i =? prevIndex))
        then let '(s', ev) := record s "compareAndSwap" key value in (s', Ok ev)
        else (s, Err EcodeTestFailed)
    end.

(** The element below [dir] on the way to [key], when [key] lies under
    [dir]. *)
Fixpoint childOf (dirElems keyElems : list string) : option string :=
  match dirElems, keyElems with
  | [], e :: _ => Some e
  | d :: ds, e :: es => if String.eqb d e then childOf ds es else None
  | _, [] => None
  end.

Fixpoint insertSorted (k : string) (l : list string) : list string :=
  match l with
  | [] => [k]
  | h :: t =>
      if String.eqb k h then l
      else if String.ltb k h then k :: l
      else h :: insertSorted k t
  end.

(** The children of directory [dir], in key order, each with its value
    when it is a key and without its own children. *)
Definition children (s : store) (dir : string) : list Node :=
  let names :=
    foldr (fun kvp acc =>
             match childOf (path.split dir) (path.split (fst kvp)) with
             | Some c => insertSorted c acc
             | None => acc
             end) [] (map_to_list (kv s)) in
  (fun c =>
     let key := path.Join [dir; c] in
     mkNode key (default "" (fst <$> kv s !! key)) []) <$> names.

Definition storeGet (s : store) (key : string) (sort recursive : bool)
  : store * result EtcdError Response :=
  match kv s !! key with
  | Some (v, _) => (s, Ok (mkResponse "get" (mkNode key v []) (index s)))
  | None =>
      match children s key with
      | [] =>
          if bool_decide (key ∈ dirs s)
          then (s, Ok (mkResponse "get" (mkNode key "" []) (index s)))
          else (s, Err EcodeKeyNotFound)
      | ns => (s, Ok (mkResponse "get" (mkNode key "" ns) (index s)))
      end
  end.

(** Whether an event on [key] is seen by a watch on [prefix]. *)
Definition watches (prefix : string) (recursive : bool) (key : string) : bool :=
  String.eqb prefix key
  || (recursive && bool_decide (is_Some (childOf (path.split prefix) (path.split key)))).

(** The events a watch on [prefix] from [waitIndex] delivers, oldest
    first; in the history each event carries the index of its own
    change. *)
Definition watchStream (s : store) (prefix : string) (waitIndex : Z)
    (recursive : bool) : list Response :=
  filter (fun ev => (waitIndex <= EtcdIndex ev)
                    ∧ watches prefix recursive (Key (RNode ev)) = true)
         (history s).

(** A blocking watch that is registered on [s] answers with the first
    such event.  The answer carries as [EtcdIndex] the index of the
    cluster at which the watch was registered (the X-Etcd-Index header),
    not the index of the event.  Nothing changes [s] while the call
    waits, so the reference cluster reports a watch without such an
    event as an error. *)
Definition storeWatch (s : store) (prefix : string) (waitIndex : Z)
    (recursive : bool) : store * result EtcdError Response :=
  match watchStream s prefix waitIndex recursive with
  | ev :: _ => (s, Ok (mkResponse (Action ev) (RNode ev) (index s)))
  | [] => (s, Err ErrUnreachable)
  end.

#[export] Instance storeClient : EtcdClient store := {
  Get := storeGet;
  Create := storeCreate;
  Set_ := storeSet;
  CompareAndSwap := storeCompareAndSwap;
  Watch := storeWatch
}.

(** *** A cluster that others change

    The reference cluster as one client sees it while other clients
    write: [now] is the cluster when the client's last call returned,
    [coming] are the changes that the others make next, which happen
    while a watch of the client waits. *)
Record Change : Type := mkChange {
  changeAction : string;
  changeKey : string;
  changeValue : string
}.

(** One change of another client: a "delete" or an "expire" removes the
    key, any other action writes it. *)
Definition happen (s : store) (c : Change) : store :=
  if String.eqb (changeAction c) "delete"
     || String.eqb (changeAction c) "expire"
  then
    let i := index s + 1 in
    mkStore (delete (changeKey c) (kv s)) (dirs s) i
      (history s
       ++ [mkResponse (changeAction c) (mkNode (changeKey c) "" []) i])
  else (record s (changeAction c) (changeKey c) (changeValue c)).1.

Record world : Type := mkWorld {
  now : store;
  coming : list Change
}.

(** The wait of a watch: the first event for it in the history, or else
    in what is coming, with the cluster at that event. *)
Fixpoint awaitEvent (coming : list Change) (s : store) (prefix : string)
    (waitIndex : Z) (recursive : bool) : world * option Response :=
  match watchStream s prefix waitIndex recursive with
  | ev :: _ => (mkWorld s coming, Some ev)
  | [] =>
      match coming with
      | [] => (mkWorld s [], None)
      | c :: coming' =>
          awaitEvent coming' (happen s c) prefix waitIndex recursive
      end
  end.

(** The answer carries the index of [now], the cluster at which the
    watch is registered, whenever the event happens. *)
Definition worldWatch (w : world) (prefix : string) (waitIndex : Z)
    (recursive : bool) : world * result EtcdError Response :=
  let registered := index (now w) in
  match awaitEvent (coming w) (now w) prefix waitIndex recursive with
  | (w', Some ev) => (w', Ok (mkResponse (Action ev) (RNode ev) registered))
  | (w', None) => (w', Err ErrUnreachable)
  end.

(** The other calls are answered by the cluster as it is now. *)
Definition onNow {A} (w : world) (call : store -> store * A) : world * A :=
  let '(s', r) := call (now w) in (mkWorld s' (coming w), r).

#[export] Instance worldClient : EtcdClient world := {
  Get w key sort recursive :=
    onNow w (fun s => storeGet s key sort recursive);
  Create w key value ttl :=
    onNow w (fun s => storeCreate s key value ttl);
  Set_ w key value ttl :=
    onNow w (fun s => storeSet s key value ttl);
  CompareAndSwap w key value ttl prevValue prevIndex :=
    onNow w (fun s => storeCompareAndSwap s key value ttl prevValue prevIndex);
  Watch := worldWatch
}.

(** *** A client that remembers its calls

    Wrapping a cluster in [recorder] keeps, next to it, the list of the
    calls made and of their answers, in order; the answers are those of
    the wrapped cluster. *)
Inductive Call :=
  | CallGet (key : string) (sort recursive : bool)
      (r : result EtcdError Response)
  | CallCreate (key value : string) (ttl : Z) (r : result EtcdError Response)
  | CallSet (key value : string) (ttl : Z) (r : result EtcdError Response)
  | CallCompareAndSwap (key value : string) (ttl : Z) (prevValue : string)
      (prevIndex : Z) (r : result EtcdError Response)
  | CallWatch (prefix : string) (waitIndex : Z) (recursive : bool)
      (r : result EtcdError Response).

Record recorder (C : Type) : Type := mkRecorder {
  cluster : C;
  calls : list Call
}.
Arguments mkRecorder {C} cluster calls.
Arguments cluster {C} r.
Arguments calls {C} r.

Definition recording {C} (c : C) : recorder C := mkRecorder c [].

Definition noted {C A} (rc : recorder C) (call : A -> Call) (cr : C * A)
  : recorder C * A :=
  (mkRecorder cr.1 (calls rc ++ [call cr.2]), cr.2).

#[export] Instance recorderClient {C} `{EtcdClient C} : EtcdClient (recorder C) := {
  Get rc key sort recursive :=
    noted rc (CallGet key sort recursive) (Get (cluster rc) key sort recursive);
  Create rc key value ttl :=
    noted rc (CallCreate key value ttl) (Create (cluster rc) key value ttl);
  Set_ rc key value ttl :=
    noted rc (CallSet key value ttl) (Set_ (cluster rc) key value ttl);
  CompareAndSwap rc key value ttl prevValue prevIndex :=
    noted rc (CallCompareAndSwap key value ttl prevValue prevIndex)
      (CompareAndSwap (cluster rc) key value ttl prevValue prevIndex);
  Watch rc prefix waitIndex recursive :=
    noted rc (CallWatch prefix waitIndex recursive)
      (Watch (cluster rc) prefix waitIndex recursive)
}.

(** ** Channels *)

(** A buffered channel: its capacity and the values waiting in it,
    oldest first. *)
Record chan (A : Type) : Type := mkChan {
  capacity : nat;
  buffer : list A
}.
Arguments mkChan {A} capacity buffer.
Arguments capacity {A} c.
Arguments buffer {A} c.

Definition make {A} (capacity : nat) : chan A := mkChan capacity [].

(** [ch <- x]: [None] when the send has to wait for room. *)
Definition send {A} (ch : chan A) (x : A) : option (chan A) :=
  if decide (length (buffer ch) < capacity ch)%nat
  then Some (mkChan (capacity ch) (buffer ch ++ [x]))
  else None.

(** [<-ch]: [None] when the receive has to wait for a value. *)
Definition recv {A} (ch : chan A) : option (A * chan A) :=
  match buffer ch with
  | [] => None
  | x :: rest => Some (x, mkChan (capacity ch) rest)
  end.

(** ** The framework *)

Inductive taskRole := roleNone | roleParent | roleChild.

Definition dataRequestPrefix : string := "/datareq".
Definition dataRequestTaskID : string := "taskID".
Definition dataRequestReq : string := "req".

(** The user's topology, once [SetTaskID] has told it whose neighbours
    to return. *)
Record Topology : Type := mkTopology {
  GetParents : Z -> list Z;
  GetChildren : Z -> list Z
}.

(** The methods of the user's task that return data. *)
Record Task : Type := mkTask {
  ServeAsParent : Z -> string -> bytes;
  ServeAsChild : Z -> string -> bytes
}.

(** The methods of the user's task that return nothing, as events. *)
Inductive TaskCall :=
  | Init (taskID : Z)
  | SetEpoch (epoch : Z)
  | ParentMetaReady (parentID : Z) (meta : string)
  | ChildMetaReady (childID : Z) (meta : string)
  | ParentDataReady (parentID : Z) (req : string) (data : bytes)
  | ChildDataReady (childID : Z) (req : string) (data : bytes).

Record dataResponse : Type := mkDataResponse {
  dr_taskID : Z;
  dr_req : string;
  dr_data : bytes
}.

(** The fields of [framework] that the modelled functions read:
    [addr] stands for [f.ln.Addr().String()]. *)
Record framework : Type := mkFramework {
  name : string;
  addr : string;
  topology : Topology;
  task : Task;
  taskID : Z;
  epoch : Z
}.

(** What a function that may call [log.Fatal] ends with. *)
Inductive outcome (A : Type) : Type :=
  | Done (a : A)
  | Fatal (msg : string).
Arguments Done {A} a.
Arguments Fatal {A} msg.

Definition parentOrChild (f : framework) (taskID : Z) : taskRole :=
  if existsb (fun id => taskID =? id) (GetParents (topology f) (epoch f))
  then roleParent
  else if existsb (fun id => taskID =? id) (GetChildren (topology f) (epoch f))
  then roleChild
  else roleNone.

(** *** The data request handler *)

Record Request : Type := mkRequest {
  URLPath : string;
  URLQuery : list (string * string)
}.

(** [url.Values.Get]: the first value of the key, or the empty string. *)
Fixpoint queryGet (q : list (string * string)) (key : string) : string :=
  match q with
  | [] => ""
  | (k, v) :: q' => if String.eqb k key then v else queryGet q' key
  end.

Record HTTPResponse : Type := mkHTTPResponse {
  StatusCode : Z;
  Body : bytes
}.

Definition StatusOK : Z := 200.
Definition StatusBadRequest : Z := 400.

(** [http.Error]: the status code and the message on a line. *)
Definition httpError (error : string) (code : Z) : HTTPResponse :=
  mkHTTPResponse code (list_ascii_of_string (error +:+ String "010" "")).

(** A first [w.Write(b)] answers with status 200. *)
Definition httpWrite (b : bytes) : HTTPResponse := mkHTTPResponse StatusOK b.

Definition ServeHTTP (f : framework) (r : Request) : HTTPResponse :=
  if negb (String.eqb (URLPath r) dataRequestPrefix) then
    httpError "bad path" StatusBadRequest
  else
    let q := URLQuery r in
    let fromIDStr := queryGet q dataRequestTaskID in
    match strconv.ParseUint fromIDStr 0 64 with
    | Err _ => httpError "taskID couldn't be parsed" StatusBadRequest
    | Ok fromID =>
        let req := queryGet q dataRequestReq in
        match parentOrChild f fromID with
        | roleParent => httpWrite (ServeAsChild (task f) fromID req)
        | roleChild => httpWrite (ServeAsParent (task f) fromID req)
        | roleNone =>
            httpError "taskID isn't a parent or child of this task"
              StatusBadRequest
        end
    end.

(** *** Occupying a task *)

Inductive occupyError :=
  | GetFailed (e : EtcdError)
  | NoUnassignedTask.

Definition warnCorrupted : string :=
  "WARN: taskID isn't integer, registration on etcd has been corrupted!".

(** The loop of [occupyTask] over [slots.Node.Nodes]; the second
    component is what the loop has logged. *)
Fixpoint occupyLoop {C} `{EtcdClient C} (f : framework) (slots : list Node)
    (c : C) : C * list string * result occupyError Z :=
  match slots with
  | [] => (c, [], Err NoUnassignedTask)
  | s :: slots' =>
      let idstr := path.Base (Key s) in
      match strconv.ParseUint idstr 0 64 with
      | Err _ =>
          let '(c', log, r) := occupyLoop f slots' c in
          (c', warnCorrupted :: log, r)
      | Ok id =>
          let '(c', r) :=
            CompareAndSwap c (TaskMasterPath (name f) id) (addr f) 0 "empty" 0 in
          match r with
          | Ok _ => (c', [], Ok id)
          | Err _ => occupyLoop f slots' c'
          end
      end
  end.

Definition occupyTask {C} `{EtcdClient C} (f : framework) (c : C)
  : C * list string * result occupyError Z :=
  let '(c', r) := Get c (TaskDirPath (name f)) true true in
  match r with
  | Err e => (c', [], Err (GetFailed e))
  | Ok slots => occupyLoop f (Nodes (RNode slots)) c'
  end.

(** *** Meta flags and the epoch *)

Definition FlagMetaToParent {C} `{EtcdClient C} (f : framework) (meta : string)
    (c : C) : C :=
  (Set_ c (ParentMetaPath (name f) (taskID f)) meta 0).1.

Definition FlagMetaToChild {C} `{EtcdClient C} (f : framework) (meta : string)
    (c : C) : C :=
  (Set_ c (ChildMetaPath (name f) (taskID f)) meta 0).1.

Definition IncEpoch {C} `{EtcdClient C} (f : framework) (c : C)
  : C * outcome unit :=
  let '(c', r) :=
    CompareAndSwap c (JobEpochPath (name f))
      (strconv.FormatUint (wrap64 (epoch f + 1)))
      0 (strconv.FormatUint (epoch f)) 0 in
  match r with
  | Err _ => (c', Fatal "Epoch CompareAndSwap failed")
  | Ok _ => (c', Done tt)
  end.

Definition ShutdownJob {C} `{EtcdClient C} (f : framework) (c : C) : C :=
  (Set_ c (JobEpochPath (name f)) (strconv.FormatUint maxUint64) 0).1.

(** *** Watching the epoch *)

(** What [watchEpoch] creates: the receiver of the etcd watch, the epoch
    channel read by the main loop, the stop channel, and the watch
    itself (its path and index). *)
Record epochWatch : Type := mkEpochWatch {
  ew_receiver : chan Response;
  epochChan : chan Z;
  epochStop : chan bool;
  ew_watchPath : string;
  ew_waitIndex : Z
}.

Definition watchEpoch (f : framework) : epochWatch :=
  mkEpochWatch (make 1) (make 1) (make 1) (JobEpochPath (name f)) 1.

(** The body of the loop over the receiver for one response, up to the
    send: [Done None] is [continue], [Done (Some e)] goes on to
    [f.epochChan <- e]. *)
Definition epochEvent (resp : Response) : outcome (option Z) :=
  if negb (String.eqb (Action resp) "compareAndSwap")
     && negb (String.eqb (Action resp) "set")
  then Done None
  else match strconv.ParseUint (Value (RNode resp)) 10 64 with
       | Err _ => Fatal "Can't parse epoch from etcd"
       | Ok epoch => Done (Some epoch)
       end.

(** The goroutine of [watchEpoch] over the responses [resps] that its
    receiver hands it, sending into [ch]: it ends with the channel, the
    responses not yet handled when a send has to wait, or a fatal
    exit. *)
Fixpoint epochWatcher (resps : list Response) (ch : chan Z)
  : outcome (chan Z * list Response) :=
  match resps with
  | [] => Done (ch, [])
  | resp :: resps' =>
      match epochEvent resp with
      | Fatal msg => Fatal msg
      | Done None => epochWatcher resps' ch
      | Done (Some epoch) =>
          match send ch epoch with
          | None => Done (ch, resps)
          | Some ch' => epochWatcher resps' ch'
          end
      end
  end.

(** *** Watching the neighbours *)

(** One iteration of [watchAll]: the receiver and stop channels, the
    watched path, and the callback chosen by [who]. *)
Record watcher : Type := mkWatcher {
  w_taskID : Z;
  w_receiver : chan Response;
  w_stop : chan bool;
  w_watchPath : string;
  w_waitIndex : Z;
  w_taskCallback : Z -> string -> TaskCall
}.

Definition watchOne (f : framework) (who : taskRole) (taskID : Z)
  : outcome watcher :=
  match who with
  | roleParent =>
      (* Watch parent's child. *)
      Done (mkWatcher taskID (make 10) (make 1)
              (ChildMetaPath (name f) taskID) 1 ParentMetaReady)
  | roleChild =>
      (* Watch child's parent. *)
      Done (mkWatcher taskID (make 10) (make 1)
              (ParentMetaPath (name f) taskID) 1 ChildMetaReady)
  | roleNone => Fatal "unimplemented"
  end.

Fixpoint watchAll (f : framework) (who : taskRole) (taskIDs : list Z)
  : outcome (list watcher) :=
  match taskIDs with
  | [] => Done []
  | taskID :: taskIDs' =>
      match watchOne f who taskID with
      | Fatal msg => Fatal msg
      | Done w =>
          match watchAll f who taskIDs' with
          | Fatal msg => Fatal msg
          | Done ws => Done (w :: ws)
          end
      end
  end.

(** The body of a watcher's loop for one response: the callback it
    makes, if any. *)
Definition watcherEvent (w : watcher) (resp : Response) : option TaskCall :=
  if negb (String.eqb (Action resp) "set") then None
  else Some (w_taskCallback w (w_taskID w) (Value (RNode resp))).

(** The callbacks a watcher makes over the events that the reference
    cluster delivers to its watch, in order. *)
Definition watcherCalls (w : watcher) (s : store) : list TaskCall :=
  omap (watcherEvent w) (watchStream s (w_watchPath w) (w_waitIndex w) false).

(** *** Data responses *)

(** The body of [dataResponseReceiver] for one response: the call that
    the goroutine it starts makes. *)
Definition dataResponseReceive (f : framework) (dataResp : dataResponse)
  : outcome TaskCall :=
  match parentOrChild f (dr_taskID dataResp) with
  | roleParent =>
      Done (ParentDataReady (dr_taskID dataResp) (dr_req dataResp)
              (dr_data dataResp))
  | roleChild =>
      Done (ChildDataReady (dr_taskID dataResp) (dr_req dataResp)
              (dr_data dataResp))
  | roleNone => Fatal "unimplemented"
  end.

(** *** Start *)

(** What [NewBootStrap], [SetTaskBuilder] and [SetTopology] have set when
    [Start] is called: [taskBuilder] is [GetTask], [topologyOf id] the
    topology after [SetTaskID(id)], [ln] the listener's address. *)
Record Bootstrap : Type := mkBootstrap {
  jobName : string;
  ln : string;
  taskBuilder : Z -> Task;
  topologyOf : Z -> Topology
}.

Definition fetchEpoch {C} `{EtcdClient C} (jobName : string) (c : C)
  : C * outcome (result strconv.NumError Z) :=
  let '(c', r) := Get c (JobEpochPath jobName) false false in
  match r with
  | Err _ => (c', Fatal "Can not get epoch from etcd")
  | Ok resp => (c', Done (strconv.ParseUint (Value (RNode resp)) 10 64))
  end.

(** What one [select] of the main loop receives. *)
Inductive selected :=
  | fromEpochChan (epoch : Z)
  | fromEpochStop.

(** How the main loop stands when the receptions [sel] are used up:
    it left the loop on the last epoch and called [f.stop()], it
    returned on the stop channel, or it waits in [select]. *)
Inductive loopEnd :=
  | loopExit
  | loopStopped
  | loopSelect.

(** The main loop of [Start] from epoch [epoch]: the calls into the
    task, the last epoch, and how the loop stands. *)
Fixpoint mainLoop (epoch : Z) (sel : list selected)
  : list TaskCall * Z * loopEnd :=
  if epoch =? maxUint64 then ([], epoch, loopExit)
  else
    match sel with
    | [] => ([SetEpoch epoch], epoch, loopSelect)
    | fromEpochChan epoch' :: sel' =>
        let '(tr, e, l) := mainLoop epoch' sel' in
        (SetEpoch epoch :: tr, e, l)
    | fromEpochStop :: _ => ([SetEpoch epoch], epoch, loopStopped)
    end.

(** The node once [Start] has set it up. *)
Record node : Type := mkNode_ {
  fw : framework;
  stops : list watcher;
  epochW : epochWatch;
  dataRespChan : chan dataResponse
}.

(** The part of [Start] between the creation of the meta flags and
    [task.Init]: the watches on the neighbours of the current epoch, the
    watch on the epoch, the channel of the data responses. *)
Definition startWatches (f : framework) : outcome node :=
  match watchAll f roleParent (GetParents (topology f) (epoch f)),
        watchAll f roleChild (GetChildren (topology f) (epoch f)) with
  | Done ps, Done cs => Done (mkNode_ f (ps ++ cs) (watchEpoch f) (make 100))
  | Fatal msg, _ => Fatal msg
  | _, Fatal msg => Fatal msg
  end.

Definition setEpoch (f : framework) (epoch : Z) : framework :=
  mkFramework (name f) (addr f) (topology f) (task f) (taskID f) epoch.

(** [Start]: the cluster, the calls that [Start] itself makes into the
    task, and the node with the state of its main loop, or a fatal exit.
    [occupyTask] runs before the task and its ID are known and reads
    none of them. *)
Definition Start {C} `{EtcdClient C} (b : Bootstrap) (sel : list selected)
    (c : C) : C * list TaskCall * outcome (node * loopEnd) :=
  (* First, we fetch the current global epoch from etcd. *)
  let '(c1, r) := fetchEpoch (jobName b) c in
  match r with
  | Fatal msg => (c1, [], Fatal msg)
  | Done (Err _) => (c1, [], Fatal "Can not parse epoch from etcd")
  | Done (Ok epoch0) =>
      let f0 := mkFramework (jobName b) (ln b) (topologyOf b 0)
                  (taskBuilder b 0) 0 epoch0 in
      let '(c2, _, r) := occupyTask f0 c1 in
      match r with
      | Err _ => (c2, [], Fatal "occupyTask failed")
      | Ok taskID =>
          let f := mkFramework (jobName b) (ln b) (topologyOf b taskID)
                     (taskBuilder b taskID) taskID epoch0 in
          let c3 := (Create c2 (ParentMetaPath (name f) taskID) "" 0).1 in
          let c4 := (Create c3 (ChildMetaPath (name f) taskID) "" 0).1 in
          match startWatches f with
          | Fatal msg => (c4, [], Fatal msg)
          | Done n =>
              (* After framework init finished, it should init task. *)
              let '(tr, e, l) := mainLoop (epoch f) sel in
              (c4, Init taskID :: tr,
               Done (mkNode_ (setEpoch f e) (stops n) (epochW n)
                       (dataRespChan n), l))
          end
      end
  end.

(** ** pkg/etcdutil: heartbeat and free tasks *)

Module etcdutil.

(** [time.Second], in nanoseconds. *)
Definition Second : Z := 1000000000.

Definition computeTTL (interval : Z) : Z :=
  if interval ÷ Second <? 1 then 3
  else wrap64 (3 * wrap64 (interval ÷ Second)).

(** What the [select] of one round of [Heartbeat] receives. *)
Inductive beat :=
  | afterInterval
  | fromStop.

(** How [Heartbeat] stands when the receptions are used up: it
    returned [err] (nil is [None]), or it waits in [select]. *)
Inductive heartbeatEnd :=
  | returned (err : option EtcdError)
  | sleeping.

Fixpoint Heartbeat {C} `{EtcdClient C} (name : string) (taskID : Z)
    (interval : Z) (sel : list beat) (c : C) : C * heartbeatEnd :=
  let '(c', r) :=
    Set_ c (TaskHealthyPath name taskID) "health" (computeTTL interval) in
  match r with
  | Err e => (c', returned (Some e))
  | Ok _ =>
      match sel with
      | [] => (c', sleeping)
      | afterInterval :: sel' => Heartbeat name taskID interval sel' c'
      | fromStop :: _ => (c', returned None)
      end
  end.

Inductive waitError :=
  | waitGet (e : EtcdError)
  | waitParse (e : strconv.NumError)
  | waitIndexOutOfRange
  | waitTimeout (after : Z).

(** The goroutine of [WaitFreeTask] that watches the directory, for
    the [rounds] answers that its watches get before the timer of the
    [select] fires: the response it sends, if any. *)
Fixpoint waitSet {C} `{EtcdClient C} (name : string) (watchIndex : Z)
    (rounds : nat) (c : C) : C * option Response :=
  match rounds with
  | O => (c, None)
  | S rounds' =>
      let '(c', r) := Watch c (FreeTaskDir name) watchIndex true in
      match r with
      | Err _ => (c', None)
      | Ok resp =>
          if String.eqb (Action resp) "set" then (c', Some resp)
          else waitSet name (wrap64 (EtcdIndex resp + 1)) rounds' c'
      end
  end.

(** [WaitFreeTask]; [Intn] is [rand.Intn]. *)
Definition WaitFreeTask {C} `{EtcdClient C} (name : string)
    (Intn : Z -> Z) (rounds : nat) (c : C) : C * result waitError Z :=
  let '(c1, r) := Get c (FreeTaskDir name) false true in
  match r with
  | Err e => (c1, Err (waitGet e))
  | Ok slots =>
      let total := Z.of_nat (length (Nodes (RNode slots))) in
      if 0 <? total then
        let ri := Intn total in
        match Nodes (RNode slots) !! Z.to_nat ri with
        | None => (c1, Err waitIndexOutOfRange)
        | Some s =>
            let idStr := path.Base (Key s) in
            match strconv.ParseUint idStr 0 64 with
            | Err e => (c1, Err (waitParse e))
            | Ok id => (c1, Ok id)
            end
        end
      else
        let watchIndex := wrap64 (EtcdIndex slots + 1) in
        match waitSet name watchIndex rounds c1 with
        | (c2, None) => (c2, Err (waitTimeout (10 * Second)))
        | (c2, Some resp) =>
            let idStr := path.Base (Key (RNode resp)) in
            match strconv.ParseUint idStr 10 64 with
            | Err e => (c2, Err (waitParse e))
            | Ok id => (c2, Ok id)
            end
        end
  end.

End etcdutil.

(** ** The goroutines of a node

    The node as the goroutines that [Start] leaves running, stepping in
    any order: the main loop, the goroutine of [watchEpoch], one
    goroutine per watcher of [watchAll], [dataResponseReceiver], and the
    goroutines that it starts with [go f.task.ParentDataReady(...)] and
    [go f.task.ChildDataReady(...)].  A call into the task begins in one
    step of its goroutine and returns in a later one. *)

Inductive goroutine :=
  | gMain
  | gEpochWatcher
  | gWatcher (i : nat)
  | gDispatcher
  | gData (k : nat).

#[export] Instance goroutine_eq_dec : EqDecision goroutine.
Proof. solve_decision. Defined.

Inductive event :=
  | Begin (g : goroutine) (call : TaskCall)
  | End (g : goroutine) (call : TaskCall).

(** Where the main goroutine stands between its calls. *)
Inductive mainPC := atInit | atLoop | atSelect | atEnd.

(** A goroutine started by the dispatcher: not yet in its call, in it,
    or back from it. *)
Inductive phase := ready | calling | over.

Record system : Type := mkSystem {
  sys_node : node;
  mainAt : mainPC;
  active : list (goroutine * TaskCall);
  spawned : list (TaskCall * phase);
  alive : bool
}.

(** The system when [Start] reaches [task.Init]. *)
Definition boot (n : node) : system := mkSystem n atInit [] [] true.

Fixpoint activeCall (g : goroutine) (act : list (goroutine * TaskCall))
  : option TaskCall :=
  match act with
  | [] => None
  | (g', call) :: act' =>
      if decide (g = g') then Some call else activeCall g act'
  end.

Fixpoint retire (g : goroutine) (act : list (goroutine * TaskCall))
  : list (goroutine * TaskCall) :=
  match act with
  | [] => []
  | (g', call) :: act' =>
      if decide (g = g') then act' else (g', call) :: retire g act'
  end.

(** [g] enters [call]. *)
Definition enter (g : goroutine) (call : TaskCall) (n : node) (pc : mainPC)
    (sp : list (TaskCall * phase)) (st : system) : system * list event :=
  (mkSystem n pc (active st ++ [(g, call)]) sp true, [Begin g call]).

(** [g] comes back from the call it is in. *)
Definition leave (g : goroutine) (call : TaskCall)
    (sp : list (TaskCall * phase)) (st : system) : system * list event :=
  (mkSystem (sys_node st) (mainAt st) (retire g (active st)) sp true,
   [End g call]).

Definition withEpochChan (n : node) (e : Z) (ch : chan Z) : node :=
  let ew := epochW n in
  mkNode_ (setEpoch (fw n) e) (stops n)
    (mkEpochWatch (ew_receiver ew) ch (epochStop ew) (ew_watchPath ew)
       (ew_waitIndex ew))
    (dataRespChan n).

Definition withEpochReceiver (n : node) (rc : chan Response) (ch : chan Z)
  : node :=
  let ew := epochW n in
  mkNode_ (fw n) (stops n)
    (mkEpochWatch rc ch (epochStop ew) (ew_watchPath ew) (ew_waitIndex ew))
    (dataRespChan n).

Definition withReceiver (n : node) (i : nat) (w : watcher)
    (rc : chan Response) : node :=
  mkNode_ (fw n)
    (<[i := mkWatcher (w_taskID w) rc (w_stop w) (w_watchPath w)
              (w_waitIndex w) (w_taskCallback w)]> (stops n))
    (epochW n) (dataRespChan n).

Definition withDataRespChan (n : node) (ch : chan dataResponse) : node :=
  mkNode_ (fw n) (stops n) (epochW n) ch.

(** The next step of the main goroutine: [task.Init], then the loop of
    [Start]. *)
Definition stepMain (st : system) : option (system * list event) :=
  let n := sys_node st in
  match activeCall gMain (active st) with
  | Some call => Some (leave gMain call (spawned st) st)
  | None =>
      match mainAt st with
      | atInit =>
          Some (enter gMain (Init (taskID (fw n))) n atLoop (spawned st) st)
      | atLoop =>
          if epoch (fw n) =? maxUint64
          then Some (mkSystem n atEnd (active st) (spawned st) true, [])
          else Some (enter gMain (SetEpoch (epoch (fw n))) n atSelect
                       (spawned st) st)
      | atSelect =>
          match recv (epochChan (epochW n)) with
          | Some (e, ch) =>
              Some (mkSystem (withEpochChan n e ch) atLoop (active st)
                      (spawned st) true, [])
          | None =>
              match recv (epochStop (epochW n)) with
              | Some _ =>
                  Some (mkSystem n atEnd (active st) (spawned st) true, [])
              | None => None
              end
          end
      | atEnd => None
      end
  end.

(** The next step of the goroutine of [watchEpoch]: one response from
    its receiver, sent on to the epoch channel when there is room. *)
Definition stepEpochWatcher (st : system) : option (system * list event) :=
  let n := sys_node st in
  match recv (ew_receiver (epochW n)) with
  | None => None
  | Some (resp, rc) =>
      match epochEvent resp with
      | Fatal _ =>
          Some (mkSystem n (mainAt st) (active st) (spawned st) false, [])
      | Done None =>
          Some (mkSystem (withEpochReceiver n rc (epochChan (epochW n)))
                  (mainAt st) (active st) (spawned st) true, [])
      | Done (Some e) =>
          match send (epochChan (epochW n)) e with
          | None => None
          | Some ch =>
              Some (mkSystem (withEpochReceiver n rc ch) (mainAt st)
                      (active st) (spawned st) true, [])
          end
      end
  end.

(** The next step of the goroutine of watcher [i]. *)
Definition stepWatcher (i : nat) (st : system) : option (system * list event) :=
  let n := sys_node st in
  match activeCall (gWatcher i) (active st) with
  | Some call => Some (leave (gWatcher i) call (spawned st) st)
  | None =>
      match stops n !! i with
      | None => None
      | Some w =>
          match recv (w_receiver w) with
          | None => None
          | Some (resp, rc) =>
              match watcherEvent w resp with
              | None =>
                  Some (mkSystem (withReceiver n i w rc) (mainAt st)
                          (active st) (spawned st) true, [])
              | Some call =>
                  Some (enter (gWatcher i) call (withReceiver n i w rc)
                          (mainAt st) (spawned st) st)
              end
          end
      end
  end.

(** The next step of [dataResponseReceiver]: one response from the
    channel, and a new goroutine for its callback. *)
Definition stepDispatcher (st : system) : option (system * list event) :=
  let n := sys_node st in
  match recv (dataRespChan n) with
  | None => None
  | Some (dataResp, ch) =>
      match dataResponseReceive (fw n) dataResp with
      | Fatal _ =>
          Some (mkSystem n (mainAt st) (active st) (spawned st) false, [])
      | Done call =>
          Some (mkSystem (withDataRespChan n ch) (mainAt st) (active st)
                  (spawned st ++ [(call, ready)]) true, [])
      end
  end.

(** The next step of the [k]-th goroutine started by the dispatcher. *)
Definition stepData (k : nat) (st : system) : option (system * list event) :=
  match spawned st !! k with
  | Some (call, ready) =>
      Some (enter (gData k) call (sys_node st) (mainAt st)
              (<[k := (call, calling)]> (spawned st)) st)
  | Some (call, calling) =>
      Some (leave (gData k) call (<[k := (call, over)]> (spawned st)) st)
  | _ => None
  end.

(** What can happen next: a goroutine of the node takes a step, etcd
    hands a response to a watch, or the goroutine of a [DataRequest]
    sends its response. *)
Inductive action :=
  | run (g : goroutine)
  | deliver (i : nat) (resp : Response)
  | deliverEpoch (resp : Response)
  | respond (dataResp : dataResponse).

(** One step; [None] when the action has to wait or the node is gone. *)
Definition step (st : system) (a : action) : option (system * list event) :=
  if negb (alive st) then None
  else
    let n := sys_node st in
    match a with
    | run gMain => stepMain st
    | run gEpochWatcher => stepEpochWatcher st
    | run (gWatcher i) => stepWatcher i st
    | run gDispatcher => stepDispatcher st
    | run (gData k) => stepData k st
    | deliver i resp =>
        w ← stops n !! i;
        rc ← send (w_receiver w) resp;
        Some (mkSystem (withReceiver n i w rc) (mainAt st) (active st)
                (spawned st) true, [])
    | deliverEpoch resp =>
        rc ← send (ew_receiver (epochW n)) resp;
        Some (mkSystem (withEpochReceiver n rc (epochChan (epochW n)))
                (mainAt st) (active st) (spawned st) true, [])
    | respond dataResp =>
        ch ← send (dataRespChan n) dataResp;
        Some (mkSystem (withDataRespChan n ch) (mainAt st) (active st)
                (spawned st) true, [])
    end.

(** A run: the actions taken in order, and the events they produce. *)
Fixpoint exec (st : system) (acts : list action)
  : option (system * list event) :=
  match acts with
  | [] => Some (st, [])
  | a :: acts' =>
      '(st', tr) ← step st a;
      '(st'', tr') ← exec st' acts';
      Some (st'', tr ++ tr')
  end.

(** ** The older snapshot

    framework.go holds an earlier state of the same functions.  Its main
    loop calls [SetEpoch] after each reception from the epoch channel
    instead of on top of the loop, and its epoch watcher accepts the
    action "set" only. *)
Module Earlier.

Fixpoint mainLoop (epoch : Z) (sel : list selected)
  : list TaskCall * Z * loopEnd :=
  if epoch =? maxUint64 then ([], epoch, loopExit)
  else
    match sel with
    | [] => ([], epoch, loopSelect)
    | fromEpochChan newEpoch :: sel' =>
        let '(tr, e, l) := mainLoop newEpoch sel' in
        (SetEpoch newEpoch :: tr, e, l)
    | fromEpochStop :: _ => ([], epoch, loopStopped)
    end.

Definition epochEvent (resp : Response) : outcome (option Z) :=
  if negb (String.eqb (Action resp) "set") then Done None
  else match strconv.ParseUint (Value (RNode resp)) 10 64 with
       | Err _ => Fatal "Can't parse epoch from etcd"
       | Ok epoch => Done (Some epoch)
       end.

End Earlier.

(** ** The statements of the specification *)

(** The routing of a data request as the specification words it, for a
    reading [parse] of the caller's ID: 400 "bad path" off [/datareq],
    400 when the ID is not read, the task's [ServeAsChild] for a parent,
    its [ServeAsParent] for a child, 400 for anyone else. *)
Inductive routes (parse : string -> result strconv.NumError Z)
    (f : framework) (r : Request) : HTTPResponse -> Prop :=
  | routes_bad_path :
      URLPath r <> "/datareq" ->
      routes parse f r (httpError "bad path" 400)
  | routes_bad_taskID e resp :
      URLPath r = "/datareq" ->
      parse (queryGet (URLQuery r) "taskID") = Err e ->
      StatusCode resp = 400 ->
      routes parse f r resp
  | routes_parent callerID :
      URLPath r = "/datareq" ->
      parse (queryGet (URLQuery r) "taskID") = Ok callerID ->
      In callerID (GetParents (topology f) (epoch f)) ->
      routes parse f r
        (mkHTTPResponse 200
           (ServeAsChild (task f) callerID (queryGet (URLQuery r) "req")))
  | routes_child callerID :
      URLPath r = "/datareq" ->
      parse (queryGet (URLQuery r) "taskID") = Ok callerID ->
      ~ In callerID (GetParents (topology f) (epoch f)) ->
      In callerID (GetChildren (topology f) (epoch f)) ->
      routes parse f r
        (mkHTTPResponse 200
           (ServeAsParent (task f) callerID (queryGet (URLQuery r) "req")))
  | routes_stranger callerID :
      URLPath r = "/datareq" ->
      parse (queryGet (URLQuery r) "taskID") = Ok callerID ->
      ~ In callerID (GetParents (topology f) (epoch f)) ->
      ~ In callerID (GetChildren (topology f) (epoch f)) ->
      routes parse f r
        (httpError "taskID isn't a parent or child of this task" 400).

(** A decimal [uint64], and what the handler reads. *)
Definition decimal (s : string) : result strconv.NumError Z :=
  strconv.ParseUint s 10 64.

Definition prefixed (s : string) : result strconv.NumError Z :=
  strconv.ParseUint s 0 64.

(** The task ID that [occupyTask] reads from an entry of the task
    directory, and the IDs of a listing in its order. *)
Definition slotID (s : Node) : option Z :=
  match strconv.ParseUint (path.Base (Key s)) 0 64 with
  | Ok id => Some id
  | Err _ => None
  end.

Definition slotIDs (slots : list Node) : list Z := omap slotID slots.

(** The attempt of node [f] to take slot [attempt.1], answered by
    [attempt.2]: the compare-and-swap of the slot key from "empty" to
    the node's address. *)
Definition claim (f : framework) (attempt : Z * result EtcdError Response)
  : Call :=
  CallCompareAndSwap (TaskMasterPath (name f) attempt.1) (addr f) 0 "empty" 0
    attempt.2.

Definition failed (attempt : Z * result EtcdError Response) : Prop :=
  is_ok attempt.2 = false.

(** The epochs that the main loop receives before it reads the stop
    channel. *)
Fixpoint received (sel : list selected) : list Z :=
  match sel with
  | fromEpochChan epoch :: sel' => epoch :: received sel'
  | _ => []
  end.

(** The epochs that a node enters: those it learns of, up to the
    shutdown epoch, which is entered no more. *)
Fixpoint untilShutdown (epochs : list Z) : list Z :=
  match epochs with
  | [] => []
  | epoch :: epochs' =>
      if epoch =? maxUint64 then [] else epoch :: untilShutdown epochs'
  end.


(** The epoch that the watcher publishes for a response, if any. *)
Definition published (resp : Response) : option Z :=
  match epochEvent resp with
  | Done (Some epoch) => Some epoch
  | _ => None
  end.

(** The goroutine that makes each call into the task: the main
    goroutine for [Init] and [SetEpoch], the goroutine of a watcher for
    the meta callbacks, a goroutine started by the dispatcher for the
    data callbacks. *)
Definition caller (call : TaskCall) (g : goroutine) : Prop :=
  match g, call with
  | gMain, (Init _ | SetEpoch _) => True
  | gWatcher _, (ParentMetaReady _ _ | ChildMetaReady _ _) => True
  | gData _, (ParentDataReady _ _ _ | ChildDataReady _ _ _) => True
  | _, _ => False
  end.

(** What holds of the system in every state that a run reaches. *)
Record invariant (st : system) : Prop := mkInvariant {
  inv_watchers :
    Forall (fun w => w_taskCallback w = ParentMetaReady
                     \/ w_taskCallback w = ChildMetaReady)
           (stops (sys_node st));
  inv_serial : NoDup (active st).*1;
  inv_caller : forall g call, In (g, call) (active st) -> caller call g;
  inv_calling :
    forall k, gData k ∈ (active st).*1 ->
              exists call, spawned st !! k = Some (call, calling);
  inv_spawned :
    forall k call ph, spawned st !! k = Some (call, ph) -> caller call (gData k)
}.

(** ** Examples *)

(** A task that serves "param" to its children and "gradient" to its
    parents. *)
Definition exampleTask : Task :=
  mkTask (fun _ _ => list_ascii_of_string "param")
         (fun _ _ => list_ascii_of_string "gradient").

(** The node of the examples: it runs task 1 of a binary tree, whose
    parent is task 0 and whose children are tasks 3 and 4, in every
    epoch. *)
Definition exampleFramework : framework :=
  mkFramework "job" "127.0.0.1:7001"
    (mkTopology (fun _ => [0]) (fun _ => [3; 4])) exampleTask 1 0.

(** The cluster of the examples, as the controller leaves it for three
    tasks: the slots are empty, the free-task directory exists, the
    epoch is 0. *)
Definition exampleStore : store :=
  let s := mkStore ∅ {["/job/freetasks"]} 0 [] in
  let s := (storeSet s "/job/tasks/0/0" "empty" 0).1 in
  let s := (storeSet s "/job/tasks/1/0" "empty" 0).1 in
  let s := (storeSet s "/job/tasks/2/0" "empty" 0).1 in
  (storeSet s "/job/epoch" "0" 0).1.

(** What the driver of the examples hands to [Start]: a binary tree. *)
Definition exampleBootstrap : Bootstrap :=
  mkBootstrap "job" "127.0.0.1:7001" (fun _ => exampleTask)
    (fun id => mkTopology (fun _ => if id =? 0 then [] else [(id - 1) / 2])
                          (fun _ => [2 * id + 1; 2 * id + 2])).

(** The task at the root of the tree, on another node of the job. *)
Definition exampleParent : framework :=
  mkFramework "job" "127.0.0.1:7000"
    (mkTopology (fun _ => []) (fun _ => [1; 2])) exampleTask 0 0.

(** The node of the examples with its watches started. *)
Definition exampleNode : node :=
  mkNode_ exampleFramework
    [mkWatcher 0 (make 10) (make 1) "/job/tasks/0/ChildMeta" 1 ParentMetaReady;
     mkWatcher 3 (make 10) (make 1) "/job/tasks/3/ParentMeta" 1 ChildMetaReady;
     mkWatcher 4 (make 10) (make 1) "/job/tasks/4/ParentMeta" 1 ChildMetaReady]
    (watchEpoch exampleFramework) (make 100).

(** A run of that node: etcd hands it the flag of its parent, the
    response to a data request arrives, the main goroutine goes through
    [Init] into [SetEpoch], the watcher of the parent and the dispatcher
    take their messages, and the goroutine started by the dispatcher
    begins. *)
Definition exampleRun : list action :=
  [deliver 0
     (mkResponse "set" (mkNode "/job/tasks/0/ChildMeta" "ParamReady" []) 5);
   respond (mkDataResponse 0 "ParamReady" (list_ascii_of_string "param"));
   run gMain; run gMain; run gMain;
   run (gWatcher 0); run gDispatcher; run (gData 0)].

(** ** More of the framework and of pkg/etcdutil *)

(** *** Data requests *)

(** [getAddress]: the address of the node that holds task [id], read
    from its slot key. *)
Definition getAddress {C} `{EtcdClient C} (f : framework) (id : Z) (c : C)
  : C * result EtcdError string :=
  let '(c', r) := Get c (TaskMasterPath (name f) id) false false in
  match r with
  | Err e => (c', Err e)
  | Ok resp => (c', Ok (Value (RNode resp)))
  end.

(** [url.URL], with the query as the values that [Encode] writes and
    that [Query] reads back on the other side. *)
Record URL : Type := mkURL {
  Scheme : string;
  Host : string;
  Path : string;
  RawQuery : list (string * string)
}.

(** [url.Values.Add]. *)
Definition queryAdd (q : list (string * string)) (key value : string)
  : list (string * string) :=
  q ++ [(key, value)].

Fixpoint insertByKey (kv : string * string) (q : list (string * string))
  : list (string * string) :=
  match q with
  | [] => [kv]
  | h :: t =>
      if String.ltb (fst h) (fst kv) then h :: insertByKey kv t else kv :: q
  end.

(** [url.Values.Encode]: the values sorted by key. *)
Definition Encode (q : list (string * string)) : list (string * string) :=
  foldr insertByKey [] q.

(** The URL that [DataRequest] composes for the node at [addr]. *)
Definition dataRequestURL (f : framework) (addr req : string) : URL :=
  let q := queryAdd [] dataRequestTaskID (strconv.FormatUint (taskID f)) in
  let q := queryAdd q dataRequestReq req in
  mkURL "http" addr dataRequestPrefix (Encode q).

(** [DataRequest] with the goroutine that it starts, up to the send on
    the channel of the data responses: [httpGet] is [http.Get] together
    with the reading of the body. *)
Definition DataRequest {C} `{EtcdClient C} (f : framework) (toID : Z)
    (req : string) (httpGet : URL -> result string HTTPResponse) (c : C)
  : C * outcome dataResponse :=
  let '(c', r) := getAddress f toID c in
  match r with
  | Err _ => (c', Fatal "getAddress failed")
  | Ok addr =>
      match httpGet (dataRequestURL f addr req) with
      | Err _ => (c', Fatal "http.Get returns error")
      | Ok resp =>
          if negb (StatusCode resp =? 200)
          then (c', Fatal "response code, assume 200")
          else (c', Done (mkDataResponse toID req (Body resp)))
      end
  end.

(** The network of the job: the node that listens on the host of the
    URL serves the request with its handler. *)
Fixpoint network (nodes : list framework) (u : URL)
  : result string HTTPResponse :=
  match nodes with
  | [] => Err "connection refused"
  | n :: nodes' =>
      if String.eqb (Host u) (addr n)
      then Ok (ServeHTTP n (mkRequest (Path u) (RawQuery u)))
      else network nodes' u
  end.

(** *** Failure detection (pkg/etcdutil/healthy.go) *)

(** Modelled from the spec: [FreeTaskPath] of pkg/etcdutil, which
    healthy.go calls, is not among the sources; the layout section gives
    [/{job}/freetasks/{id}] for the failure marker. *)
Definition FreeTaskPath (name failedTask : string) : string :=
  path.Join ["/"; name; FreeTasksDir; failedTask].

Definition ReportFailure {C} `{EtcdClient C} (name failedTask : string) (c : C)
  : C * option EtcdError :=
  let '(c', r) := Set_ c (FreeTaskPath name failedTask) "failed" 0 in
  match r with
  | Ok _ => (c', None)
  | Err e => (c', Some e)
  end.

Definition reportFailed : string := "ReportFailure returns error".

(** [DetectFailure] over the responses [resps] that the watch on the
    liveness directory hands it; the second component is what it has
    logged. *)
Fixpoint DetectFailure {C} `{EtcdClient C} (name : string)
    (resps : list Response) (c : C) : C * list string :=
  match resps with
  | [] => (c, [])
  | resp :: resps' =>
      if negb (String.eqb (Action resp) "expire")
         && negb (String.eqb (Action resp) "delete")
      then DetectFailure name resps' c
      else
        let '(c', err) := ReportFailure name (path.Base (Key (RNode resp))) c in
        let '(c'', log) := DetectFailure name resps' c' in
        match err with
        | Some _ => (c'', reportFailed :: log)
        | None => (c'', log)
        end
  end.

(** ** Further statements *)

(** A path element that [path.Clean] keeps as it is: not empty, not "."
    or "..", without a slash. *)
Fixpoint noSlash (s : string) : bool :=
  match s with
  | EmptyString => true
  | String c s' => negb (Ascii.eqb c path.slash) && noSlash s'
  end.

Definition element (e : string) : bool :=
  negb (String.eqb e "") && negb (String.eqb e ".")
  && negb (String.eqb e "..") && noSlash e.

(** The indices of the reference cluster are in order: no event of the
    history is later than the current index. *)
Definition consistent (s : store) : Prop :=
  0 <= index s /\ Forall (fun ev => EtcdIndex ev <= index s) (history s).

(** Who holds the slot of task [id]. *)
Definition holder (s : store) (name : string) (id : Z) : option string :=
  fst <$> kv s !! TaskMasterPath name id.

(** A string of decimal digits. *)
Fixpoint digitsOnly (s : string) : bool :=
  match s with
  | EmptyString => true
  | String c s' =>
      (48 <=? strconv.byteZ c) && (strconv.byteZ c <=? 57) && digitsOnly s'
  end.

(** [dir] with element [e] below it. *)
Definition under (dir e : string) : string :=
  (if String.eqb dir "/" then "" else dir) +:+ String path.slash e.

(** A response that [DetectFailure] takes for a failure. *)
Definition failure (resp : Response) : bool :=
  String.eqb (Action resp) "expire" || String.eqb (Action resp) "delete".

(** The calls of [DetectFailure] for the failures [fails], with the
    results that they got. *)
Definition reports (name : string) (fails : list Response)
    (results : list (result EtcdError Response)) : list Call :=
  zip_with (fun resp r =>
              CallSet (FreeTaskPath name (path.Base (Key (RNode resp))))
                "failed" 0 r)
    fails results.

(** *** Runs of a node *)

(** The calls that goroutine [g] begins in a run, in order. *)
Definition begun (g : goroutine) (tr : list event) : list TaskCall :=
  omap (fun ev =>
          match ev with
          | Begin g' call => if decide (g' = g) then Some call else None
          | End _ _ => None
          end) tr.

(** The responses that etcd hands to the watch of watcher [i] in a
    run, in order. *)
Definition delivered (i : nat) (acts : list action) : list Response :=
  omap (fun a =>
          match a with
          | deliver j resp => if decide (j = i) then Some resp else None
          | _ => None
          end) acts.

(** The responses that wait in the receiver of watcher [i]. *)
Definition pending (i : nat) (st : system) : list Response :=
  match stops (sys_node st) !! i with
  | Some w => buffer (w_receiver w)
  | None => []
  end.

(** The responses that etcd hands to the epoch watch in a run, in
    order. *)
Definition deliveredEpoch (acts : list action) : list Response :=
  omap (fun a =>
          match a with
          | deliverEpoch resp => Some resp
          | _ => None
          end) acts.

(** The epochs on their way to the main loop: those in the epoch
    channel, then those of the responses in the receiver of the epoch
    watch. *)
Definition ahead (st : system) : list Z :=
  let ew := epochW (sys_node st) in
  buffer (epochChan ew) ++ omap published (buffer (ew_receiver ew)).

(** The calls that the main goroutine makes next without receiving. *)
Definition due (st : system) : list TaskCall :=
  let f := fw (sys_node st) in
  match mainAt st with
  | atInit => [Init (taskID f); SetEpoch (epoch f)]
  | atLoop => [SetEpoch (epoch f)]
  | atSelect | atEnd => []
  end.

(** The data responses that arrive in a run, in order. *)
Definition responded (acts : list action) : list dataResponse :=
  omap (fun a =>
          match a with
          | respond dataResp => Some dataResp
          | _ => None
          end) acts.

(** The data response that a data callback hands to the task. *)
Definition payload (call : TaskCall) : option dataResponse :=
  match call with
  | ParentDataReady id req data | ChildDataReady id req data =>
      Some (mkDataResponse id req data)
  | _ => None
  end.

(** The call that the [k]-th goroutine of the dispatcher has begun. *)
Definition started (st : system) (k : nat) : list TaskCall :=
  match spawned st !! k with
  | Some (call, (calling | over)) => [call]
  | _ => []
  end.

(** * Properties *)

Arguments strconv.FormatUint : simpl never.
Arguments strconv.ParseUint : simpl never.
Arguments path.Join : simpl never.
Arguments path.Base : simpl never.
Arguments wrap64 : simpl never.
Arguments TaskMasterPath : simpl never.
Arguments TaskDirPath : simpl never.
Arguments ChildMetaPath : simpl never.
Arguments ParentMetaPath : simpl never.
Arguments TaskHealthyPath : simpl never.
Arguments FreeTaskDir : simpl never.
Arguments etcdutil.computeTTL : simpl never.

(** ** strconv: what is formatted is parsed back *)

Lemma digitVal_digitChar d :
  0 <= d < 10 -> strconv.digitVal (strconv.digitChar d) = Some d.
Proof.
  intros Hd.
  assert (Hc : d = 0 \/ d = 1 \/ d = 2 \/ d = 3 \/ d = 4 \/ d = 5 \/ d = 6
               \/ d = 7 \/ d = 8 \/ d = 9) by lia.
  repeat (destruct Hc as [-> | Hc]; [reflexivity |]).
  subst d. reflexivity.
Qed.

Lemma wrap64_small n : 0 <= n <= maxUint64 -> wrap64 n = n.
Proof.
  unfold wrap64, maxUint64. intros Hn. apply Z.mod_small. lia.
Qed.

Lemma parseDigits_digit d a n :
  0 <= d < 10 -> 0 <= n -> n * 10 + d <= maxUint64 ->
  strconv.parseDigits 10 maxUint64 (strconv.cutoff64 10)
    (String (strconv.digitChar d) a) n
  = strconv.parseDigits 10 maxUint64 (strconv.cutoff64 10) a (n * 10 + d).
Proof.
  intros Hd Hn Hmax.
  cbn [strconv.parseDigits]. rewrite digitVal_digitChar by done.
  assert (Hcut : strconv.cutoff64 10 = 1844674407370955162) by reflexivity.
  rewrite Hcut.
  assert (Hm : maxUint64 = 18446744073709551615) by reflexivity.
  destruct (Z.leb_spec 10 d); [lia |].
  destruct (Z.leb_spec 1844674407370955162 n); [lia |].
  cbv zeta.
  rewrite (wrap64_small (n * 10)) by lia.
  rewrite (wrap64_small (n * 10 + d)) by lia.
  destruct (Z.ltb_spec (n * 10 + d) (n * 10)); [lia |].
  destruct (Z.ltb_spec maxUint64 (n * 10 + d)); [lia |].
  reflexivity.
Qed.

Lemma parseDigits_formatBits fuel : forall x a,
  0 <= x <= maxUint64 -> x < 10 ^ Z.of_nat fuel ->
  strconv.parseDigits 10 maxUint64 (strconv.cutoff64 10)
    (strconv.formatBits fuel x a) 0
  = strconv.parseDigits 10 maxUint64 (strconv.cutoff64 10) a x.
Proof.
  induction fuel as [| fuel IH]; intros x a Hx Hfuel.
  - change (10 ^ Z.of_nat 0) with 1 in Hfuel.
    assert (x = 0) as -> by lia. reflexivity.
  - cbn [strconv.formatBits]. cbv zeta.
    assert (Hpow : 10 ^ Z.of_nat (S fuel) = 10 * 10 ^ Z.of_nat fuel).
    { rewrite Nat2Z.inj_succ, Z.pow_succ_r by lia. reflexivity. }
    pose proof (Z.mod_pos_bound x 10 ltac:(lia)) as Hmod.
    pose proof (Z.div_mod x 10 ltac:(lia)) as Hdiv.
    destruct (Z.ltb_spec x 10) as [Hlt | Hge].
    + rewrite Z.mod_small by lia.
      rewrite parseDigits_digit by (unfold maxUint64; lia).
      f_equal.
    + rewrite IH by lia.
      rewrite parseDigits_digit by lia.
      f_equal. lia.
Qed.

Lemma formatBits_nonempty fuel : forall x a,
  strconv.formatBits fuel x a = EmptyString -> a = EmptyString.
Proof.
  induction fuel as [| fuel IH]; intros x a; cbn [strconv.formatBits]; [done |].
  cbv zeta. destruct (x <? 10); [discriminate |].
  intros H. apply IH in H. discriminate.
Qed.

Lemma formatBits_succ_nonempty fuel x a :
  strconv.formatBits (S fuel) x a <> EmptyString.
Proof.
  cbn [strconv.formatBits]. cbv zeta. destruct (x <? 10); [discriminate |].
  intros H. apply formatBits_nonempty in H. discriminate.
Qed.

(** A [uint64] written by [FormatUint] is read back by [ParseUint] in
    base 10. *)
Lemma ParseUint_FormatUint x :
  0 <= x <= maxUint64 ->
  strconv.ParseUint (strconv.FormatUint x) 10 64 = Ok x.
Proof.
  intros Hx.
  pose proof (parseDigits_formatBits 20 x EmptyString Hx) as Hp.
  assert (H20 : x < 10 ^ Z.of_nat 20) by (unfold maxUint64 in Hx; lia).
  specialize (Hp H20).
  unfold strconv.FormatUint, strconv.ParseUint.
  destruct (strconv.formatBits 20 x EmptyString) as [| c0 rest] eqn:Hs.
  - exfalso. revert Hs. apply (formatBits_succ_nonempty 19).
  - change ((2 <=? 10) && (10 <=? 36)) with true. cbv iota.
    change (2 ^ 64 - 1) with maxUint64. exact Hp.
Qed.

Lemma FormatUint_inj x y :
  0 <= x <= maxUint64 -> 0 <= y <= maxUint64 ->
  strconv.FormatUint x = strconv.FormatUint y -> x = y.
Proof.
  intros Hx Hy Heq.
  pose proof (ParseUint_FormatUint x Hx) as Hpx.
  rewrite Heq, (ParseUint_FormatUint y Hy) in Hpx. congruence.
Qed.

(** ** The data request handler *)

Lemma existsb_eqb_In (x : Z) (l : list Z) :
  existsb (fun id => x =? id) l = true <-> In x l.
Proof.
  rewrite existsb_exists. split.
  - intros (y & Hy & Heq). apply Z.eqb_eq in Heq. by subst.
  - intros Hin. exists x. split; [done | apply Z.eqb_refl].
Qed.

Lemma parentOrChild_spec (f : framework) (id : Z) :
  match parentOrChild f id with
  | roleParent => In id (GetParents (topology f) (epoch f))
  | roleChild =>
      ~ In id (GetParents (topology f) (epoch f))
      /\ In id (GetChildren (topology f) (epoch f))
  | roleNone =>
      ~ In id (GetParents (topology f) (epoch f))
      /\ ~ In id (GetChildren (topology f) (epoch f))
  end.
Proof.
  unfold parentOrChild.
  destruct (existsb _ (GetParents _ _)) eqn:Hp.
  - by apply existsb_eqb_In.
  - assert (~ In id (GetParents (topology f) (epoch f))) as Hnp.
    { rewrite <- existsb_eqb_In. congruence. }
    destruct (existsb _ (GetChildren _ _)) eqn:Hc.
    + split; [done | by apply existsb_eqb_In].
    + split; [done |]. rewrite <- existsb_eqb_In. congruence.
Qed.

(** C1, as stated, fails: the caller's ID "0x0" is not a decimal uint64,
    and the handler answers 200 with the task's [ServeAsChild], since it
    reads the ID with base 0. *)
Lemma ServeHTTP_decimal_counterexample :
  let r := mkRequest "/datareq" [("taskID", "0x0"); ("req", "x")] in
  decimal "0x0" = Err strconv.ErrSyntax
  /\ ServeHTTP exampleFramework r
     = mkHTTPResponse 200 (list_ascii_of_string "gradient")
  /\ ~ routes decimal exampleFramework r (ServeHTTP exampleFramework r).
Proof.
  cbv zeta. split; [reflexivity |]. split; [reflexivity |].
  intros H. inversion H;
    repeat match goal with
      | Hp : URLPath _ <> _ |- _ => by apply Hp
      | Hd : decimal _ = Ok _ |- _ => vm_compute in Hd; discriminate
      | Hs : StatusCode _ = 400 |- _ => vm_compute in Hs; discriminate
      end.
Qed.

(** C1 (amended): the handler routes every request as the specification
    says, with the caller's ID read by [ParseUint] in base 0 (the base
    is taken from the prefix of the string) instead of as a decimal
    number. *)
Theorem ServeHTTP_routes (f : framework) (r : Request) :
  routes prefixed f r (ServeHTTP f r).
Proof.
  unfold ServeHTTP.
  destruct (String.eqb_spec (URLPath r) dataRequestPrefix) as [Hpath | Hpath];
    cbn [negb].
  - destruct (strconv.ParseUint _ 0 64) as [fromID | e] eqn:Hparse.
    + pose proof (parentOrChild_spec f fromID) as Hrole.
      destruct (parentOrChild f fromID).
      * destruct Hrole. by eapply routes_stranger.
      * by eapply routes_parent.
      * destruct Hrole. by eapply routes_child.
    + by eapply routes_bad_taskID.
  - by apply routes_bad_path.
Qed.

(** ** IncEpoch *)

Lemma FormatUint_nonempty x : strconv.FormatUint x <> EmptyString.
Proof. apply (formatBits_succ_nonempty 19). Qed.

Lemma eqb_FormatUint_empty x : String.eqb (strconv.FormatUint x) "" = false.
Proof. apply String.eqb_neq, FormatUint_nonempty. Qed.

(** On the reference cluster a swap against a value that the key does
    not hold changes nothing. *)
Lemma storeCompareAndSwap_stale (s : store) key value prev v i :
  prev <> EmptyString -> kv s !! key = Some (v, i) -> v <> prev ->
  storeCompareAndSwap s key value 0 prev 0 = (s, Err EcodeTestFailed).
Proof.
  intros Hne Hkv Hv. unfold storeCompareAndSwap. rewrite Hkv.
  apply String.eqb_neq in Hne, Hv. by rewrite Hne, Hv.
Qed.

Lemma storeCompareAndSwap_current (s : store) key value prev i :
  prev <> EmptyString -> kv s !! key = Some (prev, i) ->
  exists s' ev,
    storeCompareAndSwap s key value 0 prev 0 = (s', Ok ev)
    /\ kv s' !! key = Some (value, index s + 1)
    /\ index s' = index s + 1.
Proof.
  intros Hne Hkv. unfold storeCompareAndSwap. rewrite Hkv.
  apply String.eqb_neq in Hne. rewrite Hne.
  rewrite String.eqb_refl, orb_true_r. cbn.
  eexists _, _. split; [reflexivity |]. cbn.
  by rewrite lookup_insert_eq.
Qed.

(** C2: with local epoch [E], [IncEpoch] makes one call, a
    compare-and-swap of the job's epoch key from the decimal string of
    [E] to the decimal string of [E+1] (in [uint64]); the node exits
    fatally exactly when the swap fails; on the reference cluster a node
    whose local epoch is not the stored one leaves the store as it is
    and exits, and a node whose epoch is current advances it by one. *)
Theorem IncEpoch_compare_and_swap (f : framework) :
  0 <= epoch f <= maxUint64 ->
  let key := JobEpochPath (name f) in
  let prev := strconv.FormatUint (epoch f) in
  let next := strconv.FormatUint (wrap64 (epoch f + 1)) in
  (forall C (client : EtcdClient C) (c : C),
     let swap := CompareAndSwap c key next 0 prev 0 in
     calls (IncEpoch f (recording c)).1
       = [CallCompareAndSwap key next 0 prev 0 swap.2]
     /\ (IncEpoch f c).1 = swap.1
     /\ (IncEpoch f c).2
        = if is_ok swap.2 then Done tt else Fatal "Epoch CompareAndSwap failed")
  /\ (epoch f < maxUint64 -> wrap64 (epoch f + 1) = epoch f + 1)
  /\ (forall (s : store) (global i : Z),
        0 <= global <= maxUint64 -> global <> epoch f ->
        kv s !! key = Some (strconv.FormatUint global, i) ->
        IncEpoch f s = (s, Fatal "Epoch CompareAndSwap failed"))
  /\ (forall (s : store) (i : Z),
        kv s !! key = Some (prev, i) ->
        exists s', IncEpoch f s = (s', Done tt)
                   /\ kv s' !! key = Some (next, index s + 1)).
Proof.
  intros HE key prev next. repeat split.
  - unfold IncEpoch. cbn. fold key prev next.
    by destruct (CompareAndSwap c key next 0 prev 0) as [c' [ev | e]].
  - unfold IncEpoch. fold key prev next.
    by destruct (CompareAndSwap c key next 0 prev 0) as [c' [ev | e]].
  - unfold IncEpoch. fold key prev next.
    by destruct (CompareAndSwap c key next 0 prev 0) as [c' [ev | e]].
  - intros Hlt. apply wrap64_small. lia.
  - intros s global i HG Hne Hkv. unfold IncEpoch. fold key prev next. cbn.
    rewrite (storeCompareAndSwap_stale s key next prev
               (strconv.FormatUint global) i); try done.
    + apply FormatUint_nonempty.
    + intros Heq. by apply Hne, FormatUint_inj.
  - intros s i Hkv. unfold IncEpoch. fold key prev next. cbn.
    destruct (storeCompareAndSwap_current s key next prev i
                (FormatUint_nonempty _) Hkv) as (s' & ev & -> & Hkv' & _).
    by exists s'.
Qed.

Lemma IncEpoch_compare_and_swap_witness :
  (IncEpoch exampleFramework exampleStore).2 = Done tt
  /\ (kv (IncEpoch exampleFramework exampleStore).1 !! "/job/epoch")
     = Some ("1", 5)
  /\ (IncEpoch (setEpoch exampleFramework 7) exampleStore)
     = (exampleStore, Fatal "Epoch CompareAndSwap failed").
Proof.
  assert (H0 : 0 <= epoch exampleFramework <= maxUint64) by (vm_compute; split; discriminate).
  destruct (IncEpoch_compare_and_swap exampleFramework H0)
    as (_ & _ & Hstale & Hcur).
  destruct (Hcur exampleStore 4 eq_refl) as (s' & Hinc & Hkv).
  rewrite Hinc. split; [reflexivity |]. split; [exact Hkv |].
  pose proof (IncEpoch_compare_and_swap (setEpoch exampleFramework 7)) as H7.
  destruct H7 as (_ & _ & Hstale7 & _); [vm_compute; split; discriminate |].
  apply (Hstale7 exampleStore 0 4);
    [vm_compute; split; discriminate | done | reflexivity].
Defined.

(** ** occupyTask *)

Lemma occupyLoop_cons {C} `{EtcdClient C} (f : framework) s slots (c : C) :
  occupyLoop f (s :: slots) c
  = match slotID s with
    | None =>
        let '(c', log, r) := occupyLoop f slots c in
        (c', warnCorrupted :: log, r)
    | Some id =>
        let '(c', r) :=
          CompareAndSwap c (TaskMasterPath (name f) id) (addr f) 0 "empty" 0 in
        match r with
        | Ok _ => (c', [], Ok id)
        | Err _ => occupyLoop f slots c'
        end
    end.
Proof.
  cbn [occupyLoop]. unfold slotID.
  by destruct (strconv.ParseUint _ 0 64).
Qed.

Lemma slotIDs_cons s slots :
  slotIDs (s :: slots)
  = match slotID s with
    | Some id => id :: slotIDs slots
    | None => slotIDs slots
    end.
Proof. reflexivity. Qed.

(** The loop against a recording client: the recorded calls are the
    attempts, the rest is what the loop does against the cluster
    itself. *)
Lemma occupyLoop_recording {C} `{EtcdClient C} (f : framework) slots :
  forall rc : recorder C,
  let run := occupyLoop f slots rc in
  let plain := occupyLoop f slots (cluster rc) in
  cluster run.1.1 = plain.1.1 /\ run.1.2 = plain.1.2 /\ run.2 = plain.2
  /\ exists attempts,
       calls run.1.1 = calls rc ++ (claim f <$> attempts)
       /\ attempts.*1 `prefix_of` slotIDs slots
       /\ match run.2 with
          | Ok id =>
              exists pre ev, attempts = pre ++ [(id, Ok ev)] /\ Forall failed pre
          | Err e =>
              e = NoUnassignedTask /\ Forall failed attempts
              /\ attempts.*1 = slotIDs slots
          end.
Proof.
  induction slots as [| s slots IH]; intros rc; cbv zeta.
  - cbn. split_and?; try done. exists []. cbn. rewrite app_nil_r.
    by split_and?.
  - rewrite !occupyLoop_cons, slotIDs_cons.
    destruct (slotID s) as [id |] eqn:Hid.
    + cbn [CompareAndSwap recorderClient noted].
      destruct (CompareAndSwap (cluster rc) (TaskMasterPath (name f) id)
                  (addr f) 0 "empty" 0) as [c' [ev | e]] eqn:Hswap; cbn.
      * split_and?; try done. exists [(id, Ok ev)]. split_and?; try done.
        -- apply prefix_cons, prefix_nil.
        -- exists [], ev. split; [done | constructor].
      * specialize (IH (mkRecorder c' (calls rc ++
                     [CallCompareAndSwap (TaskMasterPath (name f) id) (addr f)
                        0 "empty" 0 (Err e)]))).
        cbv zeta in IH. cbn [cluster calls] in IH.
        destruct IH as (Hc & Hl & Hr & attempts & Hcalls & Hpre & Hres).
        split_and?; try done.
        exists ((id, Err e) :: attempts). split_and?.
        -- cbn [fmap list_fmap]. rewrite Hcalls, <- app_assoc. done.
        -- cbn. by apply prefix_cons.
        -- destruct (occupyLoop f slots _).2 as [id' | e'].
           ++ destruct Hres as (pre & ev & -> & Hpre').
              exists ((id, Err e) :: pre), ev. split; [done |].
              by constructor.
           ++ destruct Hres as (-> & Hall & Hids).
              split_and?; [done | by constructor |]. cbn. by rewrite Hids.
    + specialize (IH rc). cbv zeta in IH.
      destruct IH as (Hc & Hl & Hr & attempts & Hcalls & Hpre & Hres).
      destruct (occupyLoop f slots rc) as [[rc' log] r].
      destruct (occupyLoop f slots (cluster rc)) as [[c' log'] r'].
      cbn in *. subst. split_and?; try done. by exists attempts.
Qed.

Lemma occupyTask_listed {C} `{EtcdClient C} (f : framework) (c c1 : C) slots :
  Get c (TaskDirPath (name f)) true true = (c1, Ok slots) ->
  occupyTask f c = occupyLoop f (Nodes (RNode slots)) c1.
Proof. intros Hget. unfold occupyTask. by rewrite Hget. Qed.

(** C6, as stated, fails: there is no task directory; the listing
    fails, no compare-and-swap is attempted, so none succeeds, and
    [occupyTask] returns the error of the listing, not the "no
    unassigned task" error. *)
Lemma occupyTask_listing_error_counterexample :
  let run := occupyTask exampleFramework (recording emptyStore) in
  calls run.1.1 = [CallGet "/job/tasks" true true (Err EcodeKeyNotFound)]
  /\ run.2 = Err (GetFailed EcodeKeyNotFound)
  /\ run.2 <> Err NoUnassignedTask
  /\ ~ (exists key value ttl prevValue prevIndex ev,
          In (CallCompareAndSwap key value ttl prevValue prevIndex (Ok ev))
             (calls run.1.1)).
Proof.
  cbv zeta. split; [vm_compute; reflexivity |].
  split; [vm_compute; reflexivity |].
  split; [vm_compute; discriminate |].
  intros (key & value & ttl & prevValue & prevIndex & ev & Hin).
  vm_compute in Hin. destruct Hin as [Hin | []]. discriminate.
Qed.

(** C6 (amended): [occupyTask] lists the task directory; when the
    listing fails it returns the error of the listing and tries no
    slot; otherwise it tries the entries in listing order, each by a
    compare-and-swap of [tasks/{id}/0] from "empty" to the address of
    this node; it returns the ID of the first slot whose swap succeeds,
    after which it tries no other; and, the directory listed, it returns
    the "no unassigned task" error if and only if no swap succeeded. *)
Theorem occupyTask_first_success {C} `{EtcdClient C} (f : framework) (c : C) :
  let run := occupyTask f (recording c) in
  run.2 = (occupyTask f c).2
  /\ cluster run.1.1 = (occupyTask f c).1.1
  /\ match (Get c (TaskDirPath (name f)) true true).2 with
     | Err e =>
         calls run.1.1 = [CallGet (TaskDirPath (name f)) true true (Err e)]
         /\ run.2 = Err (GetFailed e)
     | Ok slots =>
         exists attempts,
           calls run.1.1
             = CallGet (TaskDirPath (name f)) true true (Ok slots)
               :: (claim f <$> attempts)
           /\ attempts.*1 `prefix_of` slotIDs (Nodes (RNode slots))
           /\ match run.2 with
              | Ok id =>
                  exists pre ev,
                    attempts = pre ++ [(id, Ok ev)] /\ Forall failed pre
              | Err e =>
                  e = NoUnassignedTask
                  /\ attempts.*1 = slotIDs (Nodes (RNode slots))
              end
           /\ (run.2 = Err NoUnassignedTask <-> Forall failed attempts)
     end.
Proof.
  intros run.
  destruct (Get c (TaskDirPath (name f)) true true) as [c1 [slots | e]] eqn:Hget;
    cbn [snd].
  2: { subst run. unfold occupyTask, recording.
       cbn [Get recorderClient noted cluster calls]. rewrite Hget. by cbn. }
  assert (Hrec : Get (recording c) (TaskDirPath (name f)) true true
                 = (mkRecorder c1 [CallGet (TaskDirPath (name f)) true true
                                     (Ok slots)], Ok slots)).
  { unfold recording. cbn. by rewrite Hget. }
  pose proof (occupyTask_listed f _ _ _ Hrec) as Hrun.
  pose proof (occupyTask_listed f _ _ _ Hget) as Hplain.
  pose proof (occupyLoop_recording f (Nodes (RNode slots))
                (mkRecorder c1 [CallGet (TaskDirPath (name f)) true true
                                  (Ok slots)])) as Hloop.
  cbv zeta in Hloop. cbn [cluster calls] in Hloop.
  subst run. rewrite Hrun, Hplain.
  destruct Hloop as (Hc & _ & Hr & attempts & Hcalls & Hpre & Hres).
  split_and?; try done.
  exists attempts. split_and?; try done.
  - destruct (occupyLoop f _ (mkRecorder _ _)).2 as [id | e]; [done |].
    by destruct Hres as (-> & _ & ->).
  - split.
    + intros Hno. rewrite Hno in Hres. by destruct Hres as (_ & Hall & _).
    + intros Hall.
      destruct (occupyLoop f _ (mkRecorder _ _)).2 as [id | e].
      * destruct Hres as (pre & ev & -> & _).
        apply Forall_app in Hall as [_ Hlast].
        apply Forall_inv in Hlast. discriminate.
      * by destruct Hres as (-> & _).
Qed.

(** C10: an entry of the task directory whose name is not read as an
    unsigned integer is skipped with a warning in the log, and the scan
    goes on: with the entry or without it, [occupyTask] makes the same
    calls, leaves the same cluster and returns the same slot or the same
    error. *)
Theorem occupyTask_skips_corrupted {C} `{EtcdClient C} (f : framework)
    (before after : list Node) (s : Node) (e : strconv.NumError) (c : C) :
  strconv.ParseUint (path.Base (Key s)) 0 64 = Err e ->
  let run := occupyLoop f (before ++ s :: after) c in
  let without := occupyLoop f (before ++ after) c in
  run.1.1 = without.1.1
  /\ run.2 = without.2
  /\ ((occupyLoop f before c).2 = Err NoUnassignedTask ->
      In warnCorrupted run.1.2)
  /\ (forall c0 slots,
        Get c0 (TaskDirPath (name f)) true true = (c, Ok slots) ->
        Nodes (RNode slots) = before ++ s :: after ->
        occupyTask f c0 = run).
Proof.
  intros Hparse. cbv zeta.
  assert (Hid : slotID s = None) by (unfold slotID; by rewrite Hparse).
  split_and?.
  - revert c. induction before as [| b before IH]; intros c.
    + cbn [app]. rewrite occupyLoop_cons, Hid.
      by destruct (occupyLoop f after c) as [[c' log] r].
    + cbn [app]. rewrite !occupyLoop_cons.
      destruct (slotID b) as [id |].
      * destruct (CompareAndSwap c _ _ 0 "empty" 0) as [c' [ev | e']];
          [done | apply IH].
      * specialize (IH c).
        destruct (occupyLoop f (before ++ s :: after) c) as [[c1 log1] r1].
        by destruct (occupyLoop f (before ++ after) c) as [[c2 log2] r2].
  - revert c. induction before as [| b before IH]; intros c.
    + cbn [app]. rewrite occupyLoop_cons, Hid.
      by destruct (occupyLoop f after c) as [[c' log] r].
    + cbn [app]. rewrite !occupyLoop_cons.
      destruct (slotID b) as [id |].
      * destruct (CompareAndSwap c _ _ 0 "empty" 0) as [c' [ev | e']];
          [done | apply IH].
      * specialize (IH c).
        destruct (occupyLoop f (before ++ s :: after) c) as [[c1 log1] r1].
        by destruct (occupyLoop f (before ++ after) c) as [[c2 log2] r2].
  - revert c. induction before as [| b before IH]; intros c.
    + intros _. cbn [app]. rewrite occupyLoop_cons, Hid.
      destruct (occupyLoop f after c) as [[c' log] r]. by left.
    + cbn [app]. rewrite !occupyLoop_cons.
      destruct (slotID b) as [id |].
      * destruct (CompareAndSwap c _ _ 0 "empty" 0) as [c' [ev | e']];
          [done | apply IH].
      * specialize (IH c).
        destruct (occupyLoop f before c) as [[c0 log0] r0].
        destruct (occupyLoop f (before ++ s :: after) c) as [[c1 log1] r1].
        cbn in *. intros Hr. right. by apply IH.
  - intros c0 slots Hget Hnodes.
    by rewrite (occupyTask_listed f c0 c slots Hget), Hnodes.
Qed.

Lemma occupyTask_skips_corrupted_witness :
  let corrupted := mkNode "/job/tasks/lost+found" "" [] in
  let slots := [mkNode "/job/tasks/1" "" []; mkNode "/job/tasks/2" "" []] in
  (occupyLoop exampleFramework (corrupted :: slots) exampleStore).2 = Ok 1
  /\ In warnCorrupted
       (occupyLoop exampleFramework (corrupted :: slots) exampleStore).1.2.
Proof.
  cbv zeta.
  pose proof (occupyTask_skips_corrupted exampleFramework []
                [mkNode "/job/tasks/1" "" []; mkNode "/job/tasks/2" "" []]
                (mkNode "/job/tasks/lost+found" "" []) strconv.ErrSyntax
                exampleStore eq_refl) as (_ & Hr & Hlog & _).
  cbn [app] in Hr, Hlog. split.
  - rewrite Hr. vm_compute. reflexivity.
  - apply Hlog. reflexivity.
Defined.

(** ** The main loop *)

Lemma mainLoop_calls sel : forall epoch,
  (mainLoop epoch sel).1.1 = SetEpoch <$> untilShutdown (epoch :: received sel).
Proof.
  induction sel as [| [epoch' |] sel IH]; intros epoch;
    cbn [mainLoop untilShutdown received];
    destruct (epoch =? maxUint64); try done.
  specialize (IH epoch').
  destruct (mainLoop epoch' sel) as [[tr e] l]. cbn in *. by rewrite IH.
Qed.

Lemma mainLoop_select sel : forall epoch,
  (mainLoop epoch sel).2 = loopSelect ->
  last (mainLoop epoch sel).1.1 = Some (SetEpoch (mainLoop epoch sel).1.2).
Proof.
  induction sel as [| [epoch' |] sel IH]; intros epoch;
    cbn [mainLoop]; destruct (epoch =? maxUint64); try done.
  specialize (IH epoch').
  destruct (mainLoop epoch' sel) as [[tr e] l] eqn:Hloop. cbn in *.
  intros Hl. specialize (IH Hl).
  destruct tr as [| call tr]; [done |]. by rewrite last_cons, IH.
Qed.

(** C3: when [Start] gets as far as its main loop, the calls it makes
    into the task are [Init] followed by [SetEpoch(E)] for every epoch
    [E] the node enters, in order: the epoch fetched from the store at
    startup, then each epoch received from the epoch channel, up to the
    shutdown epoch.  The first [SetEpoch] follows [Init] at once, and
    whenever the loop waits on the epoch channel its last call was
    [SetEpoch] of the current epoch. *)
Theorem Start_SetEpoch_every_epoch {C} `{EtcdClient C} (b : Bootstrap)
    (sel : list selected) (c c' : C) (made : list TaskCall) (n : node)
    (l : loopEnd) :
  Start b sel c = (c', made, Done (n, l)) ->
  exists epoch0,
    (fetchEpoch (jobName b) c).2 = Done (Ok epoch0)
    /\ made = Init (taskID (fw n))
              :: (SetEpoch <$> untilShutdown (epoch0 :: received sel))
    /\ (epoch0 <> maxUint64 ->
        exists rest, made = Init (taskID (fw n)) :: SetEpoch epoch0 :: rest)
    /\ (l = loopSelect -> last made = Some (SetEpoch (epoch (fw n)))).
Proof.
  unfold Start.
  destruct (fetchEpoch (jobName b) c) as [c1 [[epoch0 | e] | msg]]; try done.
  destruct (occupyTask _ c1) as [[c2 log] [id | e]]; try done.
  destruct (startWatches _) as [n0 | msg]; try done.
  pose proof (mainLoop_calls sel epoch0) as Hcalls.
  pose proof (mainLoop_select sel epoch0) as Hsel.
  cbn [epoch].
  destruct (mainLoop epoch0 sel) as [[tr e] l0]. cbn [fst snd] in Hcalls, Hsel.
  intros [= <- <- <- <-]. exists epoch0. cbn [fw taskID epoch setEpoch].
  split_and?; try done.
  - by rewrite Hcalls.
  - intros Hne. rewrite Hcalls. cbn [untilShutdown].
    apply Z.eqb_neq in Hne. rewrite Hne. cbn. eauto.
  - intros Hl. specialize (Hsel Hl).
    destruct tr as [| call tr]; [done |]. by rewrite last_cons, Hsel.
Qed.

Lemma Start_SetEpoch_every_epoch_witness :
  (Start exampleBootstrap [fromEpochChan 1; fromEpochChan 2] exampleStore).1.2
  = [Init 0; SetEpoch 0; SetEpoch 1; SetEpoch 2].
Proof.
  destruct (Start exampleBootstrap [fromEpochChan 1; fromEpochChan 2]
              exampleStore) as [[c' made] [[n l] | msg]] eqn:Hstart;
    [| vm_compute in Hstart; discriminate].
  destruct (Start_SetEpoch_every_epoch _ _ _ _ _ _ _ Hstart)
    as (epoch0 & Hfetch & Hmade & _).
  vm_compute in Hfetch. injection Hfetch as <-.
  assert (Hid : taskID (fw n) = 0).
  { vm_compute in Hstart. by injection Hstart as _ _ <- _. }
  rewrite Hid in Hmade. cbn [fst snd]. rewrite Hmade. reflexivity.
Defined.

(** ** The epoch watcher *)

Lemma published_Some resp epoch :
  epochEvent resp = Done (Some epoch) -> published resp = Some epoch.
Proof. unfold published. by intros ->. Qed.

Lemma published_None resp :
  epochEvent resp = Done None -> published resp = None.
Proof. unfold published. by intros ->. Qed.

Lemma epochWatcher_in_order resps : forall ch ch' rest,
  epochWatcher resps ch = Done (ch', rest) ->
  exists handled,
    resps = handled ++ rest
    /\ buffer ch' = buffer ch ++ omap published handled
    /\ capacity ch' = capacity ch
    /\ ((length (buffer ch) <= capacity ch)%nat ->
        (length (buffer ch') <= capacity ch')%nat).
Proof.
  induction resps as [| resp resps IH]; intros ch ch' rest; cbn [epochWatcher].
  - intros [= <- <-]. exists []. cbn. by rewrite app_nil_r.
  - destruct (epochEvent resp) as [[epoch |] | msg] eqn:Hev; [| | done].
    + unfold send. destruct (decide _) as [Hroom | Hfull].
      * intros Hrun. apply IH in Hrun as (handled & -> & Hbuf & Hcap & Hle).
        cbn in Hbuf, Hcap, Hle. exists (resp :: handled).
        split_and?; try done.
        -- rewrite Hbuf, <- app_assoc. cbn.
           by rewrite (published_Some _ _ Hev).
        -- intros _. apply Hle. rewrite length_app. cbn. lia.
      * intros [= <- <-]. exists []. cbn. by rewrite app_nil_r.
    + intros Hrun. apply IH in Hrun as (handled & -> & Hbuf & Hcap & Hle).
      exists (resp :: handled). split_and?; try done.
      rewrite Hbuf. cbn. by rewrite (published_None _ Hev).
Qed.

(** C4: the epoch channel has capacity 1; the watcher goroutine passes
    over a response whose action is neither "set" nor "compareAndSwap";
    for any other response it reads the value as a decimal [uint64],
    exits fatally when that fails, and otherwise sends the epoch on the
    epoch channel, behind what is already there, waiting while the
    channel is full.  So the epochs arrive on the channel in the order
    of their events, never more than its capacity at a time. *)
Theorem watchEpoch_publishes (f : framework) (resp : Response)
    (resps : list Response) (ch : chan Z) :
  capacity (epochChan (watchEpoch f)) = 1%nat
  /\ buffer (epochChan (watchEpoch f)) = []
  /\ (Action resp <> "set" -> Action resp <> "compareAndSwap" ->
      epochWatcher (resp :: resps) ch = epochWatcher resps ch)
  /\ (Action resp = "set" \/ Action resp = "compareAndSwap" ->
      match strconv.ParseUint (Value (RNode resp)) 10 64 with
      | Err _ =>
          epochWatcher (resp :: resps) ch
          = Fatal "Can't parse epoch from etcd"
      | Ok epoch =>
          if decide (length (buffer ch) < capacity ch)%nat
          then epochWatcher (resp :: resps) ch
               = epochWatcher resps (mkChan (capacity ch) (buffer ch ++ [epoch]))
          else epochWatcher (resp :: resps) ch = Done (ch, resp :: resps)
      end)
  /\ (forall ch' rest,
        epochWatcher resps (epochChan (watchEpoch f)) = Done (ch', rest) ->
        exists handled,
          resps = handled ++ rest
          /\ buffer ch' = omap published handled
          /\ (length (buffer ch') <= 1)%nat).
Proof.
  split_and?; try done.
  - intros Hset Hcas. cbn [epochWatcher]. unfold epochEvent.
    apply String.eqb_neq in Hset, Hcas. by rewrite Hset, Hcas.
  - intros Hacc. cbn [epochWatcher]. unfold epochEvent.
    assert (negb (String.eqb (Action resp) "compareAndSwap")
            && negb (String.eqb (Action resp) "set") = false) as ->.
    { destruct Hacc as [-> | ->]; reflexivity. }
    destruct (strconv.ParseUint _ 10 64) as [epoch | e]; [| done].
    unfold send. by destruct (decide _).
  - intros ch' rest Hrun.
    apply epochWatcher_in_order in Hrun as (handled & -> & Hbuf & Hcap & Hle).
    exists handled. split_and?; try done.
    rewrite Hcap in Hle. apply Hle. cbn. lia.
Qed.

(** ** Meta flags *)

Lemma watchAll_roleParent (f : framework) (taskIDs : list Z) :
  watchAll f roleParent taskIDs
  = Done ((fun taskID =>
             mkWatcher taskID (make 10) (make 1)
               (ChildMetaPath (name f) taskID) 1 ParentMetaReady)
          <$> taskIDs).
Proof.
  induction taskIDs as [| taskID taskIDs IH]; [done |].
  cbn [watchAll watchOne]. by rewrite IH.
Qed.

Lemma watchAll_roleChild (f : framework) (taskIDs : list Z) :
  watchAll f roleChild taskIDs
  = Done ((fun taskID =>
             mkWatcher taskID (make 10) (make 1)
               (ParentMetaPath (name f) taskID) 1 ChildMetaReady)
          <$> taskIDs).
Proof.
  induction taskIDs as [| taskID taskIDs IH]; [done |].
  cbn [watchAll watchOne]. by rewrite IH.
Qed.

Lemma startWatches_Done (f : framework) :
  startWatches f
  = Done (mkNode_ f
            (((fun taskID =>
                 mkWatcher taskID (make 10) (make 1)
                   (ChildMetaPath (name f) taskID) 1 ParentMetaReady)
              <$> GetParents (topology f) (epoch f))
             ++ ((fun taskID =>
                    mkWatcher taskID (make 10) (make 1)
                      (ParentMetaPath (name f) taskID) 1 ChildMetaReady)
                 <$> GetChildren (topology f) (epoch f)))
            (watchEpoch f) (make 100)).
Proof.
  unfold startWatches. by rewrite watchAll_roleParent, watchAll_roleChild.
Qed.

(** C5, as stated, fails: task 0 flags "ParamReady" to its children;
    the watchers of its child, task 1, make one call into their task,
    [ParentMetaReady(0, "ParamReady")], and never
    [ChildMetaReady(0, "ParamReady")]. *)
Lemma FlagMetaToChild_ChildMetaReady_counterexample :
  let s := FlagMetaToChild exampleParent "ParamReady" exampleStore in
  exists n,
    startWatches exampleFramework = Done n
    /\ In (taskID exampleParent)
          (GetParents (topology exampleFramework) (epoch exampleFramework))
    /\ concat ((fun w => watcherCalls w s) <$> stops n)
       = [ParentMetaReady 0 "ParamReady"]
    /\ ~ In (ChildMetaReady 0 "ParamReady")
            (concat ((fun w => watcherCalls w s) <$> stops n)).
Proof.
  cbv zeta. eexists. split; [apply startWatches_Done |].
  split; [by left |].
  assert (Hcalls :
    concat ((fun w => watcherCalls w
                        (FlagMetaToChild exampleParent "ParamReady" exampleStore))
            <$> stops (mkNode_ exampleFramework
                 (((fun taskID =>
                      mkWatcher taskID (make 10) (make 1)
                        (ChildMetaPath (name exampleFramework) taskID) 1
                        ParentMetaReady)
                   <$> GetParents (topology exampleFramework)
                         (epoch exampleFramework))
                  ++ ((fun taskID =>
                         mkWatcher taskID (make 10) (make 1)
                           (ParentMetaPath (name exampleFramework) taskID) 1
                           ChildMetaReady)
                      <$> GetChildren (topology exampleFramework)
                            (epoch exampleFramework)))
                 (watchEpoch exampleFramework) (make 100)))
    = [ParentMetaReady 0 "ParamReady"]) by (vm_compute; reflexivity).
  rewrite Hcalls. split; [done |].
  intros [Hin | []]. discriminate.
Qed.

Lemma watchStream_record (s : store) (key value : string) (waitIndex : Z) :
  waitIndex <= index s + 1 ->
  In (mkResponse "set" (mkNode key value []) (index s + 1))
     (watchStream (record s "set" key value).1 key waitIndex false).
Proof.
  intros Hidx. unfold watchStream. cbn [record fst history].
  apply list_elem_of_In, list_elem_of_filter. split.
  - cbn. split; [done |]. unfold watches. by rewrite String.eqb_refl.
  - apply elem_of_app. right. by apply list_elem_of_singleton.
Qed.

(** C5 (amended): [FlagMetaToChild(s)] on task [p] writes [s] to the
    ChildMeta key of [p]; every node [c] of the job that started its
    watches in an epoch in which [p] is among its parents has a watcher
    on that key, which passes over the events whose action is not "set"
    and, for this one, calls [ParentMetaReady(p, s)] on the task of
    [c]. *)
Theorem FlagMetaToChild_ParentMetaReady (p c : framework) (s : store)
    (meta : string) :
  name p = name c -> 0 <= index s ->
  In (taskID p) (GetParents (topology c) (epoch c)) ->
  let s' := FlagMetaToChild p meta s in
  kv s' !! ChildMetaPath (name p) (taskID p) = Some (meta, index s + 1)
  /\ exists n w,
       startWatches c = Done n
       /\ In w (stops n)
       /\ w_taskID w = taskID p
       /\ w_watchPath w = ChildMetaPath (name p) (taskID p)
       /\ (forall resp, Action resp <> "set" -> watcherEvent w resp = None)
       /\ In (ParentMetaReady (taskID p) meta) (watcherCalls w s').
Proof.
  intros Hname Hidx Hparent s'. split.
  - subst s'. unfold FlagMetaToChild. cbn. apply lookup_insert_eq.
  - eexists _, (mkWatcher (taskID p) (make 10) (make 1)
                  (ChildMetaPath (name c) (taskID p)) 1 ParentMetaReady).
    split; [apply startWatches_Done |]. cbn [stops].
    split_and?; try done.
    + apply in_or_app. left. apply in_map_iff. by exists (taskID p).
    + cbn. by rewrite Hname.
    + intros resp Hset. unfold watcherEvent.
      apply String.eqb_neq in Hset. by rewrite Hset.
    + unfold watcherCalls. cbn [w_watchPath w_waitIndex].
      apply list_elem_of_In, list_elem_of_omap.
      exists (mkResponse "set"
                (mkNode (ChildMetaPath (name p) (taskID p)) meta [])
                (index s + 1)).
      split; [| done].
      apply list_elem_of_In. rewrite <- Hname. subst s'.
      unfold FlagMetaToChild. cbn [Set_ storeClient storeSet].
      apply watchStream_record. lia.
Qed.

Lemma FlagMetaToChild_ParentMetaReady_witness :
  exists w,
    In w [mkWatcher 0 (make 10) (make 1) "/job/tasks/0/ChildMeta" 1
            ParentMetaReady;
          mkWatcher 3 (make 10) (make 1) "/job/tasks/3/ParentMeta" 1
            ChildMetaReady;
          mkWatcher 4 (make 10) (make 1) "/job/tasks/4/ParentMeta" 1
            ChildMetaReady]
    /\ In (ParentMetaReady 0 "ParamReady")
          (watcherCalls w
             (FlagMetaToChild exampleParent "ParamReady" exampleStore)).
Proof.
  destruct (FlagMetaToChild_ParentMetaReady exampleParent exampleFramework
              exampleStore "ParamReady" eq_refl)
    as (_ & n & w & Hstart & Hin & _ & _ & _ & Hcall).
  - vm_compute. discriminate.
  - by left.
  - exists w. split; [| exact Hcall].
    rewrite startWatches_Done in Hstart. injection Hstart as <-.
    exact Hin.
Defined.

(** The watches are those of the epoch fetched at startup: a node whose
    parents are none in epoch 0 and task 0 from epoch 1 on, started in
    epoch 0 and now in epoch 1, has no watcher for task 0, and the flag
    of task 0 reaches its task by no call. *)
Lemma Start_watches_first_epoch :
  let b := mkBootstrap "job" "127.0.0.1:7001" (fun _ => exampleTask)
             (fun id => mkTopology (fun epoch => if epoch =? 0 then [] else [0])
                                   (fun _ => [])) in
  let taken := (storeSet exampleStore "/job/tasks/0/0" "127.0.0.1:7000" 0).1 in
  exists c made n,
    Start b [fromEpochChan 1] taken = (c, made, Done (n, loopSelect))
    /\ taskID (fw n) = 1
    /\ epoch (fw n) = 1
    /\ In (taskID exampleParent) (GetParents (topology (fw n)) (epoch (fw n)))
    /\ stops n = []
    /\ concat ((fun w => watcherCalls w
                           (FlagMetaToChild exampleParent "ParamReady" c))
               <$> stops n) = [].
Proof.
  cbv zeta. eexists _, _, _.
  split; [vm_compute; reflexivity |].
  split_and?; try reflexivity. by left.
Qed.

(** ** Heartbeat *)

Lemma computeTTL_max (interval : Z) :
  - 2 ^ 63 <= interval < 2 ^ 63 ->
  etcdutil.computeTTL interval = Z.max 3 (3 * (interval ÷ etcdutil.Second)).
Proof.
  intros Hint. unfold etcdutil.computeTTL, etcdutil.Second.
  pose proof (Z.quot_rem' interval 1000000000) as Hqr.
  destruct (Z.ltb_spec (interval ÷ 1000000000) 1) as [Hlt | Hge]; [lia |].
  assert (Hpos : 0 <= interval).
  { destruct (Z.le_gt_cases 0 interval) as [| Hneg]; [done |].
    pose proof (Z.quot_opp_l interval 1000000000 ltac:(lia)) as Hopp.
    pose proof (Z.quot_pos (- interval) 1000000000 ltac:(lia) ltac:(lia)).
    lia. }
  pose proof (Z.rem_bound_pos interval 1000000000 Hpos ltac:(lia)) as Hrem.
  rewrite (wrap64_small (interval ÷ 1000000000)) by (unfold maxUint64; lia).
  rewrite wrap64_small by (unfold maxUint64; lia).
  lia.
Qed.

Lemma Heartbeat_recording {C} `{EtcdClient C} (name : string)
    (taskID interval : Z) (sel : list etcdutil.beat) :
  forall rc : recorder C,
  let run := etcdutil.Heartbeat name taskID interval sel rc in
  let plain := etcdutil.Heartbeat name taskID interval sel (cluster rc) in
  cluster run.1 = plain.1
  /\ run.2 = plain.2
  /\ exists (oks : list Response) (last : result EtcdError Response),
       calls run.1
         = calls rc
           ++ (CallSet (TaskHealthyPath name taskID) "health"
                 (etcdutil.computeTTL interval)
               <$> ((Ok <$> oks) ++ [last]))
       /\ take (length oks) sel = replicate (length oks) etcdutil.afterInterval
       /\ match run.2 with
          | etcdutil.returned (Some e) => last = Err e
          | etcdutil.returned None =>
              is_ok last = true
              /\ sel !! length oks = Some etcdutil.fromStop
          | etcdutil.sleeping =>
              is_ok last = true /\ length sel = length oks
          end.
Proof.
  induction sel as [| b sel IH]; intros rc; cbv zeta.
  - cbn.
    destruct (Set_ (cluster rc) (TaskHealthyPath name taskID) "health"
                (etcdutil.computeTTL interval)) as [c' [ev | e]];
      cbn; split_and?; try done.
    + by exists [], (Ok ev).
    + by exists [], (Err e).
  - cbn.
    destruct (Set_ (cluster rc) (TaskHealthyPath name taskID) "health"
                (etcdutil.computeTTL interval)) as [c' [ev | e]] eqn:Hset;
      cbn.
    + destruct b.
      * specialize (IH (mkRecorder c' (calls rc ++
                     [CallSet (TaskHealthyPath name taskID) "health"
                        (etcdutil.computeTTL interval) (Ok ev)]))).
        cbv zeta in IH. cbn [cluster calls] in IH.
        destruct IH as (Hc & Hr & oks & last & Hcalls & Hslept & Hend).
        split_and?; try done.
        exists (ev :: oks), last. split_and?.
        -- rewrite Hcalls, <- app_assoc. done.
        -- cbn. by rewrite Hslept.
        -- destruct (etcdutil.Heartbeat _ _ _ _ _).2 as [[e |] |]; try done.
           destruct Hend. split; [done |]. cbn. lia.
      * split_and?; try done. by exists [], (Ok ev).
    + split_and?; try done. by exists [], (Err e).
Qed.

(** C7: every call that [Heartbeat] makes to etcd sets [healthy/{id}] to
    "health" with the TTL [max(3, 3 * seconds)], where [seconds] is the
    interval in whole seconds; it sets the key, waits for the interval
    and sets it again, until the stop channel is read after a set (it
    returns nil) or a set fails (it returns that error). *)
Theorem Heartbeat_sets_health {C} `{EtcdClient C} (name : string)
    (taskID interval : Z) (sel : list etcdutil.beat) (c : C) :
  - 2 ^ 63 <= interval < 2 ^ 63 ->
  let ttl := Z.max 3 (3 * (interval ÷ etcdutil.Second)) in
  let run := etcdutil.Heartbeat name taskID interval sel (recording c) in
  etcdutil.computeTTL interval = ttl
  /\ cluster run.1 = (etcdutil.Heartbeat name taskID interval sel c).1
  /\ run.2 = (etcdutil.Heartbeat name taskID interval sel c).2
  /\ exists (oks : list Response) (last : result EtcdError Response),
       calls run.1
         = CallSet (TaskHealthyPath name taskID) "health" ttl
           <$> ((Ok <$> oks) ++ [last])
       /\ take (length oks) sel = replicate (length oks) etcdutil.afterInterval
       /\ match run.2 with
          | etcdutil.returned (Some e) => last = Err e
          | etcdutil.returned None =>
              is_ok last = true
              /\ sel !! length oks = Some etcdutil.fromStop
          | etcdutil.sleeping =>
              is_ok last = true /\ length sel = length oks
          end.
Proof.
  intros Hint ttl run. split; [by apply computeTTL_max |].
  pose proof (Heartbeat_recording name taskID interval sel (recording c))
    as Hrec.
  cbv zeta in Hrec. rewrite (computeTTL_max interval Hint) in Hrec.
  exact Hrec.
Qed.

Lemma Heartbeat_sets_health_witness :
  exists ev1 ev2,
    calls (etcdutil.Heartbeat "job" 1 1500000000
             [etcdutil.afterInterval; etcdutil.fromStop]
             (recording exampleStore)).1
    = [CallSet "/job/healthy/1" "health" 3 (Ok ev1);
       CallSet "/job/healthy/1" "health" 3 (Ok ev2)].
Proof.
  destruct (Heartbeat_sets_health "job" 1 1500000000
              [etcdutil.afterInterval; etcdutil.fromStop] exampleStore)
    as (Httl & _ & _ & oks & last & Hcalls & _).
  - vm_compute. split; [discriminate | reflexivity].
  - eexists _, _. vm_compute. reflexivity.
Defined.

(** ** WaitFreeTask *)





(** The watches of a node that has read the empty directory at index 4
    while another client creates an entry: the first watch, from index
    5, is registered at index 4 and answered by the "create" at index 5;
    its answer carries index 4, so the second watch is from index 5
    again and is answered at once by the same event, registered at index
    5; the third watch is from index 6. *)
Lemma WaitFreeTask_watches_again :
  exists slots create,
    calls (etcdutil.WaitFreeTask "job" (fun _ => 0) 3
             (recording
                (mkWorld exampleStore
                   [mkChange "create" "/job/freetasks/2" "failed"]))).1
    = [CallGet "/job/freetasks" false true (Ok slots);
       CallWatch "/job/freetasks" 5 true (Ok (mkResponse "create" create 4));
       CallWatch "/job/freetasks" 5 true (Ok (mkResponse "create" create 5));
       CallWatch "/job/freetasks" 6 true (Err ErrUnreachable)]
    /\ EtcdIndex slots = 4
    /\ create = mkNode "/job/freetasks/2" "failed" [].
Proof. eexists _, _. split_and?; vm_compute; reflexivity. Qed.

(** ** The goroutines that call the task *)

Lemma activeCall_None g act : activeCall g act = None -> g ∉ act.*1.
Proof.
  induction act as [| [g' call] act IH]; cbn; [intros _; apply not_elem_of_nil |].
  destruct (decide (g = g')); [done |]. intros Hact.
  apply not_elem_of_cons. split; [done | by apply IH].
Qed.

Lemma activeCall_Some g call act :
  activeCall g act = Some call -> In (g, call) act.
Proof.
  induction act as [| [g' call'] act IH]; cbn; [done |].
  destruct (decide (g = g')) as [<- |]; [intros [= ->]; by left |].
  intros Hact. right. by apply IH.
Qed.

Lemma retire_subset g act x : In x (retire g act) -> In x act.
Proof.
  induction act as [| [g' call] act IH]; cbn; [done |].
  destruct (decide (g = g')); [by right |].
  intros [<- | Hin]; [by left | right; by apply IH].
Qed.

Lemma retire_fst_subset g g' act : g' ∈ (retire g act).*1 -> g' ∈ act.*1.
Proof.
  intros Hin. apply list_elem_of_fmap in Hin as ([g0 call] & -> & Hin).
  apply list_elem_of_fmap. exists (g0, call). split; [done |].
  by apply list_elem_of_In, (retire_subset g), list_elem_of_In.
Qed.

Lemma retire_NoDup g act : NoDup act.*1 -> NoDup (retire g act).*1.
Proof.
  induction act as [| [g' call] act IH]; cbn; [done |].
  intros Hnd. apply NoDup_cons in Hnd as [Hnotin Hnd].
  destruct (decide (g = g')); [done |]. cbn.
  apply NoDup_cons. split; [| by apply IH].
  intros Hin. by apply Hnotin, (retire_fst_subset g).
Qed.

Lemma retire_gone g act : NoDup act.*1 -> g ∉ (retire g act).*1.
Proof.
  induction act as [| [g' call] act IH]; cbn; [intros _; apply not_elem_of_nil |].
  intros Hnd. apply NoDup_cons in Hnd as [Hnotin Hnd].
  destruct (decide (g = g')) as [<- |]; [done |]. cbn.
  apply not_elem_of_cons. split; [done | by apply IH].
Qed.

Lemma invariant_boot (f : framework) (n : node) :
  startWatches f = Done n -> invariant (boot n).
Proof.
  rewrite startWatches_Done. intros [= <-]. split; cbn.
  - apply Forall_app. split; apply Forall_fmap, Forall_forall; intros; cbn; eauto.
  - constructor.
  - done.
  - intros k Hin. by apply elem_of_nil in Hin.
  - intros k call ph Hlook. by rewrite lookup_nil in Hlook.
Qed.

Lemma invariant_enter g call n pc sp st :
  invariant st -> caller call g -> g ∉ (active st).*1 ->
  Forall (fun w => w_taskCallback w = ParentMetaReady
                   \/ w_taskCallback w = ChildMetaReady) (stops n) ->
  (forall k, gData k ∈ (active st).*1 ++ [g] ->
             exists call, sp !! k = Some (call, calling)) ->
  (forall k call ph, sp !! k = Some (call, ph) -> caller call (gData k)) ->
  invariant (mkSystem n pc (active st ++ [(g, call)]) sp true).
Proof.
  intros Hinv Hcaller Hnotin Hws Hcalling Hsp. split; cbn.
  - done.
  - rewrite fmap_app. apply NoDup_app. split_and?.
    + apply Hinv.
    + intros g' Hin Hin'. apply list_elem_of_singleton in Hin'. by subst.
    + apply NoDup_singleton.
  - intros g' call' Hin. apply in_app_or in Hin as [Hin | [[= <- <-] | []]];
      [by apply Hinv | done].
  - intros k Hin. rewrite fmap_app in Hin. by apply Hcalling.
  - done.
Qed.

Lemma invariant_leave g sp st :
  invariant st ->
  (forall k, gData k ∈ (retire g (active st)).*1 ->
             exists call, sp !! k = Some (call, calling)) ->
  (forall k call ph, sp !! k = Some (call, ph) -> caller call (gData k)) ->
  invariant (mkSystem (sys_node st) (mainAt st) (retire g (active st)) sp true).
Proof.
  intros Hinv Hcalling Hsp. split; cbn.
  - apply Hinv.
  - apply retire_NoDup, Hinv.
  - intros g' call' Hin. by apply Hinv, (retire_subset g).
  - done.
  - done.
Qed.

(** A change of the node that keeps the callbacks of its watchers
    keeps the invariant. *)
Lemma invariant_node n pc al st :
  invariant st ->
  Forall (fun w => w_taskCallback w = ParentMetaReady
                   \/ w_taskCallback w = ChildMetaReady) (stops n) ->
  invariant (mkSystem n pc (active st) (spawned st) al).
Proof. intros Hinv Hws. split; cbn; try apply Hinv. done. Qed.

Lemma withReceiver_watchers n i w rc :
  stops n !! i = Some w ->
  Forall (fun w => w_taskCallback w = ParentMetaReady
                   \/ w_taskCallback w = ChildMetaReady) (stops n) ->
  Forall (fun w => w_taskCallback w = ParentMetaReady
                   \/ w_taskCallback w = ChildMetaReady)
         (stops (withReceiver n i w rc)).
Proof.
  intros Hw Hws. cbn. apply Forall_insert; [done |]. cbn.
  by eapply Forall_lookup_1 in Hws.
Qed.

Lemma no_begin g call : In (Begin g call) [] -> caller call g.
Proof. by intros []. Qed.

(** One step keeps the invariant, and the calls it begins are made by
    their callers. *)
Lemma step_invariant st a st' tr :
  invariant st -> step st a = Some (st', tr) ->
  invariant st' /\ forall g call, In (Begin g call) tr -> caller call g.
Proof.
  intros Hinv Hstep. unfold step in Hstep.
  destruct (alive st); cbn [negb] in Hstep; [| done].
  pose proof (inv_watchers _ Hinv) as Hws.
  destruct a as [[| | i | | k] | i resp | resp | dataResp]; cbn in Hstep.
  - (* the main goroutine *)
    unfold stepMain in Hstep.
    destruct (activeCall gMain (active st)) as [call |] eqn:Hact.
    + injection Hstep as <- <-. split.
      * apply invariant_leave; [done | | apply Hinv].
        intros k Hin. by apply Hinv, (retire_fst_subset gMain).
      * by intros g c [[=] | []].
    + apply activeCall_None in Hact.
      assert (Henter : forall call pc,
                caller call gMain ->
                invariant (mkSystem (sys_node st) pc
                             (active st ++ [(gMain, call)]) (spawned st) true)
                /\ forall g c, In (Begin g c) [Begin gMain call] -> caller c g).
      { intros call pc Hcall. split.
        - apply invariant_enter; try done; [| apply Hinv].
          intros k Hin. apply elem_of_app in Hin as [Hin | Hin];
            [by apply Hinv | by apply list_elem_of_singleton in Hin].
        - by intros g c [[= <- <-] | []]. }
      destruct (mainAt st).
      * injection Hstep as <- <-. by apply Henter.
      * destruct (epoch (fw (sys_node st)) =? maxUint64).
        -- injection Hstep as <- <-. split; [by apply invariant_node |].
           apply no_begin.
        -- injection Hstep as <- <-. by apply Henter.
      * destruct (recv (epochChan _)) as [[e ch] |].
        -- injection Hstep as <- <-. split; [by apply invariant_node |].
           apply no_begin.
        -- destruct (recv (epochStop _)) as [[b ch] |]; [| done].
           injection Hstep as <- <-. split; [by apply invariant_node |].
           apply no_begin.
      * done.
  - (* the epoch watcher *)
    unfold stepEpochWatcher in Hstep.
    destruct (recv (ew_receiver _)) as [[resp rc] |]; [| done].
    destruct (epochEvent resp) as [[e |] | msg].
    + destruct (send _ e) as [ch |]; [| done].
      injection Hstep as <- <-. split; [by apply invariant_node |].
      apply no_begin.
    + injection Hstep as <- <-. split; [by apply invariant_node |].
      apply no_begin.
    + injection Hstep as <- <-. split; [by apply invariant_node |].
      apply no_begin.
  - (* a watcher *)
    unfold stepWatcher in Hstep.
    destruct (activeCall (gWatcher i) (active st)) as [call |] eqn:Hact.
    + injection Hstep as <- <-. split.
      * apply invariant_leave; [done | | apply Hinv].
        intros k Hin. by apply Hinv, (retire_fst_subset (gWatcher i)).
      * by intros g c [[=] | []].
    + apply activeCall_None in Hact.
      destruct (stops (sys_node st) !! i) as [w |] eqn:Hw; [| done].
      destruct (recv (w_receiver w)) as [[resp rc] |]; [| done].
      pose proof (withReceiver_watchers _ _ _ rc Hw Hws) as Hws'.
      destruct (watcherEvent w resp) as [call |] eqn:Hev.
      * injection Hstep as <- <-.
        assert (Hcall : caller call (gWatcher i)).
        { unfold watcherEvent in Hev.
          destruct (negb _); [done |]. injection Hev as <-.
          eapply Forall_lookup_1 in Hws; [| exact Hw].
          by destruct Hws as [-> | ->]. }
        split.
        -- apply invariant_enter; try done; [| apply Hinv].
           intros k Hin. apply elem_of_app in Hin as [Hin | Hin];
             [by apply Hinv | by apply list_elem_of_singleton in Hin].
        -- by intros g c [[= <- <-] | []].
      * injection Hstep as <- <-. split; [by apply invariant_node |].
        apply no_begin.
  - (* the dispatcher *)
    unfold stepDispatcher in Hstep.
    destruct (recv (dataRespChan _)) as [[dataResp ch] |]; [| done].
    destruct (dataResponseReceive _ dataResp) as [call | msg] eqn:Hcall.
    + injection Hstep as <- <-. split; [| apply no_begin].
      split; cbn; try apply Hinv.
      * intros k Hin. destruct (inv_calling _ Hinv k Hin) as [c Hc].
        exists c. by apply lookup_app_l_Some.
      * intros k c ph Hlook.
        apply lookup_app_Some in Hlook as [Hlook | [_ Hlook]];
          [exact (inv_spawned _ Hinv _ _ _ Hlook) |].
        apply list_lookup_singleton_Some in Hlook as [_ [= <- <-]].
        unfold dataResponseReceive in Hcall.
        by destruct (parentOrChild _ _); simplify_eq.
    + injection Hstep as <- <-. split; [by apply invariant_node |].
      apply no_begin.
  - (* a goroutine started by the dispatcher *)
    unfold stepData in Hstep.
    destruct (spawned st !! k) as [[call []] |] eqn:Hk; try done.
    + injection Hstep as <- <-.
      assert (Hnotin : gData k ∉ (active st).*1).
      { intros Hin. destruct (inv_calling _ Hinv k Hin) as [c Hc].
        congruence. }
      split.
      * apply invariant_enter; try done.
        -- exact (inv_spawned _ Hinv _ _ _ Hk).
        -- intros k' Hin. destruct (decide (k' = k)) as [-> |].
           ++ exists call. apply list_lookup_insert_eq.
              by eapply lookup_lt_Some.
           ++ apply elem_of_app in Hin as [Hin | Hin].
              ** destruct (inv_calling _ Hinv k' Hin) as [c Hc].
                 exists c. by rewrite list_lookup_insert_ne.
              ** apply list_elem_of_singleton in Hin. congruence.
        -- intros k' c ph Hlook. destruct (decide (k' = k)) as [-> |].
           ++ rewrite list_lookup_insert_eq in Hlook
                by (by eapply lookup_lt_Some).
              injection Hlook as <- <-. exact (inv_spawned _ Hinv _ _ _ Hk).
           ++ rewrite list_lookup_insert_ne in Hlook by done.
              exact (inv_spawned _ Hinv _ _ _ Hlook).
      * intros g c [[= <- <-] | []]. exact (inv_spawned _ Hinv _ _ _ Hk).
    + injection Hstep as <- <-. split.
      * apply invariant_leave; [done | |].
        -- intros k' Hin. destruct (decide (k' = k)) as [-> |].
           ++ by apply retire_gone in Hin; [| apply Hinv].
           ++ apply retire_fst_subset in Hin.
              destruct (inv_calling _ Hinv k' Hin) as [c Hc].
              exists c. by rewrite list_lookup_insert_ne.
        -- intros k' c ph Hlook. destruct (decide (k' = k)) as [-> |].
           ++ rewrite list_lookup_insert_eq in Hlook
                by (by eapply lookup_lt_Some).
              injection Hlook as <- <-. exact (inv_spawned _ Hinv _ _ _ Hk).
           ++ rewrite list_lookup_insert_ne in Hlook by done.
              exact (inv_spawned _ Hinv _ _ _ Hlook).
      * by intros g c [[=] | []].
  - (* etcd hands a response to a watcher *)
    destruct (stops (sys_node st) !! i) as [w |] eqn:Hw; [| done].
    cbn in Hstep. destruct (send (w_receiver w) resp) as [rc |]; [| done].
    cbn in Hstep. injection Hstep as <- <-.
    split; [| apply no_begin].
    apply invariant_node; [done |]. by apply withReceiver_watchers.
  - (* etcd hands a response to the epoch watcher *)
    destruct (send (ew_receiver _) resp) as [rc |]; [| done].
    cbn in Hstep. injection Hstep as <- <-.
    split; [by apply invariant_node | apply no_begin].
  - (* a data response arrives *)
    destruct (send (dataRespChan _) dataResp) as [ch |]; [| done].
    cbn in Hstep. injection Hstep as <- <-.
    split; [by apply invariant_node | apply no_begin].
Qed.

Lemma exec_invariant acts : forall st st' tr,
  invariant st -> exec st acts = Some (st', tr) ->
  invariant st' /\ forall g call, In (Begin g call) tr -> caller call g.
Proof.
  induction acts as [| a acts IH]; intros st st' tr Hinv Hexec; cbn in Hexec.
  - injection Hexec as <- <-. split; [done | apply no_begin].
  - destruct (step st a) as [[st1 tr1] |] eqn:Hstep; [| done]. cbn in Hexec.
    destruct (exec st1 acts) as [[st2 tr2] |] eqn:Hrest; [| done].
    cbn in Hexec. injection Hexec as <- <-.
    destruct (step_invariant _ _ _ _ Hinv Hstep) as [Hinv1 Htr1].
    destruct (IH _ _ _ Hinv1 Hrest) as [Hinv2 Htr2].
    split; [done |]. intros g call Hin.
    apply in_app_or in Hin as [Hin | Hin]; [by apply Htr1 | by apply Htr2].
Qed.

Lemma exampleNode_started : startWatches exampleFramework = Done exampleNode.
Proof. reflexivity. Qed.

(** C9, as stated, fails: in the run of the examples the watcher of
    parent 0 begins [ParentMetaReady] and a goroutine started by the
    dispatcher begins [ParentDataReady] while the main goroutine is
    still in [SetEpoch]: three calls into the task are in progress at
    once, two of them made outside the main loop. *)
Lemma callbacks_single_threaded_counterexample :
  exists st tr,
    startWatches exampleFramework = Done exampleNode
    /\ exec (boot exampleNode) exampleRun = Some (st, tr)
    /\ active st
       = [(gMain, SetEpoch 0);
          (gWatcher 0, ParentMetaReady 0 "ParamReady");
          (gData 0,
           ParentDataReady 0 "ParamReady" (list_ascii_of_string "param"))]
    /\ In (Begin (gWatcher 0) (ParentMetaReady 0 "ParamReady")) tr
    /\ gWatcher 0 <> gMain.
Proof.
  eexists _, _.
  split; [reflexivity |].
  split; [vm_compute; reflexivity |].
  split; [reflexivity |].
  split; [| discriminate].
  do 3 right. by left.
Qed.

(** C9 (amended): in every run of a started node, [Init] and [SetEpoch]
    are called by the main goroutine, [ParentMetaReady] and
    [ChildMetaReady] by the goroutine of a neighbour's watcher, and
    [ParentDataReady] and [ChildDataReady] by goroutines that the
    data-response dispatcher starts, one for each response; a goroutine
    is in one call at a time. *)
Theorem callbacks_by_goroutine (f : framework) (n : node)
    (acts : list action) (st : system) (tr : list event) :
  startWatches f = Done n ->
  exec (boot n) acts = Some (st, tr) ->
  (forall g call, In (Begin g call) tr -> caller call g)
  /\ NoDup (active st).*1
  /\ (forall g call, In (g, call) (active st) -> caller call g).
Proof.
  intros Hstart Hexec.
  destruct (exec_invariant acts _ _ _ (invariant_boot f n Hstart) Hexec)
    as [Hinv Htr].
  split_and?; [done | apply Hinv | apply Hinv].
Qed.

Lemma callbacks_by_goroutine_witness :
  exists st tr,
    exec (boot exampleNode) exampleRun = Some (st, tr)
    /\ (forall g call, In (Begin g call) tr -> caller call g)
    /\ NoDup (active st).*1.
Proof.
  eexists _, _. split; [vm_compute; reflexivity |].
  edestruct (callbacks_by_goroutine exampleFramework exampleNode exampleRun)
    as (Htr & Hserial & _).
  - reflexivity.
  - vm_compute. reflexivity.
  - split; [exact Htr | exact Hserial].
Defined.

(** ** The older snapshot *)

(** In framework.go the first epoch gets no [SetEpoch]: the loop waits
    on the epoch channel first. *)
Lemma Earlier_mainLoop_first_epoch (epoch : Z) :
  epoch <> maxUint64 ->
  Earlier.mainLoop epoch [] = ([], epoch, loopSelect)
  /\ forall epoch' sel,
       exists tr, (Earlier.mainLoop epoch (fromEpochChan epoch' :: sel)).1.1
                  = tr
                  /\ (epoch' <> maxUint64 -> head tr = Some (SetEpoch epoch')).
Proof.
  intros Hne. apply Z.eqb_neq in Hne. split.
  - cbn. by rewrite Hne.
  - intros epoch' sel. eexists. split; [reflexivity |].
    intros Hne'. apply Z.eqb_neq in Hne'. cbn [Earlier.mainLoop].
    rewrite Hne. by destruct (Earlier.mainLoop epoch' sel) as [[tr e] l].
Qed.

(** In framework.go the epoch watcher passes over the events of
    [CompareAndSwap], the call by which [IncEpoch] changes the epoch. *)
Lemma Earlier_epochEvent_compareAndSwap (node : Node) (i : Z) :
  Earlier.epochEvent (mkResponse "compareAndSwap" node i) = Done None.
Proof. reflexivity. Qed.

(** * Further properties *)

(** ** Paths and numbers of the layout *)

Lemma append_cons (c : ascii) (s t : string) :
  String c s +:+ t = String c (s +:+ t).
Proof. reflexivity. Qed.

Lemma append_nil_r (s : string) : s +:+ "" = s.
Proof.
  induction s as [| c s IH]; [done |]. by rewrite append_cons, IH.
Qed.

Lemma append_assoc' (a b c : string) : (a +:+ b) +:+ c = a +:+ (b +:+ c).
Proof.
  induction a as [| x a IH]; [done |]. by rewrite !append_cons, IH.
Qed.

Lemma append_inv_head (s x y : string) : s +:+ x = s +:+ y -> x = y.
Proof.
  induction s as [| c s IH]; [done |]. rewrite !append_cons.
  intros [= Heq]. by apply IH.
Qed.

Lemma split_nonnil (p : string) : path.split p <> [].
Proof.
  destruct p as [| c p]; cbn; [done |].
  destruct (Ascii.eqb c path.slash); [done |].
  by destruct (path.split p).
Qed.

Lemma split_noSlash (s : string) : noSlash s = true -> path.split s = [s].
Proof.
  induction s as [| c s IH]; cbn; [done |].
  intros [Hc Hs]%andb_true_iff. apply negb_true_iff in Hc. rewrite Hc.
  by rewrite (IH Hs).
Qed.

Lemma split_app_slash (a b : string) :
  path.split (a +:+ String path.slash b) = path.split a ++ path.split b.
Proof.
  induction a as [| c a IH].
  - change ("" +:+ String path.slash b) with (String path.slash b).
    cbn [path.split]. by rewrite Ascii.eqb_refl.
  - rewrite append_cons. cbn [path.split].
    destruct (Ascii.eqb c path.slash); [by rewrite IH |].
    rewrite IH. pose proof (split_nonnil a) as Hne.
    by destruct (path.split a).
Qed.

Lemma element_noSlash e : element e = true -> noSlash e = true.
Proof. unfold element. by intros [_ H]%andb_true_iff. Qed.

Lemma element_nonempty e : element e = true -> e <> "".
Proof.
  unfold element. intros [[[H _]%andb_true_iff _]%andb_true_iff _]%andb_true_iff.
  apply negb_true_iff in H. by apply String.eqb_neq.
Qed.

Lemma cleanStep_element rooted out e :
  element e = true -> path.cleanStep rooted out e = e :: out.
Proof.
  unfold element, path.cleanStep.
  intros [[[H1 H2]%andb_true_iff H3]%andb_true_iff _]%andb_true_iff.
  apply negb_true_iff in H1, H2, H3. by rewrite H1, H2, H3.
Qed.

Lemma cleanStep_nonempty rooted out e :
  Forall (fun x => x <> "") out ->
  Forall (fun x => x <> "") (path.cleanStep rooted out e).
Proof.
  intros Hout. unfold path.cleanStep.
  destruct (String.eqb_spec e ""); [done |].
  destruct (String.eqb e "."); [done |].
  destruct (String.eqb e "..").
  - destruct out as [| top out']; [destruct rooted; by repeat constructor |].
    destruct (String.eqb top ".."); [by constructor |].
    by apply Forall_inv_tail in Hout.
  - by constructor.
Qed.

Lemma fold_cleanStep_nonempty rooted es : forall out,
  Forall (fun x => x <> "") out ->
  Forall (fun x => x <> "") (fold_left (path.cleanStep rooted) es out).
Proof.
  induction es as [| e es IH]; intros out Hout; cbn; [done |].
  by apply IH, cleanStep_nonempty.
Qed.

Lemma join_snoc (l : list string) (c : string) :
  path.join (l ++ [c])
  = match l with
    | [] => c
    | _ => path.join l +:+ String path.slash c
    end.
Proof.
  induction l as [| h l IH]; [done |].
  destruct l as [| h' l]; [done |].
  change (path.join ((h :: h' :: l) ++ [c]))
    with (h +:+ String path.slash (path.join ((h' :: l) ++ [c]))).
  rewrite IH.
  change (path.join (h :: h' :: l))
    with (h +:+ String path.slash (path.join (h' :: l))).
  by rewrite append_assoc'.
Qed.

Lemma join_nonempty (l : list string) :
  l <> [] -> Forall (fun x => x <> "") l -> path.join l <> "".
Proof.
  destruct l as [| h l]; [done |]. intros _ Hall.
  apply Forall_inv in Hall.
  destruct l as [| h' l]; [done |].
  change (path.join (h :: h' :: l))
    with (h +:+ String path.slash (path.join (h' :: l))).
  by destruct h.
Qed.

Lemma under_not_root dir e : element e = true -> under dir e <> "/".
Proof.
  intros He%element_nonempty. unfold under.
  destruct (if String.eqb dir "/" then "" else dir) as [| c d].
  - change ("" +:+ String path.slash e) with (String path.slash e).
    intros [= Heq]. done.
  - rewrite append_cons. intros [= _ Heq]. by destruct d.
Qed.

Lemma under_under dir e e' :
  element e = true ->
  under (under dir e) e' = under dir e +:+ String path.slash e'.
Proof.
  intros He. unfold under at 1.
  pose proof (under_not_root dir e He) as Hne.
  apply String.eqb_neq in Hne. by rewrite Hne.
Qed.

(** Cleaning a rooted path with one more element below it. *)
Lemma Clean_snoc (p c : string) :
  element c = true ->
  path.Clean (String path.slash p +:+ String path.slash c)
  = under (path.Clean (String path.slash p)) c.
Proof.
  intros Hc.
  change (String path.slash p +:+ String path.slash c)
    with (String path.slash (p +:+ String path.slash c)).
  unfold path.Clean. rewrite Ascii.eqb_refl.
  change (String path.slash (p +:+ String path.slash c))
    with (String path.slash p +:+ String path.slash c).
  rewrite split_app_slash, (split_noSlash c (element_noSlash _ Hc)).
  rewrite fold_left_app. cbn [fold_left].
  rewrite cleanStep_element by done.
  pose proof (fold_cleanStep_nonempty true (path.split (String path.slash p))
                [] ltac:(constructor)) as Hne.
  destruct (fold_left (path.cleanStep true) (path.split (String path.slash p)) [])
    as [| top out] eqn:Hout.
  - reflexivity.
  - cbn [rev]. rewrite join_snoc.
    assert (Hrev : rev out ++ [top] <> []) by (by destruct (rev out)).
    assert (Hj : path.join (rev out ++ [top]) <> "").
    { apply join_nonempty; [done |].
      change (rev out ++ [top]) with (rev (top :: out)).
      by apply List.Forall_rev. }
    destruct (rev out ++ [top]) as [| h l] eqn:Hl; [done |].
    unfold under.
    assert (String.eqb (String path.slash (path.join (h :: l))) "/" = false)
      as ->.
    { apply String.eqb_neq. intros [= Heq]. done. }
    reflexivity.
Qed.

Lemma join_rooted (rest : list string) :
  exists p, path.join ("/" :: rest) = String path.slash p.
Proof. destruct rest; cbn; eauto. Qed.

(** Joining one more element below a rooted path. *)
Lemma Join_snoc (rest : list string) (c : string) :
  element c = true ->
  path.Join (("/" :: rest) ++ [c]) = under (path.Join ("/" :: rest)) c.
Proof.
  intros Hc. unfold path.Join.
  change (path.dropEmpty (("/" :: rest) ++ [c])) with (("/" :: rest) ++ [c]).
  change (path.dropEmpty ("/" :: rest)) with ("/" :: rest).
  cbn [app]. change ("/" :: rest ++ [c]) with (("/" :: rest) ++ [c]).
  rewrite join_snoc.
  destruct (join_rooted rest) as [p Hp]. rewrite Hp.
  by apply Clean_snoc.
Qed.

Lemma Base_snoc (d c : string) :
  element c = true -> path.Base (d +:+ String path.slash c) = c.
Proof.
  intros Hc. unfold path.Base.
  rewrite split_app_slash, (split_noSlash c (element_noSlash _ Hc)).
  rewrite rev_app_distr. cbn [rev app].
  pose proof (element_nonempty _ Hc) as Hne. apply String.eqb_neq in Hne.
  cbn [path.stripSlashes]. rewrite Hne.
  by destruct d.
Qed.

Lemma digitChar_digit d :
  0 <= d < 10 ->
  (48 <=? strconv.byteZ (strconv.digitChar d))
  && (strconv.byteZ (strconv.digitChar d) <=? 57) = true.
Proof.
  intros Hd.
  assert (Hc : d = 0 \/ d = 1 \/ d = 2 \/ d = 3 \/ d = 4 \/ d = 5 \/ d = 6
               \/ d = 7 \/ d = 8 \/ d = 9) by lia.
  repeat (destruct Hc as [-> | Hc]; [reflexivity |]).
  subst d. reflexivity.
Qed.

Lemma formatBits_digitsOnly fuel : forall x a,
  digitsOnly a = true -> digitsOnly (strconv.formatBits fuel x a) = true.
Proof.
  induction fuel as [| fuel IH]; intros x a Ha; cbn [strconv.formatBits];
    [done |].
  cbv zeta.
  assert (Ha' : digitsOnly (String (strconv.digitChar (x mod 10)) a) = true).
  { cbn [digitsOnly]. rewrite digitChar_digit, Ha; [done |].
    apply Z.mod_pos_bound. lia. }
  destruct (x <? 10); [done | by apply IH].
Qed.

Lemma FormatUint_digitsOnly x : digitsOnly (strconv.FormatUint x) = true.
Proof. by apply formatBits_digitsOnly. Qed.

Lemma digit_not_slash c :
  (48 <=? strconv.byteZ c) && (strconv.byteZ c <=? 57) = true ->
  Ascii.eqb c path.slash = false /\ Ascii.eqb c "." = false.
Proof.
  intros Hc. split; apply Ascii.eqb_neq; intros ->; vm_compute in Hc;
    discriminate.
Qed.

Lemma digitsOnly_noSlash s : digitsOnly s = true -> noSlash s = true.
Proof.
  induction s as [| c s IH]; cbn [digitsOnly noSlash]; [done |].
  intros [Hc Hs]%andb_true_iff.
  destruct (digit_not_slash c Hc) as [-> _]. by rewrite IH.
Qed.

Lemma digitsOnly_element s :
  digitsOnly s = true -> s <> "" -> element s = true.
Proof.
  intros Hs Hne. unfold element.
  rewrite (digitsOnly_noSlash s Hs), andb_true_r.
  destruct s as [| c s]; [done |].
  cbn [digitsOnly] in Hs. apply andb_true_iff in Hs as [Hc _].
  destruct (digit_not_slash c Hc) as [_ Hdot].
  assert (Hd : c <> "."%char) by (by apply Ascii.eqb_neq).
  assert (String.eqb (String c s) "" = false) as -> by done.
  assert (String.eqb (String c s) "." = false) as ->.
  { apply String.eqb_neq. intros [= -> _]. done. }
  assert (String.eqb (String c s) ".." = false) as ->.
  { apply String.eqb_neq. intros [= -> _]. done. }
  done.
Qed.

Lemma FormatUint_element x : element (strconv.FormatUint x) = true.
Proof.
  apply digitsOnly_element; [apply FormatUint_digitsOnly |].
  apply FormatUint_nonempty.
Qed.

Lemma formatBits_head fuel : forall x a,
  0 < x < 10 ^ Z.of_nat fuel ->
  exists c rest, strconv.formatBits fuel x a = String c rest /\ c <> "0"%char.
Proof.
  induction fuel as [| fuel IH]; intros x a Hx.
  - change (10 ^ Z.of_nat 0) with 1 in Hx. lia.
  - cbn [strconv.formatBits]. cbv zeta.
    assert (Hpow : 10 ^ Z.of_nat (S fuel) = 10 * 10 ^ Z.of_nat fuel).
    { rewrite Nat2Z.inj_succ, Z.pow_succ_r by lia. reflexivity. }
    destruct (Z.ltb_spec x 10) as [Hlt | Hge].
    + eexists _, _. split; [reflexivity |].
      rewrite Z.mod_small by lia.
      assert (Hc : x = 1 \/ x = 2 \/ x = 3 \/ x = 4 \/ x = 5 \/ x = 6
                   \/ x = 7 \/ x = 8 \/ x = 9) by lia.
      repeat (destruct Hc as [-> | Hc]; [done |]). by subst x.
    + apply IH.
      pose proof (Z.div_mod x 10 ltac:(lia)) as Hdiv.
      pose proof (Z.mod_pos_bound x 10 ltac:(lia)) as Hmod.
      lia.
Qed.

(** What [FormatUint] writes is read back by [ParseUint] in base 0 too:
    the string has no prefix that selects another base. *)
Lemma ParseUint0_FormatUint x :
  0 <= x <= maxUint64 ->
  strconv.ParseUint (strconv.FormatUint x) 0 64 = Ok x.
Proof.
  intros Hx. destruct (decide (x = 0)) as [-> | Hne]; [reflexivity |].
  rewrite <- (ParseUint_FormatUint x Hx).
  destruct (formatBits_head 20 x EmptyString) as (c & rest & Heq & Hc).
  { unfold maxUint64 in Hx. lia. }
  unfold strconv.FormatUint. rewrite Heq.
  apply Ascii.eqb_neq in Hc.
  unfold strconv.ParseUint.
  change ((2 <=? 0) && (0 <=? 36)) with false.
  change ((2 <=? 10) && (10 <=? 36)) with true.
  change (0 =? 0) with true. cbv iota.
  rewrite Hc. cbn [andb]. by destruct rest.
Qed.

Arguments under : simpl never.
Arguments JobEpochPath : simpl never.
Arguments FreeTaskPath : simpl never.

Lemma element_tasks : element TasksDir = true.
Proof. reflexivity. Qed.

Lemma TaskDirPath_under appName :
  TaskDirPath appName = under (path.Join ["/"; appName]) TasksDir.
Proof. exact (Join_snoc [appName] TasksDir element_tasks). Qed.

Lemma TaskDirPath_not_root appName : String.eqb (TaskDirPath appName) "/" = false.
Proof.
  rewrite TaskDirPath_under. apply String.eqb_neq, under_not_root.
  reflexivity.
Qed.

(** The path of element [e] of task [taskID]. *)
Lemma task_path appName taskID e :
  element e = true ->
  path.Join ["/"; appName; TasksDir; strconv.FormatUint taskID; e]
  = (TaskDirPath appName +:+ String path.slash (strconv.FormatUint taskID))
    +:+ String path.slash e.
Proof.
  intros He.
  change (path.Join ["/"; appName; TasksDir; strconv.FormatUint taskID; e])
    with (path.Join (("/" :: [appName; TasksDir; strconv.FormatUint taskID])
                     ++ [e])).
  rewrite (Join_snoc [appName; TasksDir; strconv.FormatUint taskID] e He).
  change (path.Join ["/"; appName; TasksDir; strconv.FormatUint taskID])
    with (path.Join (("/" :: [appName; TasksDir])
                     ++ [strconv.FormatUint taskID])).
  rewrite (Join_snoc [appName; TasksDir] (strconv.FormatUint taskID)
             (FormatUint_element _)).
  fold (TaskDirPath appName).
  rewrite under_under by apply FormatUint_element.
  unfold under. by rewrite TaskDirPath_not_root.
Qed.

(** X1: whatever the application name, the keys of task [taskID] lie
    below the task directory of the application: [{dir}/{id}/0] for the
    slot, [{dir}/{id}/ParentMeta] and [{dir}/{id}/ChildMeta] for the meta
    flags, with the ID in decimal; and the last element of the entry
    [{dir}/{id}] of the directory is that decimal ID. *)
Theorem layout_below_task_directory (appName : string) (taskID : Z) :
  let entry :=
    TaskDirPath appName +:+ String path.slash (strconv.FormatUint taskID) in
  TaskMasterPath appName taskID = entry +:+ "/0"
  /\ ParentMetaPath appName taskID = entry +:+ "/ParentMeta"
  /\ ChildMetaPath appName taskID = entry +:+ "/ChildMeta"
  /\ path.Base entry = strconv.FormatUint taskID
  /\ path.Base (TaskDirPath appName) = TasksDir.
Proof.
  cbv zeta. split_and?.
  - unfold TaskMasterPath. by rewrite task_path.
  - unfold ParentMetaPath. by rewrite task_path.
  - unfold ChildMetaPath. by rewrite task_path.
  - apply Base_snoc, FormatUint_element.
  - rewrite TaskDirPath_under. unfold under. by apply Base_snoc.
Qed.

Lemma entry_inj (dir a b e : string) :
  noSlash a = true -> noSlash b = true -> noSlash e = true ->
  (dir +:+ String path.slash a) +:+ String path.slash e
  = (dir +:+ String path.slash b) +:+ String path.slash e ->
  a = b.
Proof.
  intros Ha Hb He Heq. rewrite !append_assoc' in Heq.
  apply append_inv_head in Heq. rewrite !append_cons in Heq.
  injection Heq as Heq.
  apply (f_equal path.split) in Heq.
  rewrite !split_app_slash, (split_noSlash a), (split_noSlash b) in Heq by done.
  by injection Heq.
Qed.

Lemma FormatUint_noSlash x : noSlash (strconv.FormatUint x) = true.
Proof. apply digitsOnly_noSlash, FormatUint_digitsOnly. Qed.

Lemma task_path_inj appName i j e :
  0 <= i <= maxUint64 -> 0 <= j <= maxUint64 -> element e = true ->
  path.Join ["/"; appName; TasksDir; strconv.FormatUint i; e]
  = path.Join ["/"; appName; TasksDir; strconv.FormatUint j; e] ->
  i = j.
Proof.
  intros Hi Hj He. rewrite !task_path by done. intros Heq.
  apply entry_inj in Heq;
    [by apply FormatUint_inj | apply FormatUint_noSlash
     | apply FormatUint_noSlash | by apply element_noSlash].
Qed.

Lemma task_path_Base appName i e :
  element e = true ->
  path.Base (path.Join ["/"; appName; TasksDir; strconv.FormatUint i; e]) = e.
Proof. intros He. rewrite task_path by done. by apply Base_snoc. Qed.

(** X2: the keys of the layout do not collide.  For one application,
    the slot keys of two tasks are equal only if the tasks are, and so
    for their ParentMeta keys and their ChildMeta keys; no slot key, no
    ParentMeta key and no ChildMeta key of any two tasks coincide with
    one another, nor with the epoch key. *)
Theorem layout_keys_distinct (appName : string) (i j : Z) :
  0 <= i <= maxUint64 -> 0 <= j <= maxUint64 ->
  (TaskMasterPath appName i = TaskMasterPath appName j -> i = j)
  /\ (ParentMetaPath appName i = ParentMetaPath appName j -> i = j)
  /\ (ChildMetaPath appName i = ChildMetaPath appName j -> i = j)
  /\ ParentMetaPath appName i <> ChildMetaPath appName j
  /\ TaskMasterPath appName i <> ParentMetaPath appName j
  /\ TaskMasterPath appName i <> ChildMetaPath appName j
  /\ JobEpochPath appName <> TaskMasterPath appName i
  /\ JobEpochPath appName <> ParentMetaPath appName i
  /\ JobEpochPath appName <> ChildMetaPath appName i.
Proof.
  intros Hi Hj.
  assert (Hepoch : path.Base (JobEpochPath appName) = Epoch).
  { unfold JobEpochPath.
    change (path.Join ["/"; appName; Epoch])
      with (path.Join (("/" :: [appName]) ++ [Epoch])).
    rewrite Join_snoc by reflexivity. unfold under. by apply Base_snoc. }
  split_and?.
  - by apply task_path_inj.
  - by apply task_path_inj.
  - by apply task_path_inj.
  - intros Heq%(f_equal path.Base). unfold ParentMetaPath, ChildMetaPath in Heq.
    by rewrite !task_path_Base in Heq.
  - intros Heq%(f_equal path.Base). unfold TaskMasterPath, ParentMetaPath in Heq.
    by rewrite !task_path_Base in Heq.
  - intros Heq%(f_equal path.Base). unfold TaskMasterPath, ChildMetaPath in Heq.
    by rewrite !task_path_Base in Heq.
  - intros Heq%(f_equal path.Base). unfold TaskMasterPath in Heq.
    by rewrite Hepoch, task_path_Base in Heq.
  - intros Heq%(f_equal path.Base). unfold ParentMetaPath in Heq.
    by rewrite Hepoch, task_path_Base in Heq.
  - intros Heq%(f_equal path.Base). unfold ChildMetaPath in Heq.
    by rewrite Hepoch, task_path_Base in Heq.
Qed.

Lemma layout_keys_distinct_witness :
  ParentMetaPath "job" 3 <> ChildMetaPath "job" 3
  /\ (TaskMasterPath "job" 3 = TaskMasterPath "job" 3 -> 3 = 3).
Proof.
  destruct (layout_keys_distinct "job" 3 3) as (Hm & _ & _ & Hpc & _).
  - vm_compute. split; discriminate.
  - vm_compute. split; discriminate.
  - split; [exact Hpc | exact Hm].
Defined.

(** X3: the IDs that the layout writes are the IDs that the framework
    reads.  From the entry [{dir}/{id}] of the task directory,
    [occupyTask] reads [id]; from the failure marker of task [id],
    [WaitFreeTask] reads [id] from a listing (base 0) and from a watch
    event (base 10); the liveness key of task [id] has the decimal [id]
    as its last element. *)
Theorem layout_ids_read_back (appName : string) (taskID : Z)
    (value : string) (nodes : list Node) :
  0 <= taskID <= maxUint64 ->
  let id := strconv.FormatUint taskID in
  slotID (mkNode (TaskDirPath appName +:+ String path.slash id) value nodes)
  = Some taskID
  /\ strconv.ParseUint (path.Base (FreeTaskPath appName id)) 0 64 = Ok taskID
  /\ strconv.ParseUint (path.Base (FreeTaskPath appName id)) 10 64 = Ok taskID
  /\ path.Base (TaskHealthyPath appName taskID) = id.
Proof.
  intros Hid id. subst id.
  assert (Hfree : path.Base (FreeTaskPath appName (strconv.FormatUint taskID))
                  = strconv.FormatUint taskID).
  { unfold FreeTaskPath.
    change (path.Join ["/"; appName; FreeTasksDir; strconv.FormatUint taskID])
      with (path.Join (("/" :: [appName; FreeTasksDir])
                       ++ [strconv.FormatUint taskID])).
    rewrite Join_snoc by apply FormatUint_element.
    unfold under. apply Base_snoc, FormatUint_element. }
  split_and?.
  - unfold slotID. cbn [Key].
    rewrite Base_snoc by apply FormatUint_element.
    by rewrite ParseUint0_FormatUint.
  - by rewrite Hfree, ParseUint0_FormatUint.
  - by rewrite Hfree, ParseUint_FormatUint.
  - unfold TaskHealthyPath.
    change (path.Join ["/"; appName; HealthyDir; strconv.FormatUint taskID])
      with (path.Join (("/" :: [appName; HealthyDir])
                       ++ [strconv.FormatUint taskID])).
    rewrite Join_snoc by apply FormatUint_element.
    unfold under. apply Base_snoc, FormatUint_element.
Qed.

Lemma layout_ids_read_back_witness :
  slotID (mkNode "/job/tasks/14" "" []) = Some 14.
Proof.
  destruct (layout_ids_read_back "job" 14 "" []) as (Hslot & _).
  - vm_compute. split; discriminate.
  - exact Hslot.
Defined.

(** ** Roles *)

(** X4: [parentOrChild] answers [roleParent] exactly for the IDs among
    the parents of the current epoch, [roleChild] exactly for the IDs
    among its children that are not also parents, and [roleNone] exactly
    for the IDs in neither list. *)
Theorem parentOrChild_roles (f : framework) (id : Z) :
  let parents := GetParents (topology f) (epoch f) in
  let children := GetChildren (topology f) (epoch f) in
  (parentOrChild f id = roleParent <-> In id parents)
  /\ (parentOrChild f id = roleChild <-> ~ In id parents /\ In id children)
  /\ (parentOrChild f id = roleNone <-> ~ In id parents /\ ~ In id children).
Proof.
  cbv zeta. pose proof (parentOrChild_spec f id) as Hspec.
  destruct (parentOrChild f id); split_and?; split; try done;
    try tauto; try (intros [? ?]; tauto).
Qed.

(** ** Slots on the reference cluster *)

Lemma storeCompareAndSwap_empty (s : store) (key value : string) :
  (exists i, kv s !! key = Some ("empty", i)
             /\ storeCompareAndSwap s key value 0 "empty" 0
                = ((record s "compareAndSwap" key value).1,
                   Ok (record s "compareAndSwap" key value).2))
  \/ ((fst <$> kv s !! key) <> Some "empty"
      /\ exists e, storeCompareAndSwap s key value 0 "empty" 0 = (s, Err e)).
Proof.
  unfold storeCompareAndSwap. change (String.eqb "empty" "" && (0 =? 0)) with false.
  cbv iota. destruct (kv s !! key) as [[v i] |] eqn:Hkv.
  - change (String.eqb "empty" "") with false. cbn [orb].
    change (0 =? 0) with true. rewrite orb_true_l, andb_true_r.
    destruct (String.eqb_spec v "empty") as [-> | Hne].
    + left. exists i. split; [done |]. by destruct (record _ _ _ _).
    + right. cbn. split; [congruence | eauto].
  - right. cbn. split; [done | eauto].
Qed.

(** The loop of [occupyTask] on the reference cluster. *)
Lemma occupyLoop_store (f : framework) (slots : list Node) : forall s : store,
  let run := occupyLoop f slots s in
  match run.2 with
  | Ok id =>
      holder s (name f) id = Some "empty"
      /\ run.1.1
         = (record s "compareAndSwap" (TaskMasterPath (name f) id) (addr f)).1
      /\ exists before after,
           slotIDs slots = before ++ id :: after
           /\ Forall (fun id' => holder s (name f) id' <> Some "empty") before
  | Err e =>
      e = NoUnassignedTask
      /\ run.1.1 = s
      /\ Forall (fun id' => holder s (name f) id' <> Some "empty")
                (slotIDs slots)
  end.
Proof.
  induction slots as [| slot slots IH]; intros s; cbv zeta.
  - cbn. by split_and?.
  - rewrite occupyLoop_cons, slotIDs_cons.
    destruct (slotID slot) as [id |].
    + cbn [CompareAndSwap storeClient].
      destruct (storeCompareAndSwap_empty s (TaskMasterPath (name f) id) (addr f))
        as [(i & Hkv & ->) | (Hne & e & ->)].
      * cbn [snd fst]. split_and?; try done.
        -- unfold holder. by rewrite Hkv.
        -- exists [], (slotIDs slots). by split.
      * specialize (IH s). cbv zeta in IH.
        destruct (occupyLoop f slots s).2 as [id' | e'].
        -- destruct IH as (Hh & Hs & before & after & -> & Hall).
           split_and?; try done.
           exists (id :: before), after. split; [done |]. by constructor.
        -- destruct IH as (-> & Hs & Hall). split_and?; try done.
           by constructor.
    + specialize (IH s). cbv zeta in IH.
      by destruct (occupyLoop f slots s) as [[s' log] [id' | e']].
Qed.

Lemma storeGet_same (s : store) key sort recursive :
  (storeGet s key sort recursive).1 = s.
Proof.
  unfold storeGet. destruct (kv s !! key) as [[v i] |]; [done |].
  destruct (children s key); [by destruct (bool_decide _) | done].
Qed.

Lemma occupyTask_store (f : framework) (s : store) :
  (exists e, occupyTask f s = (s, [], Err (GetFailed e)))
  \/ exists slots,
       (storeGet s (TaskDirPath (name f)) true true) = (s, Ok slots)
       /\ occupyTask f s = occupyLoop f (Nodes (RNode slots)) s.
Proof.
  unfold occupyTask. cbn [Get storeClient].
  pose proof (storeGet_same s (TaskDirPath (name f)) true true) as Hsame.
  destruct (storeGet s (TaskDirPath (name f)) true true) as [s' [slots | e]];
    cbn in Hsame; subst s'; eauto.
Qed.

Lemma occupyTask_store_effect (f : framework) (s : store) :
  let run := occupyTask f s in
  match run.2 with
  | Ok id =>
      holder s (name f) id = Some "empty"
      /\ holder run.1.1 (name f) id = Some (addr f)
      /\ (forall key, key <> TaskMasterPath (name f) id ->
                      kv run.1.1 !! key = kv s !! key)
      /\ exists slots before after,
           (Get s (TaskDirPath (name f)) true true).2 = Ok slots
           /\ slotIDs (Nodes (RNode slots)) = before ++ id :: after
           /\ Forall (fun id' => holder s (name f) id' <> Some "empty") before
  | Err _ => run.1.1 = s
  end.
Proof.
  cbv zeta.
  destruct (occupyTask_store f s) as [[e ->] | (slots & Hget & ->)]; [done |].
  pose proof (occupyLoop_store f (Nodes (RNode slots)) s) as Hloop.
  cbv zeta in Hloop.
  destruct (occupyLoop f (Nodes (RNode slots)) s).2 as [id | e].
  - destruct Hloop as (Hh & -> & before & after & Hids & Hall).
    split_and?; try done.
    + unfold holder. cbn. by rewrite lookup_insert_eq.
    + intros key Hne. cbn. by rewrite lookup_insert_ne.
    + exists slots, before, after. cbn [Get storeClient]. by rewrite Hget.
  - by destruct Hloop as (_ & -> & _).
Qed.

(** X5: on the reference cluster [occupyTask] either fails and leaves
    the cluster as it is, or returns the first ID of the listing whose
    slot holds "empty"; that slot then holds the address of the node and
    no other key has changed. *)
Theorem occupyTask_takes_first_empty (f : framework) (s : store) :
  let run := occupyTask f s in
  match run.2 with
  | Ok id =>
      holder s (name f) id = Some "empty"
      /\ holder run.1.1 (name f) id = Some (addr f)
      /\ (forall key, key <> TaskMasterPath (name f) id ->
                      kv run.1.1 !! key = kv s !! key)
      /\ exists slots before after,
           (Get s (TaskDirPath (name f)) true true).2 = Ok slots
           /\ slotIDs (Nodes (RNode slots)) = before ++ id :: after
           /\ Forall (fun id' => holder s (name f) id' <> Some "empty") before
  | Err _ => run.1.1 = s
  end.
Proof. exact (occupyTask_store_effect f s). Qed.

(** X6: a slot that is held stays held.  If the slot of task [id] holds
    an address (anything but "empty"), [occupyTask] of any node of the
    job does not return [id] and leaves the slot to its holder. *)
Theorem occupyTask_leaves_held_slots (f : framework) (s : store) (id : Z)
    (owner : string) :
  holder s (name f) id = Some owner -> owner <> "empty" ->
  (occupyTask f s).2 <> Ok id
  /\ holder (occupyTask f s).1.1 (name f) id = Some owner.
Proof.
  intros Hheld Hne.
  pose proof (occupyTask_store_effect f s) as Hrun. cbv zeta in Hrun.
  destruct (occupyTask f s) as [[s' log] [id' | e]]; cbn [fst snd] in *.
  - destruct Hrun as (Hempty & _ & Hother & _).
    assert (Hkey : TaskMasterPath (name f) id <> TaskMasterPath (name f) id').
    { intros Heq. unfold holder in Hheld, Hempty. rewrite Heq in Hheld.
      congruence. }
    split.
    + intros [= ->]. congruence.
    + unfold holder. by rewrite (Hother _ Hkey).
  - by subst s'.
Qed.

Lemma occupyTask_leaves_held_slots_witness :
  let taken := (storeSet exampleStore "/job/tasks/0/0" "127.0.0.1:7000" 0).1 in
  (occupyTask exampleFramework taken).2 <> Ok 0
  /\ holder (occupyTask exampleFramework taken).1.1 "job" 0
     = Some "127.0.0.1:7000".
Proof.
  cbv zeta.
  apply (occupyTask_leaves_held_slots exampleFramework
           (storeSet exampleStore "/job/tasks/0/0" "127.0.0.1:7000" 0).1 0
           "127.0.0.1:7000").
  - vm_compute. reflexivity.
  - discriminate.
Defined.

(** X7: once [occupyTask] has returned [id] to a node, [getAddress(id)]
    of every node of the job returns the listener address of that node,
    and [getAddress] changes nothing. *)
Theorem getAddress_after_occupyTask (f g : framework) (s s' : store)
    (log : list string) (id : Z) :
  name g = name f ->
  occupyTask f s = (s', log, Ok id) ->
  getAddress g id s' = (s', Ok (addr f)).
Proof.
  intros Hname Hrun.
  pose proof (occupyTask_store_effect f s) as Heff. cbv zeta in Heff.
  rewrite Hrun in Heff. cbn [fst snd] in Heff.
  destruct Heff as (_ & Hheld & _).
  unfold getAddress. cbn [Get storeClient]. rewrite Hname.
  unfold holder in Hheld. unfold storeGet.
  destruct (kv s' !! TaskMasterPath (name f) id) as [[v i] |]; [| done].
  cbn in Hheld. by injection Hheld as ->.
Qed.

Lemma getAddress_after_occupyTask_witness :
  getAddress exampleParent 0 (occupyTask exampleFramework exampleStore).1.1
  = ((occupyTask exampleFramework exampleStore).1.1, Ok "127.0.0.1:7001").
Proof.
  destruct (occupyTask exampleFramework exampleStore) as [[s' log] r] eqn:Hrun.
  assert (Hr : r = Ok 0).
  { vm_compute in Hrun. by injection Hrun as _ _ <-. }
  subst r.
  exact (getAddress_after_occupyTask exampleFramework exampleParent
           exampleStore s' log 0 eq_refl Hrun).
Defined.

(** ** The epoch on the reference cluster *)

Lemma wrap64_range n : 0 <= wrap64 n <= maxUint64.
Proof.
  unfold wrap64, maxUint64. pose proof (Z.mod_pos_bound n (2 ^ 64)). lia.
Qed.

Lemma fetchEpoch_stored (s : store) (jobName : string) (epoch i : Z) :
  0 <= epoch <= maxUint64 ->
  kv s !! JobEpochPath jobName = Some (strconv.FormatUint epoch, i) ->
  fetchEpoch jobName s = (s, Done (Ok epoch)).
Proof.
  intros He Hkv. unfold fetchEpoch. cbn [Get storeClient].
  unfold storeGet. rewrite Hkv. cbn [Value RNode].
  by rewrite ParseUint_FormatUint.
Qed.

Lemma epochEvent_written (action key : string) (epoch i : Z) :
  action = "set" \/ action = "compareAndSwap" ->
  0 <= epoch <= maxUint64 ->
  epochEvent (mkResponse action (mkNode key (strconv.FormatUint epoch) []) i)
  = Done (Some epoch).
Proof.
  intros Hact He. unfold epochEvent. cbn [Action Value RNode].
  rewrite ParseUint_FormatUint by done.
  by destruct Hact as [-> | ->].
Qed.

Lemma watchStream_recorded (s : store) (action key value : string)
    (waitIndex : Z) :
  waitIndex <= index s + 1 ->
  In (mkResponse action (mkNode key value []) (index s + 1))
     (watchStream (record s action key value).1 key waitIndex false).
Proof.
  intros Hidx. unfold watchStream. cbn [record fst history].
  apply list_elem_of_In, list_elem_of_filter. split.
  - cbn. split; [done |]. unfold watches. by rewrite String.eqb_refl.
  - apply elem_of_app. right. by apply list_elem_of_singleton.
Qed.

(** X8: the epoch that [IncEpoch] writes is the epoch that the other
    nodes read.  When the stored epoch is the local epoch [E] of the
    caller, then after [IncEpoch] a node that starts fetches [E+1] (in
    [uint64]), and the epoch watch of every node of the job delivers an
    event from which the watcher publishes [E+1]. *)
Theorem IncEpoch_read_back (f g : framework) (s : store) (i : Z) :
  name g = name f ->
  0 <= epoch f <= maxUint64 -> 0 <= index s ->
  kv s !! JobEpochPath (name f) = Some (strconv.FormatUint (epoch f), i) ->
  let s' := (IncEpoch f s).1 in
  let next := wrap64 (epoch f + 1) in
  (IncEpoch f s).2 = Done tt
  /\ fetchEpoch (name g) s' = (s', Done (Ok next))
  /\ exists ev,
       In ev (watchStream s' (ew_watchPath (watchEpoch g))
                (ew_waitIndex (watchEpoch g)) false)
       /\ EtcdIndex ev = index s + 1
       /\ epochEvent ev = Done (Some next).
Proof.
  intros Hname HE Hidx Hkv. cbv zeta.
  unfold IncEpoch. cbn [CompareAndSwap storeClient].
  destruct (storeCompareAndSwap_current s (JobEpochPath (name f))
              (strconv.FormatUint (wrap64 (epoch f + 1)))
              (strconv.FormatUint (epoch f)) i (FormatUint_nonempty _) Hkv)
    as (s' & ev & Hswap & Hkv' & _).
  pose proof Hswap as Hswap'. unfold storeCompareAndSwap in Hswap'.
  rewrite Hkv in Hswap'.
  rewrite eqb_FormatUint_empty, String.eqb_refl in Hswap'. cbn in Hswap'.
  injection Hswap' as <- <-.
  rewrite Hswap. cbn [fst snd]. split_and?; [done | |].
  - rewrite Hname. eapply fetchEpoch_stored; [apply wrap64_range | done].
  - eexists. split_and?.
    + cbn [watchEpoch ew_watchPath ew_waitIndex]. rewrite Hname.
      apply (watchStream_recorded s "compareAndSwap"). lia.
    + reflexivity.
    + apply epochEvent_written; [by right | apply wrap64_range].
Qed.

Lemma IncEpoch_read_back_witness :
  fetchEpoch "job" (IncEpoch exampleFramework exampleStore).1
  = ((IncEpoch exampleFramework exampleStore).1, Done (Ok 1)).
Proof.
  destruct (IncEpoch_read_back exampleFramework exampleParent exampleStore 4)
    as (_ & Hfetch & _).
  - reflexivity.
  - vm_compute. split; discriminate.
  - vm_compute. discriminate.
  - reflexivity.
  - exact Hfetch.
Defined.

Lemma mainLoop_sentinel (sel : list selected) :
  mainLoop maxUint64 sel = ([], maxUint64, loopExit).
Proof. by destruct sel as [| []]. Qed.

(** X9: [ShutdownJob] ends the job whatever the epoch key holds.  After
    it the key holds the shutdown epoch: the epoch watch of every node
    of the job delivers an event from which the watcher publishes it, a
    main loop that receives it makes no further call and leaves the
    loop, and a node that starts afterwards makes no [SetEpoch] at
    all. *)
Theorem ShutdownJob_ends_the_job (f : framework) (s : store) :
  0 <= index s ->
  let s' := ShutdownJob f s in
  fetchEpoch (name f) s' = (s', Done (Ok maxUint64))
  /\ (exists ev,
        In ev (watchStream s' (ew_watchPath (watchEpoch f))
                 (ew_waitIndex (watchEpoch f)) false)
        /\ EtcdIndex ev = index s + 1
        /\ epochEvent ev = Done (Some maxUint64))
  /\ (forall epoch sel,
        epoch <> maxUint64 ->
        mainLoop epoch (fromEpochChan maxUint64 :: sel)
        = ([SetEpoch epoch], maxUint64, loopExit))
  /\ (forall (b : Bootstrap) sel,
        jobName b = name f ->
        match (Start b sel s').2 with
        | Done (n, l) =>
            (Start b sel s').1.2 = [Init (taskID (fw n))] /\ l = loopExit
        | Fatal _ => (Start b sel s').1.2 = []
        end).
Proof.
  intros Hidx. cbv zeta.
  assert (Hmax : 0 <= maxUint64 <= maxUint64) by (vm_compute; split; discriminate).
  assert (Hfetch : fetchEpoch (name f) (ShutdownJob f s)
                   = (ShutdownJob f s, Done (Ok maxUint64))).
  { eapply fetchEpoch_stored; [done |].
    unfold ShutdownJob. cbn. apply lookup_insert_eq. }
  split_and?.
  - exact Hfetch.
  - eexists. split_and?.
    + unfold ShutdownJob. cbn [Set_ storeClient storeSet].
      cbn [watchEpoch ew_watchPath ew_waitIndex].
      apply (watchStream_recorded s "set"). lia.
    + reflexivity.
    + apply epochEvent_written; [by left | done].
  - intros epoch sel Hne. cbn [mainLoop].
    apply Z.eqb_neq in Hne. rewrite Hne. by rewrite mainLoop_sentinel.
  - intros b sel Hname. unfold Start. rewrite Hname, Hfetch.
    destruct (occupyTask _ (ShutdownJob f s)) as [[c2 log] [id | e]]; [| done].
    rewrite startWatches_Done. cbn [epoch].
    by rewrite mainLoop_sentinel.
Qed.

Lemma ShutdownJob_ends_the_job_witness :
  fetchEpoch "job" (ShutdownJob exampleFramework exampleStore)
  = (ShutdownJob exampleFramework exampleStore, Done (Ok maxUint64))
  /\ mainLoop 3 [fromEpochChan maxUint64; fromEpochChan 4]
     = ([SetEpoch 3], maxUint64, loopExit).
Proof.
  destruct (ShutdownJob_ends_the_job exampleFramework exampleStore)
    as (Hfetch & _ & Hloop & _).
  - vm_compute. discriminate.
  - split; [exact Hfetch |]. apply Hloop. vm_compute. discriminate.
Defined.

Lemma untilShutdown_no_sentinel (epochs : list Z) :
  ~ In maxUint64 (untilShutdown epochs).
Proof.
  induction epochs as [| e epochs IH]; cbn [untilShutdown]; [by intros [] |].
  destruct (Z.eqb_spec e maxUint64) as [-> | Hne]; [by intros [] |].
  intros [-> | Hin]; [done | by apply IH].
Qed.

Lemma mainLoop_end (sel : list selected) : forall epoch,
  (mainLoop epoch sel).2 = loopExit <-> (mainLoop epoch sel).1.2 = maxUint64.
Proof.
  induction sel as [| [epoch' |] sel IH]; intros epoch; cbn [mainLoop];
    destruct (Z.eqb_spec epoch maxUint64) as [-> | Hne]; try done.
  specialize (IH epoch').
  by destruct (mainLoop epoch' sel) as [[tr e] l].
Qed.

(** X10: the task never sees the shutdown epoch.  Whatever [Start]
    receives, it never calls [SetEpoch] with the shutdown epoch, it
    calls [Init] once and first, and it leaves its loop for [f.stop()]
    exactly when the epoch of the node is the shutdown epoch. *)
Theorem Start_never_SetEpoch_shutdown {C} `{EtcdClient C} (b : Bootstrap)
    (sel : list selected) (c : C) :
  let made := (Start b sel c).1.2 in
  ~ In (SetEpoch maxUint64) made
  /\ match (Start b sel c).2 with
     | Done (n, l) =>
         (exists epochs, made = Init (taskID (fw n)) :: (SetEpoch <$> epochs))
         /\ (l = loopExit <-> epoch (fw n) = maxUint64)
     | Fatal _ => made = []
     end.
Proof.
  cbv zeta. unfold Start.
  destruct (fetchEpoch (jobName b) c) as [c1 [[epoch0 | e] | msg]];
    try (split; [by intros [] | done]).
  destruct (occupyTask _ c1) as [[c2 log] [id | e]];
    try (split; [by intros [] | done]).
  rewrite startWatches_Done. cbn [epoch].
  pose proof (mainLoop_calls sel epoch0) as Hcalls.
  pose proof (mainLoop_end sel epoch0) as Hend.
  destruct (mainLoop epoch0 sel) as [[tr e] l]. cbn [fst snd] in *.
  split.
  - intros [Hin | Hin]; [done |]. rewrite Hcalls in Hin.
    apply in_map_iff in Hin as (x & [= ->] & Hin).
    by apply untilShutdown_no_sentinel in Hin.
  - split; [| done]. rewrite Hcalls. eauto.
Qed.

(** ** Meta flags, exactly *)

Lemma watchStream_record_split (s : store) (action key value prefix : string)
    (waitIndex : Z) :
  watchStream (record s action key value).1 prefix waitIndex false
  = watchStream s prefix waitIndex false
    ++ (if decide (waitIndex <= index s + 1 /\ prefix = key)
        then [mkResponse action (mkNode key value []) (index s + 1)]
        else []).
Proof.
  unfold watchStream. cbn [record fst history].
  rewrite filter_app. f_equal.
  rewrite filter_cons, filter_nil. cbn [EtcdIndex RNode Key].
  unfold watches. rewrite andb_false_l, orb_false_r.
  destruct (decide (waitIndex <= index s + 1 /\ prefix = key)) as [[Hi ->] | Hno].
  - rewrite decide_True; [done |]. split; [done | apply String.eqb_refl].
  - rewrite decide_False; [done |]. intros [Hi Heq%String.eqb_eq]. by apply Hno.
Qed.

(** What a set of [key] adds to the calls of a watcher. *)
Lemma watcherCalls_set (w : watcher) (s : store) (key value : string) :
  w_waitIndex w <= index s + 1 ->
  watcherCalls w (storeSet s key value 0).1
  = watcherCalls w s
    ++ (if decide (w_watchPath w = key)
        then [w_taskCallback w (w_taskID w) value]
        else []).
Proof.
  intros Hidx. unfold watcherCalls, storeSet.
  assert (Hrec : (let '(s', ev) := record s "set" key value in
                  (s', @Ok EtcdError Response ev)).1
                 = (record s "set" key value).1) by done.
  rewrite Hrec, watchStream_record_split, omap_app. f_equal.
  destruct (decide (w_watchPath w = key)) as [Heq | Hne].
  - by rewrite decide_True.
  - rewrite decide_False; [done |]. by intros [_ ?].
Qed.

Lemma ParentMetaPath_other appName i j :
  ParentMetaPath appName i <> ChildMetaPath appName j.
Proof.
  intros Heq%(f_equal path.Base). unfold ParentMetaPath, ChildMetaPath in Heq.
  by rewrite !task_path_Base in Heq.
Qed.

(** X11: a flag to the children reaches the children only, once.  After
    [FlagMetaToChild(meta)] of task [p], each watcher of a node [c] of
    the job whose watched neighbour is the parent [p] has made one more
    call, [ParentMetaReady(p, meta)], and every other watcher of [c]
    (for another parent, or for any child, [p] included) has made the
    calls it had made before. *)
Theorem FlagMetaToChild_exactly (p c : framework) (s : store) (meta : string)
    (n : node) (w : watcher) :
  name p = name c -> 0 <= index s ->
  0 <= taskID p <= maxUint64 ->
  Forall (fun id => 0 <= id <= maxUint64) (GetParents (topology c) (epoch c)) ->
  startWatches c = Done n -> In w (stops n) ->
  let s' := FlagMetaToChild p meta s in
  let forParent :=
    mkWatcher (taskID p) (make 10) (make 1)
      (ChildMetaPath (name c) (taskID p)) 1 ParentMetaReady in
  (w = forParent ->
   watcherCalls w s' = watcherCalls w s ++ [ParentMetaReady (taskID p) meta])
  /\ (w <> forParent -> watcherCalls w s' = watcherCalls w s).
Proof.
  intros Hname Hidx Hp Hrange Hstart Hin. cbv zeta.
  rewrite startWatches_Done in Hstart. injection Hstart as <-.
  cbn [stops] in Hin.
  unfold FlagMetaToChild. cbn [Set_ storeClient]. rewrite Hname.
  apply in_app_or in Hin as [Hin | Hin];
    apply in_map_iff in Hin as (q & <- & Hq).
  - rewrite watcherCalls_set by (cbn; lia). cbn [w_watchPath w_taskCallback w_taskID].
    destruct (decide (ChildMetaPath (name c) q = ChildMetaPath (name c) (taskID p)))
      as [Heq | Hne].
    + assert (q = taskID p) as ->.
      { unfold ChildMetaPath in Heq. apply task_path_inj in Heq; [done | | done | done].
        exact (proj1 (List.Forall_forall _ _) Hrange _ Hq). }
      split; [done | by intros []].
    + split; [| by rewrite app_nil_r].
      intros [= ->]. done.
  - rewrite watcherCalls_set by (cbn; lia). cbn [w_watchPath w_taskCallback w_taskID].
    rewrite decide_False by apply ParentMetaPath_other.
    split; [| by rewrite app_nil_r].
    intros Heq%(f_equal w_watchPath). by apply ParentMetaPath_other in Heq.
Qed.

Lemma FlagMetaToChild_exactly_witness :
  let s' := FlagMetaToChild exampleParent "ParamReady" exampleStore in
  let forChild3 :=
    mkWatcher 3 (make 10) (make 1) "/job/tasks/3/ParentMeta" 1 ChildMetaReady in
  watcherCalls forChild3 s' = watcherCalls forChild3 exampleStore.
Proof.
  cbv zeta.
  destruct (FlagMetaToChild_exactly exampleParent exampleFramework exampleStore
              "ParamReady" exampleNode
              (mkWatcher 3 (make 10) (make 1) "/job/tasks/3/ParentMeta" 1
                 ChildMetaReady)) as (_ & Hother).
  - reflexivity.
  - vm_compute. discriminate.
  - vm_compute. split; discriminate.
  - repeat constructor; vm_compute; discriminate.
  - reflexivity.
  - right. by left.
  - apply Hother. discriminate.
Defined.

(** X12: a flag to the parents reaches the parents only, once.  After
    [FlagMetaToParent(meta)] of task [c], each watcher of a node [p] of
    the job whose watched neighbour is the child [c] has made one more
    call, [ChildMetaReady(c, meta)], and every other watcher of [p] has
    made the calls it had made before. *)
Theorem FlagMetaToParent_exactly (c p : framework) (s : store) (meta : string)
    (n : node) (w : watcher) :
  name c = name p -> 0 <= index s ->
  0 <= taskID c <= maxUint64 ->
  Forall (fun id => 0 <= id <= maxUint64) (GetChildren (topology p) (epoch p)) ->
  startWatches p = Done n -> In w (stops n) ->
  let s' := FlagMetaToParent c meta s in
  let forChild :=
    mkWatcher (taskID c) (make 10) (make 1)
      (ParentMetaPath (name p) (taskID c)) 1 ChildMetaReady in
  (w = forChild ->
   watcherCalls w s' = watcherCalls w s ++ [ChildMetaReady (taskID c) meta])
  /\ (w <> forChild -> watcherCalls w s' = watcherCalls w s).
Proof.
  intros Hname Hidx Hc Hrange Hstart Hin. cbv zeta.
  rewrite startWatches_Done in Hstart. injection Hstart as <-.
  cbn [stops] in Hin.
  unfold FlagMetaToParent. cbn [Set_ storeClient]. rewrite Hname.
  apply in_app_or in Hin as [Hin | Hin];
    apply in_map_iff in Hin as (q & <- & Hq).
  - rewrite watcherCalls_set by (cbn; lia). cbn [w_watchPath w_taskCallback w_taskID].
    rewrite decide_False
      by (intros Heq; symmetry in Heq; by apply ParentMetaPath_other in Heq).
    split; [| by rewrite app_nil_r].
    intros Heq%(f_equal w_watchPath). cbn [w_watchPath] in Heq.
    symmetry in Heq. by apply ParentMetaPath_other in Heq.
  - rewrite watcherCalls_set by (cbn; lia). cbn [w_watchPath w_taskCallback w_taskID].
    destruct (decide (ParentMetaPath (name p) q = ParentMetaPath (name p) (taskID c)))
      as [Heq | Hne].
    + assert (q = taskID c) as ->.
      { unfold ParentMetaPath in Heq. apply task_path_inj in Heq; [done | | done | done].
        exact (proj1 (List.Forall_forall _ _) Hrange _ Hq). }
      split; [done | by intros []].
    + split; [| by rewrite app_nil_r].
      intros [= ->]. done.
Qed.

Lemma FlagMetaToParent_exactly_witness :
  let child3 := mkFramework "job" "127.0.0.1:7003"
                  (mkTopology (fun _ => [1]) (fun _ => [])) exampleTask 3 0 in
  let forChild3 :=
    mkWatcher 3 (make 10) (make 1) "/job/tasks/3/ParentMeta" 1 ChildMetaReady in
  watcherCalls forChild3 (FlagMetaToParent child3 "GradientReady" exampleStore)
  = watcherCalls forChild3 exampleStore ++ [ChildMetaReady 3 "GradientReady"].
Proof.
  cbv zeta.
  destruct (FlagMetaToParent_exactly
              (mkFramework "job" "127.0.0.1:7003"
                 (mkTopology (fun _ => [1]) (fun _ => [])) exampleTask 3 0)
              exampleFramework exampleStore "GradientReady" exampleNode
              (mkWatcher 3 (make 10) (make 1) "/job/tasks/3/ParentMeta" 1
                 ChildMetaReady)) as (Hsame & _).
  - reflexivity.
  - vm_compute. discriminate.
  - vm_compute. split; discriminate.
  - repeat constructor; vm_compute; discriminate.
  - reflexivity.
  - right. by left.
  - by apply Hsame.
Defined.

(** ** Data requests, end to end *)

Lemma network_first (pre post : list framework) (g : framework) (u : URL) :
  Host u = addr g ->
  Forall (fun n => addr n <> addr g) pre ->
  network (pre ++ g :: post) u
  = Ok (ServeHTTP g (mkRequest (Path u) (RawQuery u))).
Proof.
  intros Hhost. induction 1 as [| n pre Hn _ IH]; cbn [app network].
  - by rewrite Hhost, String.eqb_refl.
  - rewrite Hhost. destruct (String.eqb_spec (addr g) (addr n)) as [Heq | _];
      [by symmetry in Heq |].
    exact IH.
Qed.

(** What the handler of [g] answers to the URL that [f] composes. *)
Lemma ServeHTTP_dataRequestURL (f g : framework) (a req : string) :
  0 <= taskID f <= maxUint64 ->
  let u := dataRequestURL f a req in
  ServeHTTP g (mkRequest (Path u) (RawQuery u))
  = match parentOrChild g (taskID f) with
    | roleParent => httpWrite (ServeAsChild (task g) (taskID f) req)
    | roleChild => httpWrite (ServeAsParent (task g) (taskID f) req)
    | roleNone =>
        httpError "taskID isn't a parent or child of this task"
          StatusBadRequest
    end.
Proof.
  intros Hid. cbv zeta. unfold ServeHTTP, dataRequestURL.
  cbn [URLPath URLQuery Path RawQuery].
  change (queryGet _ dataRequestTaskID) with (strconv.FormatUint (taskID f)).
  change (queryGet _ dataRequestReq) with req.
  rewrite String.eqb_refl. cbn [negb].
  by rewrite ParseUint0_FormatUint.
Qed.

(** X13: a data request is served by the node that holds the task
    asked.  When the slot of task [toID] holds the address of node [g]
    and [g] is the node of the job that listens there, [DataRequest(toID,
    req)] of [f] leaves the store as it is and puts into the channel of
    the data responses the bytes that the task of [g] serves for the id
    of [f] and [req]: those of [ServeAsChild] if [g] has [f] among its
    parents, else those of [ServeAsParent] if [g] has [f] among its
    children; if [g] has [f] among neither, the requester ends fatally
    on the status code. *)
Theorem DataRequest_served_by_holder (f g : framework) (s : store)
    (pre post : list framework) (toID idx : Z) (req : string) :
  0 <= taskID f <= maxUint64 ->
  kv s !! TaskMasterPath (name f) toID = Some (addr g, idx) ->
  Forall (fun n => addr n <> addr g) pre ->
  DataRequest f toID req (network (pre ++ g :: post)) s
  = (s, match parentOrChild g (taskID f) with
        | roleParent =>
            Done (mkDataResponse toID req
                    (ServeAsChild (task g) (taskID f) req))
        | roleChild =>
            Done (mkDataResponse toID req
                    (ServeAsParent (task g) (taskID f) req))
        | roleNone => Fatal "response code, assume 200"
        end).
Proof.
  intros Hid Hslot Hpre. unfold DataRequest, getAddress.
  cbn [Get storeClient]. unfold storeGet. rewrite Hslot.
  cbn [RNode Value].
  rewrite (network_first pre post g (dataRequestURL f (addr g) req) eq_refl Hpre).
  rewrite (ServeHTTP_dataRequestURL f g (addr g) req Hid).
  by destruct (parentOrChild g (taskID f)).
Qed.

Lemma DataRequest_served_by_holder_witness :
  let s := (occupyTask exampleFramework exampleStore).1.1 in
  DataRequest exampleParent 0 "weights" (network [exampleParent; exampleFramework]) s
  = (s, Done (mkDataResponse 0 "weights"
                (ServeAsChild exampleTask 0 "weights"))).
Proof.
  cbv zeta.
  exact (DataRequest_served_by_holder exampleParent exampleFramework
           (occupyTask exampleFramework exampleStore).1.1
           [exampleParent] [] 0 5 "weights"
           ltac:(vm_compute; split; discriminate)
           ltac:(vm_compute; reflexivity)
           ltac:(repeat constructor; vm_compute; discriminate)).
Defined.

(** ** Failure detection *)

Lemma DetectFailure_skip {C} `{EtcdClient C} name resp resps (c : C) :
  failure resp = false ->
  DetectFailure name (resp :: resps) c = DetectFailure name resps c.
Proof.
  unfold failure. intros [He Hd]%orb_false_iff. cbn [DetectFailure].
  by rewrite He, Hd.
Qed.

Lemma DetectFailure_report {C} `{EtcdClient C} name resp resps (c : C) :
  failure resp = true ->
  DetectFailure name (resp :: resps) c
  = let '(c', r) :=
      Set_ c (FreeTaskPath name (path.Base (Key (RNode resp)))) "failed" 0 in
    let '(c'', log) := DetectFailure name resps c' in
    (c'', (if is_ok r then [] else [reportFailed]) ++ log).
Proof.
  unfold failure. intros Hf. cbn [DetectFailure].
  replace (negb (Action resp =? "expire")%string
           && negb (Action resp =? "delete")%string) with false
    by (rewrite <- negb_orb, Hf; done).
  unfold ReportFailure.
  destruct (Set_ c _ "failed" 0) as [c' [ev | e]];
    by destruct (DetectFailure name resps c').
Qed.

Lemma DetectFailure_recording {C} `{EtcdClient C} (name : string)
    (resps : list Response) :
  forall rc : recorder C,
  let run := DetectFailure name resps rc in
  let plain := DetectFailure name resps (cluster rc) in
  cluster run.1 = plain.1
  /\ run.2 = plain.2
  /\ exists results,
       length results = length (filter (fun r => failure r = true) resps)
       /\ calls run.1
          = calls rc
            ++ reports name (filter (fun r => failure r = true) resps) results
       /\ run.2
          = (fun _ => reportFailed)
            <$> filter (fun r => is_ok r = false) results.
Proof.
  induction resps as [| resp resps IH]; intros rc; cbv zeta.
  - cbn. split_and?; try done. exists []. by rewrite app_nil_r.
  - destruct (failure resp) eqn:Hf.
    + rewrite !DetectFailure_report by done.
      rewrite filter_cons_True by done.
      cbn [Set_ recorderClient noted].
      destruct (Set_ (cluster rc) (FreeTaskPath name (path.Base (Key (RNode resp))))
                  "failed" 0) as [c' r] eqn:Hset.
      cbn [fst snd].
      specialize (IH (mkRecorder c'
                        (calls rc ++
                           [CallSet (FreeTaskPath name (path.Base (Key (RNode resp))))
                              "failed" 0 r]))).
      cbv zeta in IH. cbn [cluster calls] in IH.
      destruct (DetectFailure name resps (mkRecorder c' _)) as [rc'' log''].
      destruct (DetectFailure name resps c') as [c'' log].
      cbn [fst snd] in *.
      destruct IH as (Hc & Hlog & results & Hlen & Hcalls & Hrun).
      split_and?; [done | by rewrite Hlog |].
      exists (r :: results). split_and?.
      * cbn. by rewrite Hlen.
      * rewrite Hcalls, <- app_assoc. done.
      * rewrite Hrun. destruct r as [ev | e]; cbn [is_ok].
        -- by rewrite filter_cons_False.
        -- by rewrite filter_cons_True.
    + rewrite !DetectFailure_skip by done.
      rewrite filter_cons_False by (by rewrite Hf).
      apply IH.
Qed.

(** X14: [DetectFailure] reports every failure, whatever becomes of the
    reports.  Over the responses of its watch, it makes one call to
    etcd for each response whose action is "expire" or "delete", in
    order, and none for the others: it sets the marker of the last
    element of the key of the response to "failed", without TTL.  A
    report that fails is logged, one line for each, and the loop goes on
    to the next response. *)
Theorem DetectFailure_reports_each {C} `{EtcdClient C} (name : string)
    (resps : list Response) (c : C) :
  let run := DetectFailure name resps (recording c) in
  let fails := filter (fun r => failure r = true) resps in
  cluster run.1 = (DetectFailure name resps c).1
  /\ run.2 = (DetectFailure name resps c).2
  /\ exists results,
       length results = length fails
       /\ calls run.1 = reports name fails results
       /\ run.2
          = (fun _ => reportFailed)
            <$> filter (fun r => is_ok r = false) results.
Proof. exact (DetectFailure_recording name resps (recording c)). Qed.

(** ** From a lost heartbeat to the waiting node *)

Lemma FreeTaskDir_not_root name : String.eqb (FreeTaskDir name) "/" = false.
Proof.
  unfold FreeTaskDir.
  change (path.Join ["/"; name; FreeTasksDir])
    with (path.Join (("/" :: [name]) ++ [FreeTasksDir])).
  rewrite Join_snoc by reflexivity.
  apply String.eqb_neq, under_not_root. reflexivity.
Qed.

Lemma FreeTaskPath_under name e :
  element e = true ->
  FreeTaskPath name e = FreeTaskDir name +:+ String path.slash e.
Proof.
  intros He. unfold FreeTaskPath.
  change (path.Join ["/"; name; FreeTasksDir; e])
    with (path.Join (("/" :: [name; FreeTasksDir]) ++ [e])).
  rewrite Join_snoc by done. unfold under.
  change (path.Join ["/"; name; FreeTasksDir]) with (FreeTaskDir name).
  by rewrite FreeTaskDir_not_root.
Qed.

Lemma FreeTaskPath_Base name e :
  element e = true -> path.Base (FreeTaskPath name e) = e.
Proof. intros He. rewrite FreeTaskPath_under by done. by apply Base_snoc. Qed.

Lemma TaskHealthyPath_Base name t :
  path.Base (TaskHealthyPath name t) = strconv.FormatUint t.
Proof.
  unfold TaskHealthyPath.
  change (path.Join ["/"; name; HealthyDir; strconv.FormatUint t])
    with (path.Join (("/" :: [name; HealthyDir]) ++ [strconv.FormatUint t])).
  rewrite Join_snoc by apply FormatUint_element.
  unfold under. apply Base_snoc, FormatUint_element.
Qed.

Lemma childOf_app (dir : list string) (e : string) (rest : list string) :
  childOf dir (dir ++ e :: rest) = Some e.
Proof.
  induction dir as [| d dir IH]; cbn [childOf app]; [done |].
  by rewrite String.eqb_refl.
Qed.

Lemma watches_FreeTaskDir name e :
  element e = true ->
  watches (FreeTaskDir name) true (FreeTaskPath name e) = true.
Proof.
  intros He. unfold watches. rewrite FreeTaskPath_under by done.
  rewrite split_app_slash, (split_noSlash e) by (by apply element_noSlash).
  rewrite childOf_app. cbn [andb].
  rewrite bool_decide_eq_true_2 by done. apply orb_true_r.
Qed.

Lemma DetectFailure_no_failure {C} `{EtcdClient C} name pre rest (c : C) :
  Forall (fun r => failure r = false) pre ->
  DetectFailure name (pre ++ rest) c = DetectFailure name rest c.
Proof.
  induction 1 as [| r pre Hr _ IH]; [done |].
  cbn [app]. by rewrite DetectFailure_skip.
Qed.

Lemma DetectFailure_history name resps :
  forall s : store,
  exists more,
    history (DetectFailure name resps s).1 = history s ++ more.
Proof.
  induction resps as [| resp resps IH]; intros s.
  - exists []. cbn. by rewrite app_nil_r.
  - destruct (failure resp) eqn:Hf.
    + rewrite DetectFailure_report by done.
      cbn [Set_ storeClient]. unfold storeSet.
      destruct (record s "set" _ "failed") as [s1 ev] eqn:Hrec.
      destruct (IH s1) as (more & Hmore).
      destruct (DetectFailure name resps s1) as [s2 log]. cbn [fst] in *.
      unfold record in Hrec. injection Hrec as <- _. cbn [history] in Hmore.
      exists ([mkResponse "set"
                 (mkNode (FreeTaskPath name (path.Base (Key (RNode resp))))
                    "failed" []) (index s + 1)] ++ more).
      by rewrite Hmore, <- app_assoc.
    + rewrite DetectFailure_skip by done. apply IH.
Qed.

Lemma watchStream_later (s : store) prefix waitIndex recursive :
  Forall (fun ev => EtcdIndex ev <= index s) (history s) ->
  index s < waitIndex ->
  filter (fun ev => (waitIndex <= EtcdIndex ev)
                    /\ watches prefix recursive (Key (RNode ev)) = true)
    (history s) = [].
Proof.
  intros Hall Hlt. induction Hall as [| ev evs Hev _ IH]; [done |].
  rewrite filter_cons_False; [done | lia].
Qed.

(** X15: a failure that [DetectFailure] reports ends the wait of
    [WaitFreeTask].  Let a node have read the free-task directory at
    store [s], so that its goroutine watches from the index after the
    read's.  When the watch of [DetectFailure] then hands it responses
    of which the first "expire" or "delete" is for the liveness key of
    task [t], the first watch of that goroutine on the store that
    [DetectFailure] leaves answers with a "set" of the marker of [t],
    and the id that [WaitFreeTask] reads from it (base 10, from the last
    element of its key) is [t]. *)
Theorem DetectFailure_wakes_WaitFreeTask (name : string) (t : Z) (s : store)
    (slots : Response) (pre post : list Response) (resp : Response)
    (rounds : nat) :
  0 <= t <= maxUint64 ->
  consistent s -> index s < maxUint64 ->
  Get s (FreeTaskDir name) false true = (s, Ok slots) ->
  Forall (fun r => failure r = false) pre ->
  failure resp = true ->
  Key (RNode resp) = TaskHealthyPath name t ->
  let s' := (DetectFailure name (pre ++ resp :: post) s).1 in
  exists ev,
    etcdutil.waitSet name (wrap64 (EtcdIndex slots + 1)) (S rounds) s'
    = (s', Some ev)
    /\ Action ev = "set"
    /\ Key (RNode ev) = FreeTaskPath name (strconv.FormatUint t)
    /\ strconv.ParseUint (path.Base (Key (RNode ev))) 10 64 = Ok t.
Proof.
  intros Ht [Hidx Hhist] Hmax Hget Hpre Hfail Hkey. cbv zeta.
  assert (Hslots : EtcdIndex slots = index s).
  { cbn [Get storeClient] in Hget. unfold storeGet in Hget.
    destruct (kv s !! FreeTaskDir name) as [[v i] |].
    - by injection Hget as <-.
    - destruct (children s (FreeTaskDir name)).
      + destruct (bool_decide _); [by injection Hget as <- | done].
      + by injection Hget as <-. }
  rewrite Hslots, wrap64_small by lia.
  rewrite DetectFailure_no_failure, DetectFailure_report by done.
  rewrite Hkey, TaskHealthyPath_Base.
  cbn [Set_ storeClient]. unfold storeSet.
  destruct (record s "set" _ "failed") as [s1 ev] eqn:Hrec.
  destruct (DetectFailure_history name post s1) as (more & Hmore).
  destruct (DetectFailure name post s1) as [s2 log]. cbn [fst] in *.
  unfold record in Hrec. injection Hrec as <- <-. cbn [history] in Hmore.
  exists (mkResponse "set"
            (mkNode (FreeTaskPath name (strconv.FormatUint t)) "failed" [])
            (index s2)).
  split_and?; try done.
  - cbn [etcdutil.waitSet Watch storeClient]. unfold storeWatch, watchStream.
    rewrite Hmore, <- app_assoc, filter_app, watchStream_later by (done || lia).
    cbn [app]. rewrite filter_cons_True; [done |].
    cbn [EtcdIndex RNode Key]. split; [lia |].
    apply watches_FreeTaskDir, FormatUint_element.
  - cbn [RNode Key].
    by rewrite FreeTaskPath_Base, ParseUint_FormatUint
      by (done || apply FormatUint_element).
Qed.

Lemma DetectFailure_wakes_WaitFreeTask_witness :
  let expired :=
    mkResponse "expire" (mkNode (TaskHealthyPath "job" 2) "" []) 9 in
  let s' := (DetectFailure "job" [expired] exampleStore).1 in
  exists ev,
    etcdutil.waitSet "job" (wrap64 (4 + 1)) 1 s' = (s', Some ev)
    /\ Action ev = "set"
    /\ Key (RNode ev) = FreeTaskPath "job" (strconv.FormatUint 2)
    /\ strconv.ParseUint (path.Base (Key (RNode ev))) 10 64 = Ok 2.
Proof.
  cbv zeta.
  apply (DetectFailure_wakes_WaitFreeTask "job" 2 exampleStore
           (mkResponse "get" (mkNode (FreeTaskDir "job") "" []) 4)
           [] []
           (mkResponse "expire" (mkNode (TaskHealthyPath "job" 2) "" []) 9) 0).
  - vm_compute. split; discriminate.
  - split; [vm_compute; discriminate | repeat constructor; vm_compute; discriminate].
  - reflexivity.
  - vm_compute. reflexivity.
  - constructor.
  - reflexivity.
  - reflexivity.
Defined.

(** ** What [Start] leaves in the store *)

Lemma fetchEpoch_store (s : store) (jobName : string) :
  (fetchEpoch jobName s).1 = s.
Proof.
  unfold fetchEpoch. cbn [Get storeClient].
  pose proof (storeGet_same s (JobEpochPath jobName) false false) as Hsame.
  destruct (storeGet s (JobEpochPath jobName) false false) as [s1 [resp | e]];
    by cbn in *.
Qed.

Lemma storeCreate_other (s : store) (key value : string) (ttl : Z)
    (key' : string) :
  key' <> key -> kv (storeCreate s key value ttl).1 !! key' = kv s !! key'.
Proof.
  intros Hne. unfold storeCreate.
  destruct (kv s !! key) as [x |]; [done |].
  cbn. by rewrite lookup_insert_ne.
Qed.

Lemma storeCreate_kept (s : store) (key value : string) (ttl : Z)
    (key' : string) (x : string * Z) :
  kv s !! key' = Some x -> kv (storeCreate s key value ttl).1 !! key' = Some x.
Proof.
  intros Hx. destruct (decide (key' = key)) as [-> | Hne].
  - unfold storeCreate. by rewrite Hx.
  - by rewrite storeCreate_other.
Qed.

Lemma storeCreate_present (s : store) (key value : string) (ttl : Z) :
  is_Some (kv (storeCreate s key value ttl).1 !! key).
Proof.
  unfold storeCreate. destruct (kv s !! key) as [x |] eqn:Hx.
  - cbn. by rewrite Hx.
  - cbn. by rewrite lookup_insert_eq.
Qed.

Lemma TaskMasterPath_not_meta appName i j :
  TaskMasterPath appName i <> ParentMetaPath appName j
  /\ TaskMasterPath appName i <> ChildMetaPath appName j.
Proof.
  split; intros Heq%(f_equal path.Base);
    unfold TaskMasterPath, ParentMetaPath, ChildMetaPath in Heq;
    by rewrite !task_path_Base in Heq.
Qed.

(** X16: a node that [Start] has set up is registered.  When [Start]
    does not end fatally on the reference cluster, the slot of the
    node's task was "empty" before and now holds the address of its
    listener; the ParentMeta and the ChildMeta key of the task exist;
    and every other key that existed has its value and its index of
    before: the flags that a former holder of the task has set are not
    reset by the creation. *)
Theorem Start_registers_node (b : Bootstrap) (sel : list selected)
    (s s' : store) (tr : list TaskCall) (n : node) (l : loopEnd) :
  Start b sel s = (s', tr, Done (n, l)) ->
  let id := taskID (fw n) in
  name (fw n) = jobName b
  /\ addr (fw n) = ln b
  /\ holder s (jobName b) id = Some "empty"
  /\ holder s' (jobName b) id = Some (ln b)
  /\ is_Some (kv s' !! ParentMetaPath (jobName b) id)
  /\ is_Some (kv s' !! ChildMetaPath (jobName b) id)
  /\ forall key x,
       key <> TaskMasterPath (jobName b) id ->
       kv s !! key = Some x -> kv s' !! key = Some x.
Proof.
  unfold Start. pose proof (fetchEpoch_store s (jobName b)) as Hfetch.
  destruct (fetchEpoch (jobName b) s) as [s1 [[epoch0 | e] | msg]];
    cbn [fst] in Hfetch; subst s1; try done.
  set (f0 := mkFramework (jobName b) (ln b) (topologyOf b 0) (taskBuilder b 0)
               0 epoch0).
  pose proof (occupyTask_store_effect f0 s) as Heff. cbv zeta in Heff.
  destruct (occupyTask f0 s) as [[s2 log] [id | e]]; [| done].
  cbn [fst snd name addr f0] in Heff.
  destruct Heff as (Hempty & Hheld & Hframe & _).
  rewrite startWatches_Done.
  destruct (mainLoop _ sel) as [[tr' e] l'].
  intros [= <- _ <- _]. cbv zeta. cbn [fw setEpoch taskID name addr].
  cbn [Create storeClient].
  destruct (TaskMasterPath_not_meta (jobName b) id id) as [HneP HneC].
  split_and?; try done.
  - unfold holder. by rewrite !storeCreate_other.
  - destruct (storeCreate_present s2 (ParentMetaPath (jobName b) id) "" 0)
      as [x Hx].
    exists x. by apply storeCreate_kept.
  - apply storeCreate_present.
  - intros key x Hkey Hx.
    do 2 apply storeCreate_kept. by rewrite Hframe.
Qed.

Lemma Start_registers_node_witness :
  holder (Start exampleBootstrap [] exampleStore).1.1 "job" 0
  = Some "127.0.0.1:7001".
Proof.
  destruct (Start exampleBootstrap [] exampleStore) as [[s' tr] r] eqn:Hrun.
  assert (Hr : exists n l, r = Done (n, l) /\ taskID (fw n) = 0).
  { vm_compute in Hrun. injection Hrun as _ _ <-. by eexists _, _. }
  destruct Hr as (n & l & -> & Hid).
  destruct (Start_registers_node exampleBootstrap [] exampleStore s' tr n l Hrun)
    as (_ & _ & _ & Hheld & _).
  rewrite Hid in Hheld. exact Hheld.
Defined.

(** X17: a node that ends fatally in [Start] has changed nothing.  When
    [Start] ends fatally on the reference cluster (the epoch cannot be
    read or parsed, or no slot can be occupied), the store is as it was
    before, no slot is held for the node, and no call has been made into
    the task. *)
Theorem Start_fatal_changes_nothing (b : Bootstrap) (sel : list selected)
    (s s' : store) (tr : list TaskCall) (msg : string) :
  Start b sel s = (s', tr, Fatal msg) ->
  s' = s /\ tr = [].
Proof.
  unfold Start. pose proof (fetchEpoch_store s (jobName b)) as Hfetch.
  destruct (fetchEpoch (jobName b) s) as [s1 [[epoch0 | e] | msg']];
    cbn [fst] in Hfetch; subst s1; try (by intros [= <- <- _]).
  set (f0 := mkFramework (jobName b) (ln b) (topologyOf b 0) (taskBuilder b 0)
               0 epoch0).
  pose proof (occupyTask_store_effect f0 s) as Heff. cbv zeta in Heff.
  destruct (occupyTask f0 s) as [[s2 log] [id | e]].
  - rewrite startWatches_Done. by destruct (mainLoop _ sel) as [[tr' e] l'].
  - cbn [fst snd] in Heff. subst s2. by intros [= <- <- _].
Qed.

Lemma Start_fatal_changes_nothing_witness :
  (Start exampleBootstrap [] emptyStore).1 = (emptyStore, []).
Proof.
  destruct (Start exampleBootstrap [] emptyStore) as [[s' tr] r] eqn:Hrun.
  assert (Hr : r = Fatal "Can not get epoch from etcd").
  { vm_compute in Hrun. by injection Hrun as _ _ <-. }
  subst r.
  destruct (Start_fatal_changes_nothing exampleBootstrap [] emptyStore s' tr _ Hrun)
    as [-> ->].
  reflexivity.
Defined.

(** ** The TTL of the liveness key *)

(** X18: the liveness key outlives the interval between two heartbeats.
    For every interval (a [time.Duration], in nanoseconds), the TTL that
    [computeTTL] gives is at least 3 seconds and, in nanoseconds, more
    than one and a half times the interval: the key that a beat has set
    has not expired when the next beat sets it again. *)
Theorem computeTTL_outlives_interval (interval : Z) :
  - 2 ^ 63 <= interval < 2 ^ 63 ->
  3 <= etcdutil.computeTTL interval
  /\ 3 * interval < 2 * (etcdutil.computeTTL interval * etcdutil.Second).
Proof.
  intros Hint. rewrite computeTTL_max by done. unfold etcdutil.Second.
  split; [lia |].
  destruct (Z.le_gt_cases 0 interval) as [Hpos | Hneg]; [| lia].
  pose proof (Z.quot_rem' interval 1000000000) as Hqr.
  pose proof (Z.rem_bound_pos interval 1000000000 Hpos ltac:(lia)) as Hrem.
  pose proof (Z.quot_pos interval 1000000000 Hpos ltac:(lia)) as Hq.
  lia.
Qed.

Lemma computeTTL_outlives_interval_witness :
  3 * 5000000000 < 2 * (etcdutil.computeTTL 5000000000 * etcdutil.Second).
Proof.
  destruct (computeTTL_outlives_interval 5000000000) as (_ & Hlonger).
  - lia.
  - exact Hlonger.
Defined.

(** ** Two nodes and one slot *)

(** X19: no two nodes get the same task.  When [occupyTask] has
    returned a task to a node, and then returns a task to another node
    of the job, the two tasks differ, and each slot holds the address
    of its node. *)
Theorem occupyTask_exclusive (f g : framework) (s s1 s2 : store)
    (log1 log2 : list string) (i j : Z) :
  name g = name f -> addr f <> "empty" ->
  occupyTask f s = (s1, log1, Ok i) ->
  occupyTask g s1 = (s2, log2, Ok j) ->
  i <> j
  /\ holder s2 (name f) i = Some (addr f)
  /\ holder s2 (name f) j = Some (addr g).
Proof.
  intros Hname Haddr Hf Hg.
  pose proof (occupyTask_store_effect f s) as Hfirst.
  pose proof (occupyTask_store_effect g s1) as Hsecond.
  cbv zeta in Hfirst, Hsecond. rewrite Hf in Hfirst. rewrite Hg in Hsecond.
  cbn [fst snd] in Hfirst, Hsecond. rewrite Hname in Hsecond.
  destruct Hfirst as (_ & Hi & _).
  destruct Hsecond as (Hj & Hj' & Hframe & _).
  assert (Hkeys : TaskMasterPath (name f) i <> TaskMasterPath (name f) j).
  { intros Heq. unfold holder in Hi, Hj. rewrite Heq, Hj in Hi.
    injection Hi as Hi. by apply Haddr. }
  split_and?; [| | done].
  - intros ->. done.
  - unfold holder. by rewrite Hframe.
Qed.

Lemma occupyTask_exclusive_witness :
  let first := occupyTask exampleParent exampleStore in
  let second := occupyTask exampleFramework first.1.1 in
  holder second.1.1 "job" 0 = Some "127.0.0.1:7000"
  /\ holder second.1.1 "job" 1 = Some "127.0.0.1:7001".
Proof.
  cbv zeta.
  destruct (occupyTask exampleParent exampleStore) as [[s1 log1] r1] eqn:Hf.
  assert (Hr1 : r1 = Ok 0).
  { vm_compute in Hf. by injection Hf as _ _ <-. }
  subst r1. cbn [fst].
  destruct (occupyTask exampleFramework s1) as [[s2 log2] r2] eqn:Hg.
  assert (Hr2 : r2 = Ok 1).
  { vm_compute in Hf. injection Hf as <- _.
    vm_compute in Hg. by injection Hg as _ _ <-. }
  subst r2. cbn [fst].
  destruct (occupyTask_exclusive exampleParent exampleFramework exampleStore
              s1 s2 log1 log2 0 1 eq_refl ltac:(discriminate) Hf Hg)
    as (_ & H0 & H1).
  by split.
Defined.

(** ** Runs: what the watchers call *)

Lemma begun_app g tr tr' : begun g (tr ++ tr') = begun g tr ++ begun g tr'.
Proof. apply omap_app. Qed.

Lemma delivered_cons i a acts :
  delivered i (a :: acts) = delivered i [a] ++ delivered i acts.
Proof. exact (omap_app _ [a] acts). Qed.

Lemma begun_other g g' call : g' <> g -> begun g [Begin g' call] = [].
Proof. intros Hne. cbn. by rewrite decide_False. Qed.

Lemma begun_same g call : begun g [Begin g call] = [call].
Proof. cbn. by rewrite decide_True. Qed.

Lemma recv_buffer {A} (ch : chan A) x rc :
  recv ch = Some (x, rc) -> buffer ch = x :: buffer rc.
Proof.
  unfold recv. destruct (buffer ch) as [| y rest] eqn:Hb; [done |].
  by intros [= <- <-].
Qed.

Lemma send_buffer {A} (ch : chan A) x rc :
  send ch x = Some rc -> buffer rc = buffer ch ++ [x].
Proof. unfold send. destruct (decide _); [| done]. by intros [= <-]. Qed.

(** One step, seen from watcher [i]: what it begins and what waits for
    it afterwards is what waited before and what the step delivers. *)
Lemma step_watcher_flow (i : nat) (w : watcher) st a st' tr :
  step st a = Some (st', tr) ->
  forall w0,
    stops (sys_node st) !! i = Some w0 ->
    (forall r, watcherEvent w0 r = watcherEvent w r) ->
    exists w1,
      stops (sys_node st') !! i = Some w1
      /\ (forall r, watcherEvent w1 r = watcherEvent w r)
      /\ begun (gWatcher i) tr ++ omap (watcherEvent w) (buffer (w_receiver w1))
         = omap (watcherEvent w) (buffer (w_receiver w0) ++ delivered i [a]).
Proof.
  intros Hstep w0 Hw0 Hsame. unfold step in Hstep.
  destruct (alive st); cbn [negb] in Hstep; [| done].
  assert (Hkeep : forall n' tr',
            stops n' = stops (sys_node st) ->
            begun (gWatcher i) tr' = [] ->
            delivered i [a] = [] ->
            exists w1,
              stops n' !! i = Some w1
              /\ (forall r, watcherEvent w1 r = watcherEvent w r)
              /\ begun (gWatcher i) tr'
                 ++ omap (watcherEvent w) (buffer (w_receiver w1))
                 = omap (watcherEvent w)
                     (buffer (w_receiver w0) ++ delivered i [a])).
  { intros n' tr' -> -> ->. exists w0. by rewrite app_nil_r. }
  destruct a as [[| | j | | k] | j resp | resp | dataResp]; cbn in Hstep.
  - (* the main goroutine *)
    unfold stepMain in Hstep.
    destruct (activeCall gMain (active st)) as [call |].
    + injection Hstep as <- <-. by apply Hkeep.
    + destruct (mainAt st).
      * injection Hstep as <- <-. by apply Hkeep.
      * destruct (epoch (fw (sys_node st)) =? maxUint64);
          injection Hstep as <- <-; by apply Hkeep.
      * destruct (recv (epochChan _)) as [[e ch] |].
        -- injection Hstep as <- <-. by apply Hkeep.
        -- destruct (recv (epochStop _)) as [[b ch] |]; [| done].
           injection Hstep as <- <-. by apply Hkeep.
      * done.
  - (* the epoch watcher *)
    unfold stepEpochWatcher in Hstep.
    destruct (recv (ew_receiver _)) as [[resp rc] |]; [| done].
    destruct (epochEvent resp) as [[e |] | msg].
    + destruct (send (epochChan _) e) as [ch |]; [| done].
      injection Hstep as <- <-. by apply Hkeep.
    + injection Hstep as <- <-. by apply Hkeep.
    + injection Hstep as <- <-. by apply Hkeep.
  - (* a watcher *)
    unfold stepWatcher in Hstep.
    destruct (activeCall (gWatcher j) (active st)) as [call |].
    { injection Hstep as <- <-. by apply Hkeep. }
    destruct (stops (sys_node st) !! j) as [wj |] eqn:Hwj; [| done].
    destruct (recv (w_receiver wj)) as [[resp rc] |] eqn:Hrecv; [| done].
    apply recv_buffer in Hrecv.
    destruct (decide (j = i)) as [-> | Hne].
    + rewrite Hw0 in Hwj. injection Hwj as <-.
      assert (Hlt : (i < length (stops (sys_node st)))%nat)
        by (by eapply lookup_lt_Some).
      rewrite Hrecv. change (delivered i [run (gWatcher i)]) with (@nil Response).
      rewrite app_nil_r. cbn [omap list_omap]. rewrite <- (Hsame resp).
      destruct (watcherEvent w0 resp) as [call |] eqn:Hev;
        injection Hstep as <- <-; cbn [sys_node withReceiver stops];
        rewrite list_lookup_insert_eq by done;
        eexists; (split; [done |]); cbn [w_receiver];
        (split; [intros r; by rewrite <- Hsame |]).
      * by rewrite begun_same.
      * done.
    + assert (Hdiff : forall call, begun (gWatcher i) [Begin (gWatcher j) call] = []).
      { intros call. apply begun_other. by intros [= ->]. }
      destruct (watcherEvent wj resp) as [call |];
        injection Hstep as <- <-; cbn [sys_node withReceiver stops fst snd];
        rewrite list_lookup_insert_ne by done;
        exists w0; rewrite ?Hdiff, app_nil_r; by cbn.
  - (* the dispatcher *)
    unfold stepDispatcher in Hstep.
    destruct (recv (dataRespChan _)) as [[dataResp ch] |]; [| done].
    destruct (dataResponseReceive _ dataResp) as [call | msg];
      injection Hstep as <- <-; by apply Hkeep.
  - (* a goroutine of the dispatcher *)
    unfold stepData in Hstep.
    destruct (spawned st !! k) as [[call [| |]] |]; try done;
      injection Hstep as <- <-; by apply Hkeep.
  - (* etcd hands a response to a watcher *)
    destruct (stops (sys_node st) !! j) as [wj |] eqn:Hwj; [| done].
    cbn in Hstep.
    destruct (send (w_receiver wj) resp) as [rc |] eqn:Hsend; [| done].
    cbn in Hstep. injection Hstep as <- <-.
    apply send_buffer in Hsend. cbn [sys_node withReceiver stops].
    destruct (decide (j = i)) as [-> | Hne].
    + rewrite Hw0 in Hwj. injection Hwj as <-.
      assert (Hlt : (i < length (stops (sys_node st)))%nat)
        by (by eapply lookup_lt_Some).
      rewrite list_lookup_insert_eq by done.
      eexists. split; [done |]. cbn [w_receiver].
      split; [intros r; by rewrite <- Hsame |].
      cbn. by rewrite decide_True, Hsend.
    + rewrite list_lookup_insert_ne by done.
      exists w0. split_and?; try done. cbn. rewrite decide_False by done.
      by rewrite app_nil_r.
  - (* etcd hands a response to the epoch watch *)
    destruct (send (ew_receiver _) resp) as [rc |]; [| done].
    cbn in Hstep. injection Hstep as <- <-. by apply Hkeep.
  - (* a data response arrives *)
    destruct (send (dataRespChan _) dataResp) as [ch |]; [| done].
    cbn in Hstep. injection Hstep as <- <-. by apply Hkeep.
Qed.

Lemma exec_watcher_flow (i : nat) (w : watcher) acts : forall st st' tr w0,
  exec st acts = Some (st', tr) ->
  stops (sys_node st) !! i = Some w0 ->
  (forall r, watcherEvent w0 r = watcherEvent w r) ->
  begun (gWatcher i) tr ++ omap (watcherEvent w) (pending i st')
  = omap (watcherEvent w) (buffer (w_receiver w0) ++ delivered i acts).
Proof.
  induction acts as [| a acts IH]; intros st st' tr w0 Hexec Hw0 Hsame.
  - cbn in Hexec. injection Hexec as <- <-.
    unfold pending. rewrite Hw0. cbn. by rewrite app_nil_r.
  - cbn [exec] in Hexec.
    destruct (step st a) as [[st1 tr1] |] eqn:Hstep; [| done].
    cbn in Hexec.
    destruct (exec st1 acts) as [[st2 tr2] |] eqn:Hrest; [| done].
    cbn in Hexec. injection Hexec as <- <-.
    destruct (step_watcher_flow i w st a st1 tr1 Hstep w0 Hw0 Hsame)
      as (w1 & Hw1 & Hsame1 & Hflow).
    specialize (IH st1 st2 tr2 w1 Hrest Hw1 Hsame1).
    rewrite begun_app, <- app_assoc, IH, delivered_cons.
    rewrite omap_app in Hflow. rewrite !omap_app.
    by rewrite app_assoc, Hflow, <- app_assoc.
Qed.

(** X20: a neighbour watcher calls back once for each "set" that etcd
    hands it, in order.  In every run of a started node, the calls that
    the goroutine of watcher [i] has begun, followed by the calls for the
    responses that still wait in its receiver, are the calls for the
    responses that etcd has handed to its watch, in the order of their
    arrival: no response is lost, repeated or overtaken, and responses
    whose action is not "set" give no call. *)
Theorem watcher_calls_in_order (f : framework) (n : node)
    (acts : list action) (st : system) (tr : list event) (i : nat)
    (w : watcher) :
  startWatches f = Done n ->
  exec (boot n) acts = Some (st, tr) ->
  stops n !! i = Some w ->
  begun (gWatcher i) tr ++ omap (watcherEvent w) (pending i st)
  = omap (watcherEvent w) (delivered i acts).
Proof.
  intros Hstart Hexec Hw.
  rewrite (exec_watcher_flow i w acts (boot n) st tr w Hexec Hw) by done.
  rewrite startWatches_Done in Hstart. injection Hstart as <-.
  cbn [stops] in Hw. apply list_elem_of_lookup_2 in Hw.
  apply elem_of_app in Hw as [Hw | Hw];
    apply list_elem_of_fmap in Hw as (q & -> & _); done.
Qed.

Lemma watcher_calls_in_order_witness :
  exists st tr,
    exec (boot exampleNode) exampleRun = Some (st, tr)
    /\ begun (gWatcher 0) tr = [ParentMetaReady 0 "ParamReady"]
    /\ pending 0 st = [].
Proof.
  destruct (exec (boot exampleNode) exampleRun) as [[st tr] |] eqn:Hexec;
    [| vm_compute in Hexec; discriminate].
  exists st, tr. split; [done |].
  pose proof (watcher_calls_in_order exampleFramework exampleNode exampleRun
                st tr 0
                (mkWatcher 0 (make 10) (make 1) "/job/tasks/0/ChildMeta" 1
                   ParentMetaReady)
                eq_refl Hexec eq_refl) as Hflow.
  assert (Hpending : pending 0 st = []).
  { vm_compute in Hexec. injection Hexec as <- _. reflexivity. }
  rewrite Hpending in Hflow. cbn [omap list_omap] in Hflow.
  rewrite app_nil_r in Hflow. by split.
Defined.

(** ** Runs: what the main goroutine calls *)

Lemma deliveredEpoch_cons a acts :
  deliveredEpoch (a :: acts) = deliveredEpoch [a] ++ deliveredEpoch acts.
Proof. exact (omap_app _ [a] acts). Qed.

(** Once the main goroutine has left its loop it begins no call. *)
Lemma step_main_ended st a st' tr :
  mainAt st = atEnd -> step st a = Some (st', tr) ->
  mainAt st' = atEnd /\ begun gMain tr = [].
Proof.
  intros Hend Hstep. unfold step in Hstep.
  destruct (alive st); cbn [negb] in Hstep; [| done].
  destruct a as [[| | j | | k] | j resp | resp | dataResp]; cbn in Hstep.
  - unfold stepMain in Hstep. rewrite Hend in Hstep.
    destruct (activeCall gMain (active st)) as [call |]; [| done].
    by injection Hstep as <- <-.
  - unfold stepEpochWatcher in Hstep.
    destruct (recv (ew_receiver _)) as [[resp rc] |]; [| done].
    destruct (epochEvent resp) as [[e |] | msg].
    + destruct (send (epochChan _) e) as [ch |]; [| done].
      by injection Hstep as <- <-.
    + by injection Hstep as <- <-.
    + by injection Hstep as <- <-.
  - unfold stepWatcher in Hstep.
    destruct (activeCall (gWatcher j) (active st)) as [call |].
    { by injection Hstep as <- <-. }
    destruct (stops (sys_node st) !! j) as [wj |]; [| done].
    destruct (recv (w_receiver wj)) as [[resp rc] |]; [| done].
    destruct (watcherEvent wj resp) as [call |];
      by injection Hstep as <- <-.
  - unfold stepDispatcher in Hstep.
    destruct (recv (dataRespChan _)) as [[dataResp ch] |]; [| done].
    destruct (dataResponseReceive _ dataResp) as [call | msg];
      by injection Hstep as <- <-.
  - unfold stepData in Hstep.
    destruct (spawned st !! k) as [[call [| |]] |]; try done;
      by injection Hstep as <- <-.
  - destruct (stops (sys_node st) !! j) as [wj |]; [| done]. cbn in Hstep.
    destruct (send (w_receiver wj) resp) as [rc |]; [| done].
    cbn in Hstep. by injection Hstep as <- <-.
  - destruct (send (ew_receiver _) resp) as [rc |]; [| done].
    cbn in Hstep. by injection Hstep as <- <-.
  - destruct (send (dataRespChan _) dataResp) as [ch |]; [| done].
    cbn in Hstep. by injection Hstep as <- <-.
Qed.

Lemma exec_main_ended acts : forall st st' tr,
  mainAt st = atEnd -> exec st acts = Some (st', tr) -> begun gMain tr = [].
Proof.
  induction acts as [| a acts IH]; intros st st' tr Hend Hexec.
  - cbn in Hexec. by injection Hexec as <- <-.
  - cbn [exec] in Hexec.
    destruct (step st a) as [[st1 tr1] |] eqn:Hstep; [| done].
    cbn in Hexec.
    destruct (exec st1 acts) as [[st2 tr2] |] eqn:Hrest; [| done].
    cbn in Hexec. injection Hexec as <- <-.
    destruct (step_main_ended st a st1 tr1 Hend Hstep) as [Hend1 Hnone].
    by rewrite begun_app, Hnone, (IH st1 st2 tr2 Hend1 Hrest).
Qed.

(** One step, seen from the main goroutine: the calls it begins come
    off the front of those due and ahead, and what the step delivers to
    the epoch watch goes to the back. *)
Lemma step_main_flow st a st' tr :
  step st a = Some (st', tr) ->
  (mainAt st' = atEnd /\ begun gMain tr = [])
  \/ begun gMain tr ++ due st' ++ (SetEpoch <$> ahead st')
     = due st
       ++ (SetEpoch <$> (ahead st ++ omap published (deliveredEpoch [a]))).
Proof.
  intros Hstep. unfold step in Hstep.
  destruct (alive st); cbn [negb] in Hstep; [| done].
  assert (Hkeep : forall n' act sp al tr',
            fw n' = fw (sys_node st) -> epochW n' = epochW (sys_node st) ->
            begun gMain tr' = [] -> deliveredEpoch [a] = [] ->
            let st' := mkSystem n' (mainAt st) act sp al in
            (mainAt st' = atEnd /\ begun gMain tr' = [])
            \/ begun gMain tr' ++ due st' ++ (SetEpoch <$> ahead st')
               = due st
                 ++ (SetEpoch
                       <$> (ahead st ++ omap published (deliveredEpoch [a])))).
  { intros n' act sp al tr' Hfw Hew -> ->. right.
    unfold due, ahead. cbn [sys_node mainAt]. rewrite Hfw, Hew.
    by rewrite !app_nil_r. }
  destruct a as [[| | j | | k] | j resp | resp | dataResp]; cbn in Hstep.
  - (* the main goroutine *)
    unfold stepMain in Hstep.
    destruct (activeCall gMain (active st)) as [call |].
    + injection Hstep as <- <-. by apply Hkeep.
    + destruct (mainAt st) eqn:Hpc.
      * injection Hstep as <- <-. right.
        unfold due, ahead. cbn [sys_node mainAt]. rewrite Hpc.
        by rewrite begun_same, !app_nil_r.
      * destruct (epoch (fw (sys_node st)) =? maxUint64);
          injection Hstep as <- <-; [by left |]. right.
        unfold due, ahead. cbn [sys_node mainAt]. rewrite Hpc.
        by rewrite begun_same, !app_nil_r.
      * destruct (recv (epochChan _)) as [[e ch] |] eqn:Hrecv.
        -- injection Hstep as <- <-. right.
           apply recv_buffer in Hrecv.
           unfold due, ahead. cbn [sys_node mainAt]. rewrite Hpc.
           unfold withEpochChan.
           cbn [fw epochW epochChan ew_receiver setEpoch epoch].
           by rewrite Hrecv, !app_nil_r.
        -- destruct (recv (epochStop _)) as [[b ch] |]; [| done].
           injection Hstep as <- <-. by left.
      * done.
  - (* the epoch watcher *)
    unfold stepEpochWatcher in Hstep.
    destruct (recv (ew_receiver _)) as [[resp rc] |] eqn:Hrecv; [| done].
    apply recv_buffer in Hrecv.
    destruct (epochEvent resp) as [[e |] | msg] eqn:Hev.
    + destruct (send (epochChan _) e) as [ch |] eqn:Hsend; [| done].
      apply send_buffer in Hsend.
      injection Hstep as <- <-. right.
      unfold due, ahead. cbn [sys_node mainAt]. unfold withEpochReceiver.
      cbn [fw epochW epochChan ew_receiver].
      rewrite Hrecv, Hsend. cbn [omap list_omap]. unfold published at 2.
      rewrite Hev. by rewrite !app_nil_r, <- app_assoc.
    + injection Hstep as <- <-. right.
      unfold due, ahead. cbn [sys_node mainAt]. unfold withEpochReceiver.
      cbn [fw epochW epochChan ew_receiver].
      rewrite Hrecv. cbn [omap list_omap]. unfold published at 2.
      rewrite Hev. by rewrite !app_nil_r.
    + injection Hstep as <- <-. by apply Hkeep.
  - (* a watcher *)
    unfold stepWatcher in Hstep.
    destruct (activeCall (gWatcher j) (active st)) as [call |].
    { injection Hstep as <- <-. by apply Hkeep. }
    destruct (stops (sys_node st) !! j) as [wj |]; [| done].
    destruct (recv (w_receiver wj)) as [[resp rc] |]; [| done].
    destruct (watcherEvent wj resp) as [call |];
      injection Hstep as <- <-; by apply Hkeep.
  - (* the dispatcher *)
    unfold stepDispatcher in Hstep.
    destruct (recv (dataRespChan _)) as [[dataResp ch] |]; [| done].
    destruct (dataResponseReceive _ dataResp) as [call | msg];
      injection Hstep as <- <-; by apply Hkeep.
  - (* a goroutine of the dispatcher *)
    unfold stepData in Hstep.
    destruct (spawned st !! k) as [[call [| |]] |]; try done;
      injection Hstep as <- <-; by apply Hkeep.
  - (* etcd hands a response to a watcher *)
    destruct (stops (sys_node st) !! j) as [wj |]; [| done]. cbn in Hstep.
    destruct (send (w_receiver wj) resp) as [rc |]; [| done].
    cbn in Hstep. injection Hstep as <- <-. by apply Hkeep.
  - (* etcd hands a response to the epoch watch *)
    destruct (send (ew_receiver _) resp) as [rc |] eqn:Hsend; [| done].
    apply send_buffer in Hsend.
    cbn in Hstep. injection Hstep as <- <-. right.
    unfold due, ahead. cbn [sys_node mainAt]. unfold withEpochReceiver.
    cbn [fw epochW epochChan ew_receiver].
    rewrite Hsend, omap_app. cbn [begun omap list_omap app].
    by rewrite <- app_assoc.
  - (* a data response arrives *)
    destruct (send (dataRespChan _) dataResp) as [ch |]; [| done].
    cbn in Hstep. injection Hstep as <- <-. by apply Hkeep.
Qed.

Lemma exec_main_flow acts : forall st st' tr,
  exec st acts = Some (st', tr) ->
  begun gMain tr
  `prefix_of` due st
              ++ (SetEpoch
                    <$> (ahead st ++ omap published (deliveredEpoch acts))).
Proof.
  induction acts as [| a acts IH]; intros st st' tr Hexec.
  - cbn in Hexec. injection Hexec as <- <-. apply prefix_nil.
  - cbn [exec] in Hexec.
    destruct (step st a) as [[st1 tr1] |] eqn:Hstep; [| done].
    cbn in Hexec.
    destruct (exec st1 acts) as [[st2 tr2] |] eqn:Hrest; [| done].
    cbn in Hexec. injection Hexec as <- <-.
    rewrite begun_app.
    destruct (step_main_flow st a st1 tr1 Hstep) as [[Hend ->] | Hflow].
    + rewrite (exec_main_ended acts st1 st2 tr2 Hend Hrest).
      apply prefix_nil.
    + destruct (IH st1 st2 tr2 Hrest) as [k Hk].
      exists k. rewrite fmap_app in Hk.
      rewrite deliveredEpoch_cons, omap_app, (app_assoc (ahead st)), fmap_app.
      rewrite (app_assoc (due st)), <- Hflow, <- !app_assoc.
      f_equal. exact Hk.
Qed.

(** X21: the task is told the epochs in the order in which etcd hands
    them to the epoch watch.  In every run of a started node, the calls
    that the main goroutine has begun are the first calls of the list
    [Init], [SetEpoch] of the epoch fetched at the start, then
    [SetEpoch] of the epoch of each "set" or "compareAndSwap" response
    handed to the epoch watch, in the order of arrival: no epoch is
    repeated, overtaken or invented. *)
Theorem main_calls_in_order (f : framework) (n : node) (acts : list action)
    (st : system) (tr : list event) :
  startWatches f = Done n ->
  exec (boot n) acts = Some (st, tr) ->
  begun gMain tr
  `prefix_of` Init (taskID f)
              :: (SetEpoch <$> epoch f :: omap published (deliveredEpoch acts)).
Proof.
  intros Hstart Hexec.
  rewrite startWatches_Done in Hstart. injection Hstart as <-.
  exact (exec_main_flow acts _ st tr Hexec).
Qed.

Lemma main_calls_in_order_witness :
  exists st tr,
    exec (boot exampleNode)
      [run gMain; run gMain; run gMain;
       deliverEpoch (mkResponse "compareAndSwap" (mkNode "/job/epoch" "1" []) 6);
       run gEpochWatcher; run gMain; run gMain; run gMain]
    = Some (st, tr)
    /\ begun gMain tr `prefix_of` [Init 1; SetEpoch 0; SetEpoch 1].
Proof.
  destruct (exec (boot exampleNode) _) as [[st tr] |] eqn:Hexec;
    [| vm_compute in Hexec; discriminate].
  exists st, tr. split; [done |].
  exact (main_calls_in_order exampleFramework exampleNode _ st tr
           eq_refl Hexec).
Defined.

(** ** Runs: what becomes of the data responses *)

Lemma exec_snoc acts : forall st a,
  exec st (acts ++ [a])
  = match exec st acts with
    | Some (st1, tr1) =>
        match step st1 a with
        | Some (st2, tr2) => Some (st2, tr1 ++ tr2)
        | None => None
        end
    | None => None
    end.
Proof.
  induction acts as [| b acts IH]; intros st a.
  - cbn. destruct (step st a) as [[st2 tr2] |]; cbn; [| done].
    by rewrite app_nil_r.
  - cbn [app exec]. destruct (step st b) as [[st1 tr1] |]; cbn; [| done].
    rewrite IH. destruct (exec st1 acts) as [[st2 tr2] |]; cbn; [| done].
    destruct (step st2 a) as [[st3 tr3] |]; cbn; [| done].
    by rewrite app_assoc.
Qed.

Lemma responded_snoc acts a :
  responded (acts ++ [a]) = responded acts ++ responded [a].
Proof. apply omap_app. Qed.

Lemma payload_dataResponseReceive f dataResp call :
  dataResponseReceive f dataResp = Done call -> payload call = Some dataResp.
Proof.
  unfold dataResponseReceive. destruct dataResp as [id req data].
  cbn [dr_taskID dr_req dr_data].
  destruct (parentOrChild f id); by intros [= <-].
Qed.

(** One step, seen from the dispatcher and its goroutines. *)
Lemma step_dispatch st a st' tr :
  step st a = Some (st', tr) ->
  (payload <$> (spawned st').*1)
  ++ (Some <$> buffer (dataRespChan (sys_node st')))
  = ((payload <$> (spawned st).*1)
     ++ (Some <$> buffer (dataRespChan (sys_node st))))
    ++ (Some <$> responded [a])
  /\ forall k, started st' k = started st k ++ begun (gData k) tr.
Proof.
  intros Hstep. unfold step in Hstep.
  destruct (alive st); cbn [negb] in Hstep; [| done].
  assert (Hkeep : forall n' pc act al tr',
            dataRespChan n' = dataRespChan (sys_node st) ->
            (forall k, begun (gData k) tr' = []) -> responded [a] = [] ->
            let st' := mkSystem n' pc act (spawned st) al in
            (payload <$> (spawned st').*1)
            ++ (Some <$> buffer (dataRespChan (sys_node st')))
            = ((payload <$> (spawned st).*1)
               ++ (Some <$> buffer (dataRespChan (sys_node st))))
              ++ (Some <$> responded [a])
            /\ forall k, started st' k = started st k ++ begun (gData k) tr').
  { intros n' pc act al tr' Hch Hnone ->. cbn [sys_node spawned].
    rewrite Hch. split; [by rewrite app_nil_r |].
    intros k. by rewrite Hnone, app_nil_r. }
  destruct a as [[| | j | | k] | j resp | resp | dataResp]; cbn in Hstep.
  - (* the main goroutine *)
    unfold stepMain in Hstep.
    destruct (activeCall gMain (active st)) as [call |].
    + injection Hstep as <- <-. by apply Hkeep.
    + destruct (mainAt st).
      * injection Hstep as <- <-. by apply Hkeep.
      * destruct (epoch (fw (sys_node st)) =? maxUint64);
          injection Hstep as <- <-; by apply Hkeep.
      * destruct (recv (epochChan _)) as [[e ch] |].
        -- injection Hstep as <- <-. by apply Hkeep.
        -- destruct (recv (epochStop _)) as [[b ch] |]; [| done].
           injection Hstep as <- <-. by apply Hkeep.
      * done.
  - (* the epoch watcher *)
    unfold stepEpochWatcher in Hstep.
    destruct (recv (ew_receiver _)) as [[resp rc] |]; [| done].
    destruct (epochEvent resp) as [[e |] | msg].
    + destruct (send (epochChan _) e) as [ch |]; [| done].
      injection Hstep as <- <-. by apply Hkeep.
    + injection Hstep as <- <-. by apply Hkeep.
    + injection Hstep as <- <-. by apply Hkeep.
  - (* a watcher *)
    unfold stepWatcher in Hstep.
    destruct (activeCall (gWatcher j) (active st)) as [call |].
    { injection Hstep as <- <-. by apply Hkeep. }
    destruct (stops (sys_node st) !! j) as [wj |]; [| done].
    destruct (recv (w_receiver wj)) as [[resp rc] |]; [| done].
    destruct (watcherEvent wj resp) as [call |];
      injection Hstep as <- <-; by apply Hkeep.
  - (* the dispatcher *)
    unfold stepDispatcher in Hstep.
    destruct (recv (dataRespChan _)) as [[dataResp ch] |] eqn:Hrecv; [| done].
    apply recv_buffer in Hrecv.
    destruct (dataResponseReceive _ dataResp) as [call | msg] eqn:Hcall.
    + injection Hstep as <- <-. cbn [sys_node spawned withDataRespChan dataRespChan].
      apply payload_dataResponseReceive in Hcall.
      split.
      * rewrite Hrecv, fmap_app, fmap_app. cbn. rewrite Hcall.
        by rewrite app_nil_r, <- app_assoc.
      * intros k. unfold started. cbn [spawned begun omap list_omap].
        rewrite app_nil_r.
        destruct (decide (k < length (spawned st))%nat) as [Hlt | Hge].
        -- by rewrite lookup_app_l.
        -- rewrite lookup_app_r by lia.
           rewrite (lookup_ge_None_2 (spawned st)) by lia.
           by destruct (k - length (spawned st))%nat as [| [| m]].
    + injection Hstep as <- <-. by apply Hkeep.
  - (* a goroutine of the dispatcher *)
    unfold stepData in Hstep.
    destruct (spawned st !! k) as [[call [| |]] |] eqn:Hk; try done;
      injection Hstep as <- <-; cbn [sys_node spawned];
      (split;
       [ rewrite app_nil_r; do 2 f_equal;
         apply list_eq; intros m; rewrite !list_lookup_fmap;
         destruct (decide (m = k)) as [-> | Hne];
         [ rewrite list_lookup_insert_eq by (by eapply lookup_lt_Some);
           by rewrite Hk
         | by rewrite list_lookup_insert_ne ]
       | intros m; unfold started; cbn [spawned];
         destruct (decide (m = k)) as [-> | Hne];
         [ rewrite list_lookup_insert_eq by (by eapply lookup_lt_Some);
           rewrite Hk
         | rewrite list_lookup_insert_ne by done ] ]).
    + by rewrite begun_same.
    + rewrite begun_other by (by intros [= ->]). by rewrite app_nil_r.
    + done.
    + by rewrite app_nil_r.
  - (* etcd hands a response to a watcher *)
    destruct (stops (sys_node st) !! j) as [wj |]; [| done]. cbn in Hstep.
    destruct (send (w_receiver wj) resp) as [rc |]; [| done].
    cbn in Hstep. injection Hstep as <- <-. by apply Hkeep.
  - (* etcd hands a response to the epoch watch *)
    destruct (send (ew_receiver _) resp) as [rc |]; [| done].
    cbn in Hstep. injection Hstep as <- <-. by apply Hkeep.
  - (* a data response arrives *)
    destruct (send (dataRespChan _) dataResp) as [ch |] eqn:Hsend; [| done].
    apply send_buffer in Hsend.
    cbn in Hstep. injection Hstep as <- <-.
    cbn [sys_node spawned withDataRespChan dataRespChan].
    split; [by rewrite Hsend, fmap_app, app_assoc |].
    intros k. by rewrite app_nil_r.
Qed.

(** X22: every data response is dispatched once.  In every run of a
    started node, the goroutines that [dataResponseReceiver] has started,
    in order, followed by the responses that wait in the channel, stand
    for the responses that have arrived, in the order of their arrival:
    the call of each goroutine is [ParentDataReady] or [ChildDataReady]
    with the task ID, the request and the data of its response.  Each of
    these goroutines begins its call, and no other, at most once. *)
Theorem data_responses_dispatched_once (f : framework) (n : node)
    (acts : list action) (st : system) (tr : list event) :
  startWatches f = Done n ->
  exec (boot n) acts = Some (st, tr) ->
  (payload <$> (spawned st).*1)
  ++ (Some <$> buffer (dataRespChan (sys_node st)))
  = Some <$> responded acts
  /\ forall k, begun (gData k) tr = started st k.
Proof.
  intros Hstart. rewrite startWatches_Done in Hstart. injection Hstart as <-.
  revert st tr. induction acts as [| a acts IH] using rev_ind; intros st tr.
  - cbn. intros [= <- <-]. split; [done |]. intros k. unfold started.
    cbn. by rewrite lookup_nil.
  - rewrite exec_snoc.
    destruct (exec _ acts) as [[st1 tr1] |]; [| done].
    destruct (step st1 a) as [[st2 tr2] |] eqn:Hstep; [| done].
    intros [= <- <-].
    destruct (IH st1 tr1 eq_refl) as [Hflow Hbegun].
    destruct (step_dispatch st1 a st2 tr2 Hstep) as [Hflow' Hbegun'].
    split.
    + by rewrite Hflow', Hflow, responded_snoc, fmap_app.
    + intros k. by rewrite begun_app, Hbegun, Hbegun'.
Qed.

Lemma data_responses_dispatched_once_witness :
  exists st tr,
    exec (boot exampleNode) exampleRun = Some (st, tr)
    /\ begun (gData 0) tr = started st 0
    /\ begun (gData 0) tr
       = [ParentDataReady 0 "ParamReady" (list_ascii_of_string "param")].
Proof.
  destruct (exec (boot exampleNode) exampleRun) as [[st tr] |] eqn:Hexec;
    [| vm_compute in Hexec; discriminate].
  exists st, tr. split; [done |].
  destruct (data_responses_dispatched_once exampleFramework exampleNode
              exampleRun st tr eq_refl Hexec) as [_ Hbegun].
  split; [apply Hbegun |].
  rewrite Hbegun. vm_compute in Hexec. injection Hexec as <- _. reflexivity.
Defined.
